(** * sconsProject: dependency resolution, library checking and target declaration

    A shallow embedding of [project/__init__.py] (class [SConsProject]) and of
    [autoconf/_internal.py] (class [InternalLibChecker]).

    - Library checker objects live in an object store ([heap]) and are
      referred to by address; their mutable attribute [checkDone] is a set
      of addresses.
    - SCons environments live in a second store ([envs]); [Clone] allocates,
      every other operation updates in place.
    - Project methods are computations in a state-and-exception monad: the
      state reached when an exception is raised is kept, as in Python.
    - SCons itself, the file system and the checker base class are
      collaborators: their operations are fields of the class [Collab].
    - The sources are run by Python 3 ([print] is called as a function
      throughout): the builtin [file], the method [iteritems] of a dict and
      the method [sort] of the keys of a dict do not exist, and the use of
      one of them raises. *)

From stdpp Require Import gmap strings list fin_maps sorting.

Open Scope string_scope.
Open Scope nat_scope.
Open Scope list_scope.

(** ** Python values held by an environment *)

(** Reference to a library checker object. *)
Abbreviation addr := nat.
(** Reference to an SCons environment object. *)
Abbreviation loc := nat.
(** An SCons node (or node list) returned by a builder: an opaque handle. *)
Definition Node := string.

#[local] Set Warnings "-register-all,-clear-no-such-hyp".

Inductive Value :=
| VNone
| VStr (s : string)
| VBool (b : bool)
| VLib (a : addr)
| VList (l : list Value).

(** Python truth value. *)
Definition truthy (v : Value) : bool :=
  match v with
  | VNone => false
  | VStr s => negb (String.eqb s "")
  | VBool b => b
  | VLib _ => true
  | VList l => match l with [] => false | _ => true end
  end.

(** The double quote character, as a string. *)
Definition dquote : string := String (Ascii.ascii_of_nat 34) EmptyString.

(** A list of strings and a list of checker objects as Python lists. *)
Definition VStrs (l : list string) : Value := VList (VStr <$> l).
Definition VLibs (l : list addr) : Value := VList (VLib <$> l).


(** ** Python strings and lists *)

(** The line feed character, as a string. *)
Definition nl : string := String (Ascii.ascii_of_nat 10) EmptyString.

(** The characters [str.split()] splits on. *)
Definition isSpace (c : Ascii.ascii) : bool :=
  let n := Ascii.nat_of_ascii c in
  Nat.eqb n 32 || (Nat.leb 9 n && Nat.leb n 13).

(** [s.split()]: the maximal runs of characters that are not white space;
    [word] is the run being read. *)
Fixpoint py_split (s : string) (word : string) : list string :=
  match s with
  | EmptyString => if String.eqb word "" then [] else [word]
  | String c rest =>
      if isSpace c
      then (if String.eqb word "" then py_split rest ""
            else word :: py_split rest "")
      else py_split rest (word +:+ String c EmptyString)
  end.

(** [s[n:]] *)
Fixpoint py_drop (n : nat) (s : string) : string :=
  match n, s with
  | 0, _ => s
  | S n', String _ rest => py_drop n' rest
  | S _, EmptyString => EmptyString
  end.

(** The one-character strings of [s]: what [for c in s] goes through. *)
Fixpoint py_chars (s : string) : list string :=
  match s with
  | EmptyString => []
  | String c rest => String c EmptyString :: py_chars rest
  end.

(** An optional string that is neither [None] nor empty. *)
Definition nonEmpty (o : option string) : option string :=
  match o with
  | Some s => if String.eqb s "" then None else Some s
  | None => None
  end.

(** [sep.join(l)] *)
Fixpoint py_join (sep : string) (l : list string) : string :=
  match l with
  | [] => ""
  | [x] => x
  | x :: rest => x +:+ sep +:+ py_join sep rest
  end.

(** [c in s] for a character [c]. *)
Fixpoint py_has (c : Ascii.ascii) (s : string) : bool :=
  match s with
  | EmptyString => false
  | String c' rest => Ascii.eqb c' c || py_has c rest
  end.

(** A digit of a number written in base 16, in lower case. *)
Definition hexDigit (n : nat) : Ascii.ascii :=
  Ascii.ascii_of_nat (if Nat.ltb n 10 then 48 + n else 87 + n).

(** The characters of [repr(s)] between the quotes, [q] being the quote:
    the quote and the backslash are escaped, the control characters are
    written [\t], [\n], [\r] or [\xNN].  The bytes above 127 are those of
    printable characters, which [repr] leaves as they are. *)
Fixpoint py_repr_chars (q : Ascii.ascii) (s : string) : string :=
  match s with
  | EmptyString => EmptyString
  | String c rest =>
      let n := Ascii.nat_of_ascii c in
      let backslash := Ascii.ascii_of_nat 92 in
      (if Ascii.eqb c q || Ascii.eqb c backslash
       then String backslash (String c EmptyString)
       else if Nat.eqb n 9 then String backslash "t"
       else if Nat.eqb n 10 then String backslash "n"
       else if Nat.eqb n 13 then String backslash "r"
       else if Nat.ltb n 32 || Nat.eqb n 127
       then String backslash
              ("x" +:+ String (hexDigit (n / 16))
                         (String (hexDigit (n mod 16)) EmptyString))
       else String c EmptyString)
      +:+ py_repr_chars q rest
  end.

(** [repr(s)]: between double quotes when [s] has a single quote and no
    double quote, between single quotes otherwise. *)
Definition py_repr (s : string) : string :=
  let single := Ascii.ascii_of_nat 39 in
  let double := Ascii.ascii_of_nat 34 in
  let q := if py_has single s && negb (py_has double s) then double else single in
  String q (py_repr_chars q s) +:+ String q EmptyString.

(** [str(l)] for a list of strings. *)
Definition py_str_list (l : list string) : string :=
  "[" +:+ py_join ", " (py_repr <$> l) +:+ "]".

(** [l.sort()] on strings: the order of [cmp] on [str]. *)
Definition str_le (a b : string) : Prop := String.leb a b = true.

Global Instance str_le_dec (a b : string) : Decision (str_le a b).
Proof. unfold str_le. apply _. Defined.

Definition py_sorted (l : list string) : list string := merge_sort str_le l.

(** [v == s] for a string [s]. *)
Definition isStr (v : Value) (s : string) : bool :=
  match v with
  | VStr s' => String.eqb s' s
  | _ => false
  end.

(** The elements of a Python list of strings, or of checker objects. *)
Definition asStrs (v : Value) : option (list string) :=
  match v with
  | VList l => mapM (λ x, match x with VStr s => Some s | _ => None end) l
  | _ => None
  end.

Definition asLibs (v : Value) : option (list addr) :=
  match v with
  | VList l => mapM (λ x, match x with VLib a => Some a | _ => None end) l
  | _ => None
  end.

(** An environment: construction variables by name. *)
Abbreviation Env := (gmap string Value).

(** A Python dict given as keyword arguments. *)
Abbreviation Flags := (list (string * Value)).

(** ** Collaborators

    What the project layer consumes from SCons, from the file system and
    from [autoconf/_base.py], none of which is part of the sources. *)
Class Collab := {
  (** type of the attribute [id] of a checker, compared with [==] *)
  Id : Type;
  Id_eq_dec :: EqDecision Id;
  (** [SCons.Variables]: the option registry [self.opts] *)
  Opts : Type;
  (** [opts.Update(env)] *)
  opts_Update : Opts -> Env -> Env;
  (** [env.PrependENVPath(name, value)] *)
  env_PrependENVPath : string -> Value -> Env -> Env;
  (** [env.AppendUnique(key = value)] *)
  env_AppendUnique : string -> Value -> Env -> Env;
  (** [env.PrependUnique(key = value)] *)
  env_PrependUnique : string -> Value -> Env -> Env;
  (** [env.Append(key = value)] *)
  env_Append : string -> Value -> Env -> Env;
  (** a builder call [env.<Builder>(target, source)]: the node it returns *)
  scons_build : string -> Env -> string -> list string -> Node;
  (** [env.Install(dir, node)] and [env.InstallAs(path, node)] *)
  scons_install : Env -> string -> Node -> Node;
  (** [self.scanFiles(dirs, accept, reject, recursive)] *)
  fs_scanFiles : list string -> list string -> list string -> bool -> list string;
  (** first line of a file: [file(name, 'r').readline()] *)
  fs_readline : string -> string;
  (** [self.getRealAbsoluteCwd(path)] and [self.getAbsoluteCwd(path)] *)
  fs_realAbsoluteCwd : string -> string;
  fs_absoluteCwd : string -> string;
  (** [self.prepareIncludes(dirs)] *)
  fs_prepareIncludes : list string -> list string;
  (** [self.getDirs(0)] *)
  fs_getDirs : list string;
  (** [self.inOutputLib()], [self.inOutputBin()] *)
  dir_output_lib : string;
  dir_output_bin : string;
  (** [self.CC['sharedobject']] *)
  CC_sharedobject : Value;
  (** attributes and methods a checker inherits from [BaseLibChecker]
      when its class does not define them; the methods read the name and
      the link libraries of the object *)
  base_id : Id;
  base_error : string;
  base_initEnv : string -> list string -> Env -> Env;
  base_check : string -> list string -> Env -> Env * bool;
}.

(** ** Library checker objects *)

Section Model.
Context `{Collab}.

(** A checker object: its attributes and its bound methods.  A method
    receives the project only to read flag tables; it acts on the
    environment (or option registry) it is handed. *)
Record LibObj := {
  name : string;
  id : Id;
  libs : list string;
  dependencies : list (option addr);
  sconsNode : option Node;
  error : string;
  enabled : Env -> bool;
  initOptions : Opts -> Opts * bool;
  initEnv : Env -> Env;
  configure : Env -> Env * bool;
  check : Env -> Env * bool;
  postconfigure : Env -> nat -> Env;
}.

(** The object store: every address holds a checker. *)
Definition Heap := addr -> LibObj.

(** The pair [(s.name, s.id)] that identifies a library. *)
Definition libKey (h : Heap) (s : addr) : string * Id :=
  (name (h s), id (h s)).

(** The keys of a list of [(library, level)] pairs. *)
Definition keysOf (h : Heap) (l : list (addr * nat)) : list (string * Id) :=
  (libKey h ∘ fst) <$> l.

(** ** [uniqLibs] *)

(** The loop of [uniqLibs], with its two accumulators [libs] and [names]. *)
Fixpoint uniqLibs_loop (h : Heap) (allLibs : list (addr * nat))
    (libs : list (addr * nat)) (names : list (string * Id)) : list (addr * nat) :=
  match allLibs with
  | [] => libs
  | (s, level) :: rest =>
      if decide (libKey h s ∈ names)
      then uniqLibs_loop h rest libs names
      else uniqLibs_loop h rest (libs ++ [(s, level)]) (names ++ [libKey h s])
  end.

Definition uniqLibs (h : Heap) (allLibs : list (addr * nat)) : list (addr * nat) :=
  uniqLibs_loop h allLibs [] [].

(** The statement of the specification: position [i] of [x] holds the
    first occurrence of its key. *)
Definition isFirstOccurrence (h : Heap) (x : list (addr * nat)) (i : nat) : bool :=
  match x !! i with
  | Some (s, _) => bool_decide (libKey h s ∉ (libKey h ∘ fst) <$> take i x)
  | None => false
  end.

(** The entries of [x] that are first occurrences, in the order of [x]. *)
Definition firstOccurrences (h : Heap) (x : list (addr * nat)) : list (addr * nat) :=
  snd <$> filter (λ p, isFirstOccurrence h x p.1 = true) (imap pair x).

(** ** [findLibsDependencies] *)

(** [ll.extend(f(l))] for every [l] of [xs]; [None] when a call overflows
    the stack. *)
Fixpoint extendEach {A B} (f : A -> option (list B)) (xs : list A) (ll : list B)
    : option (list B) :=
  match xs with
  | [] => Some ll
  | l :: rest =>
      match f l with
      | None => None
      | Some r => extendEach f rest (ll ++ r)
      end
  end.

(** [internFindLibDependencies(lib, level)].  [fuel] is the number of
    frames left on the Python stack: [None] is [RecursionError]. *)
Fixpoint internFindLibDependencies (fuel : nat) (h : Heap) (lib : option addr)
    (level : nat) : option (list (addr * nat)) :=
  match fuel with
  | 0 => None
  | S fuel' =>
      match lib with
      | None => Some []
      | Some a =>
          match extendEach (λ l, internFindLibDependencies fuel' h l (S level))
                  (dependencies (h a)) [] with
          | None => None
          | Some ll => Some (ll ++ [(a, level)])
          end
      end
  end.

(** The argument of [findLibsDependencies]: one checker or a list. *)
Inductive LibsArg := OneLib (a : addr) | LibList (l : list addr).

Definition asLibList (libs : LibsArg) : list addr :=
  match libs with OneLib a => [a] | LibList l => l end.

(** The outer loops of [findLibsDependencies]. *)
Fixpoint findLibsDependencies_loop (fuel : nat) (h : Heap) (libs : list addr)
    (ll : list (addr * nat)) : option (list (addr * nat)) :=
  match libs with
  | [] => Some ll
  | lib :: rest =>
      match extendEach (λ l, internFindLibDependencies fuel h l 0)
              (dependencies (h lib)) ll with
      | None => None
      | Some ll' => findLibsDependencies_loop fuel h rest ll'
      end
  end.

Definition findLibsDependencies (fuel : nat) (h : Heap) (libs : LibsArg)
    : option (list (addr * nat)) :=
  findLibsDependencies_loop fuel h (asLibList libs) [].

(** The first loop of [appendLibsToEnv]: dependencies of each requested
    library, then the library itself at level 0. *)
Fixpoint collectLibs (fuel : nat) (h : Heap) (libs : list addr)
    (allLibs : list (addr * nat)) : option (list (addr * nat)) :=
  match libs with
  | [] => Some allLibs
  | eachlib :: rest =>
      match findLibsDependencies fuel h (OneLib eachlib) with
      | None => None
      | Some libdeps => collectLibs fuel h rest (allLibs ++ libdeps ++ [(eachlib, 0)])
      end
  end.

(** The resolved dependency list of [appendLibsToEnv]. *)
Definition resolvedLibs (fuel : nat) (h : Heap) (libs : list addr)
    : option (list (addr * nat)) :=
  uniqLibs h <$> collectLibs fuel h libs [].

(** ** [InternalLibChecker] *)

(** [env.AppendUnique] applied to a dict of keywords, one at a time. *)
Definition env_AppendUniqueAll (flags : Flags) (e : Env) : Env :=
  foldl (λ e kv, env_AppendUnique kv.1 kv.2 e) e flags.

(** [__init__] of [InternalLibChecker], with the methods the class defines. *)
Definition InternalLibChecker (lib name_ : string) (includes : list string)
    (envFlags : Flags) (dependencies_ : list (option addr))
    (sconsNode_ : option Node) (addSources : list string) : LibObj :=
  let name' := if String.eqb name_ "" then lib else name_ in
  {| name := name';
     id := base_id;
     libs := [lib];
     dependencies := dependencies_;
     sconsNode := sconsNode_;
     error := base_error;
     enabled := λ _, true;
     initOptions := λ o, (o, true);
     initEnv := base_initEnv name' [lib];
     configure := λ e,
       let e1 := match includes with
                 | [] => e
                 | _ => env_AppendUnique "CPPPATH" (VStrs includes) e
                 end in
       let e2 := match envFlags with
                 | [] => e1
                 | _ => env_AppendUniqueAll envFlags e1
                 end in
       (e2, true);
     check := base_check name' [lib];
     postconfigure := λ e level,
       let e1 := env_PrependUnique "LIBS" (VStrs [lib]) e in
       if Nat.eqb level 0
       then match addSources with
            | [] => e1
            | _ => env_Append "ADDSRC" (VStrs addSources) e1
            end
       else e1 |}.

(** ** The project *)

Inductive Exn :=
| RuntimeError (msg : string)
| ValueError (msg : string)
| KeyError (key : string)
| TypeError (what : string)
| RecursionError
| UnboundLocalError (var : string)
| AttributeError (attribute : string)
| NameError (name_ : string)
| IndexError
| SystemExit (code : nat).

(** What the project asks of its collaborators, in the order it asks.
    [EvConfigureContext] is [env.Configure()]; [EvCheckLibrary] records
    what [checkLibrary] answered to [appendLibsToEnv]. *)
Inductive Event :=
| EvWrite (s : string)
| EvClone (src dst : loc)
| EvInitOptions (a : addr) (ok : bool)
| EvInitEnv (a : addr) (l : loc)
| EvConfigure (a : addr) (l : loc) (ok : bool)
| EvConfigureContext (l : loc)
| EvCheck (a : addr) (l : loc) (ok : bool)
| EvFinish (l : loc)
| EvCheckLibrary (a : addr) (ok : bool)
| EvPostconfigure (a : addr) (l : loc) (level : nat)
| EvBuilder (kind : string) (l : loc) (target : string) (sources : list string)
| EvInstall (l : loc) (dest : string) (node : Node)
| EvDepends (l : loc) (target : Node) (deps : list Node)
| EvRequires (l : loc) (target : Node) (deps : list Node)
| EvMSVSProject (target : string)
| EvDefault (targets : Value)
| EvAtexit.

Record Project := {
  (** checker objects and the next free address *)
  heap : Heap;
  heap_next : addr;
  (** the objects whose attribute [checkDone] is true *)
  checkDone : gset addr;
  (** environment objects; [Clone] appends *)
  envs : list Env;
  (** [self.env], [self.opts], [self.commonLibs] *)
  env : loc;
  opts : Opts;
  commonLibs : list addr;
  libs_error : list addr;
  allLibsChecked : list string;
  removedFromDefaultTargets : gmap string Value;
  allTargets : gmap string (option Node * option addr);
  (** attributes set on [self.libs] *)
  publicLibs : gmap string addr;
  (** the alias name space of SCons *)
  aliases : gmap string (list string);
  allVisualProjects : list Node;
  windows : bool;
  (** [SCons.Script.GetOption('clean')] and [GetOption('help')] *)
  opt_clean : bool;
  opt_help : bool;
  trace : list Event;
}.

Definition set_heap (f : Heap -> Heap) (n : addr) (st : Project) : Project :=
  {| heap := f (heap st); heap_next := n; checkDone := checkDone st;
     envs := envs st; env := env st; opts := opts st; commonLibs := commonLibs st;
     libs_error := libs_error st; allLibsChecked := allLibsChecked st;
     removedFromDefaultTargets := removedFromDefaultTargets st;
     allTargets := allTargets st; publicLibs := publicLibs st;
     aliases := aliases st; allVisualProjects := allVisualProjects st;
     windows := windows st; opt_clean := opt_clean st; opt_help := opt_help st;
     trace := trace st |}.

Definition set_checkDone (f : gset addr -> gset addr) (st : Project) : Project :=
  {| heap := heap st; heap_next := heap_next st; checkDone := f (checkDone st);
     envs := envs st; env := env st; opts := opts st; commonLibs := commonLibs st;
     libs_error := libs_error st; allLibsChecked := allLibsChecked st;
     removedFromDefaultTargets := removedFromDefaultTargets st;
     allTargets := allTargets st; publicLibs := publicLibs st;
     aliases := aliases st; allVisualProjects := allVisualProjects st;
     windows := windows st; opt_clean := opt_clean st; opt_help := opt_help st;
     trace := trace st |}.

Definition set_envs (f : list Env -> list Env) (st : Project) : Project :=
  {| heap := heap st; heap_next := heap_next st; checkDone := checkDone st;
     envs := f (envs st); env := env st; opts := opts st; commonLibs := commonLibs st;
     libs_error := libs_error st; allLibsChecked := allLibsChecked st;
     removedFromDefaultTargets := removedFromDefaultTargets st;
     allTargets := allTargets st; publicLibs := publicLibs st;
     aliases := aliases st; allVisualProjects := allVisualProjects st;
     windows := windows st; opt_clean := opt_clean st; opt_help := opt_help st;
     trace := trace st |}.

Definition set_opts (f : Opts -> Opts) (st : Project) : Project :=
  {| heap := heap st; heap_next := heap_next st; checkDone := checkDone st;
     envs := envs st; env := env st; opts := f (opts st); commonLibs := commonLibs st;
     libs_error := libs_error st; allLibsChecked := allLibsChecked st;
     removedFromDefaultTargets := removedFromDefaultTargets st;
     allTargets := allTargets st; publicLibs := publicLibs st;
     aliases := aliases st; allVisualProjects := allVisualProjects st;
     windows := windows st; opt_clean := opt_clean st; opt_help := opt_help st;
     trace := trace st |}.

Definition set_libs_error (f : list addr -> list addr) (st : Project) : Project :=
  {| heap := heap st; heap_next := heap_next st; checkDone := checkDone st;
     envs := envs st; env := env st; opts := opts st; commonLibs := commonLibs st;
     libs_error := f (libs_error st); allLibsChecked := allLibsChecked st;
     removedFromDefaultTargets := removedFromDefaultTargets st;
     allTargets := allTargets st; publicLibs := publicLibs st;
     aliases := aliases st; allVisualProjects := allVisualProjects st;
     windows := windows st; opt_clean := opt_clean st; opt_help := opt_help st;
     trace := trace st |}.

Definition set_allLibsChecked (f : list string -> list string) (st : Project) : Project :=
  {| heap := heap st; heap_next := heap_next st; checkDone := checkDone st;
     envs := envs st; env := env st; opts := opts st; commonLibs := commonLibs st;
     libs_error := libs_error st; allLibsChecked := f (allLibsChecked st);
     removedFromDefaultTargets := removedFromDefaultTargets st;
     allTargets := allTargets st; publicLibs := publicLibs st;
     aliases := aliases st; allVisualProjects := allVisualProjects st;
     windows := windows st; opt_clean := opt_clean st; opt_help := opt_help st;
     trace := trace st |}.

Definition set_removedFromDefaultTargets
    (f : gmap string Value -> gmap string Value) (st : Project) : Project :=
  {| heap := heap st; heap_next := heap_next st; checkDone := checkDone st;
     envs := envs st; env := env st; opts := opts st; commonLibs := commonLibs st;
     libs_error := libs_error st; allLibsChecked := allLibsChecked st;
     removedFromDefaultTargets := f (removedFromDefaultTargets st);
     allTargets := allTargets st; publicLibs := publicLibs st;
     aliases := aliases st; allVisualProjects := allVisualProjects st;
     windows := windows st; opt_clean := opt_clean st; opt_help := opt_help st;
     trace := trace st |}.

Definition set_allTargets
    (f : gmap string (option Node * option addr) -> gmap string (option Node * option addr))
    (st : Project) : Project :=
  {| heap := heap st; heap_next := heap_next st; checkDone := checkDone st;
     envs := envs st; env := env st; opts := opts st; commonLibs := commonLibs st;
     libs_error := libs_error st; allLibsChecked := allLibsChecked st;
     removedFromDefaultTargets := removedFromDefaultTargets st;
     allTargets := f (allTargets st); publicLibs := publicLibs st;
     aliases := aliases st; allVisualProjects := allVisualProjects st;
     windows := windows st; opt_clean := opt_clean st; opt_help := opt_help st;
     trace := trace st |}.

Definition set_publicLibs (f : gmap string addr -> gmap string addr) (st : Project)
    : Project :=
  {| heap := heap st; heap_next := heap_next st; checkDone := checkDone st;
     envs := envs st; env := env st; opts := opts st; commonLibs := commonLibs st;
     libs_error := libs_error st; allLibsChecked := allLibsChecked st;
     removedFromDefaultTargets := removedFromDefaultTargets st;
     allTargets := allTargets st; publicLibs := f (publicLibs st);
     aliases := aliases st; allVisualProjects := allVisualProjects st;
     windows := windows st; opt_clean := opt_clean st; opt_help := opt_help st;
     trace := trace st |}.

Definition set_aliases
    (f : gmap string (list string) -> gmap string (list string)) (st : Project)
    : Project :=
  {| heap := heap st; heap_next := heap_next st; checkDone := checkDone st;
     envs := envs st; env := env st; opts := opts st; commonLibs := commonLibs st;
     libs_error := libs_error st; allLibsChecked := allLibsChecked st;
     removedFromDefaultTargets := removedFromDefaultTargets st;
     allTargets := allTargets st; publicLibs := publicLibs st;
     aliases := f (aliases st); allVisualProjects := allVisualProjects st;
     windows := windows st; opt_clean := opt_clean st; opt_help := opt_help st;
     trace := trace st |}.

Definition set_allVisualProjects (f : list Node -> list Node) (st : Project) : Project :=
  {| heap := heap st; heap_next := heap_next st; checkDone := checkDone st;
     envs := envs st; env := env st; opts := opts st; commonLibs := commonLibs st;
     libs_error := libs_error st; allLibsChecked := allLibsChecked st;
     removedFromDefaultTargets := removedFromDefaultTargets st;
     allTargets := allTargets st; publicLibs := publicLibs st;
     aliases := aliases st; allVisualProjects := f (allVisualProjects st);
     windows := windows st; opt_clean := opt_clean st; opt_help := opt_help st;
     trace := trace st |}.

Definition set_trace (f : list Event -> list Event) (st : Project) : Project :=
  {| heap := heap st; heap_next := heap_next st; checkDone := checkDone st;
     envs := envs st; env := env st; opts := opts st; commonLibs := commonLibs st;
     libs_error := libs_error st; allLibsChecked := allLibsChecked st;
     removedFromDefaultTargets := removedFromDefaultTargets st;
     allTargets := allTargets st; publicLibs := publicLibs st;
     aliases := aliases st; allVisualProjects := allVisualProjects st;
     windows := windows st; opt_clean := opt_clean st; opt_help := opt_help st;
     trace := f (trace st) |}.

(** ** The monad of project methods *)

Inductive Outcome (A : Type) :=
| Return (a : A)
| Raise (e : Exn).
Global Arguments Return {A} a.
Global Arguments Raise {A} e.

Definition M (A : Type) : Type := Project -> Outcome A * Project.

Definition ret {A} (a : A) : M A := λ st, (Return a, st).

Definition bind {A B} (c : M A) (k : A -> M B) : M B :=
  λ st, match c st with
        | (Return a, st') => k a st'
        | (Raise e, st') => (Raise e, st')
        end.

Definition raise {A} (e : Exn) : M A := λ st, (Raise e, st).
Definition gets {A} (f : Project -> A) : M A := λ st, (Return (f st), st).
Definition modify (f : Project -> Project) : M unit := λ st, (Return tt, f st).

Notation "x <- c ;; k" := (bind c (λ x, k))
  (at level 100, c at next level, right associativity).
Notation "c ;;; k" := (bind c (λ _, k))
  (at level 100, right associativity).

(** [for x in xs: f(x)] *)
Fixpoint forM_ {A} (xs : list A) (f : A -> M unit) : M unit :=
  match xs with
  | [] => ret tt
  | x :: rest => f x ;;; forM_ rest f
  end.

(** A loop that updates a local variable [b]. *)
Fixpoint foldM {A B} (f : B -> A -> M B) (b : B) (xs : list A) : M B :=
  match xs with
  | [] => ret b
  | x :: rest => b' <- f b x ;; foldM f b' rest
  end.

Definition when (b : bool) (c : M unit) : M unit := if b then c else ret tt.

Definition log (ev : Event) : M unit := modify (set_trace (λ t, t ++ [ev])).

(** ** Environment objects *)

Definition env_at (st : Project) (l : loc) : Env := default ∅ (envs st !! l).

Definition envGet (l : loc) : M Env := gets (λ st, env_at st l).

(** An in-place update of the environment object [l]. *)
Definition envUpdate (l : loc) (f : Env -> Env) : M unit :=
  modify (set_envs (alter f l)).

(** [env[key]] *)
Definition envItem (l : loc) (key : string) : M Value :=
  e <- envGet l ;;
  match e !! key with
  | Some v => ret v
  | None => raise (KeyError key)
  end.

(** [env.Clone()] *)
Definition Clone (l : loc) : M loc :=
  e <- envGet l ;;
  l' <- gets (λ st, length (envs st)) ;;
  modify (set_envs (λ es, es ++ [e])) ;;;
  log (EvClone l l') ;;;
  ret l'.

(** [env.Alias(name, targets)] *)
Definition Alias (name_ : string) (targets : list string) : M unit :=
  modify (set_aliases (λ al, <[name_ := default [] (al !! name_) ++ targets]> al)).

(** ** Options *)

Definition needConfigure : M bool :=
  gets (λ st, negb (opt_clean st) && negb (opt_help st)).

Definition needCheck : M bool :=
  self_env <- gets env ;;
  v <- envItem self_env "check_libs" ;;
  ret (truthy v).

Definition color_keys : list string :=
  ["color_clear"; "color_red"; "color_redB"; "color_green"; "color_blue";
   "color_blueB"; "color_yellow"; "color_brown"; "color_violet";
   "color_autoconf"; "color_header"; "color_title"; "color_compile";
   "color_link"; "color_install"; "color_info"; "color_success";
   "color_warning"; "color_fail"; "color_error"].

Definition applyOptionsOnEnv (l : loc) : M unit :=
  self_env <- gets env ;;
  inc <- envItem self_env "ENVINC" ;;
  envUpdate l (env_PrependENVPath "INCLUDE" inc) ;;;
  path <- envItem self_env "ENVPATH" ;;
  envUpdate l (env_PrependENVPath "PATH" path) ;;;
  libpath <- envItem self_env "ENVLIBPATH" ;;
  envUpdate l (env_PrependENVPath "LIB" libpath) ;;;
  colors <- envItem l "colors" ;;
  when (negb (truthy colors))
    (forM_ color_keys (λ c, envUpdate l (<[c := VStr ""]>))).

(** [sys.stdout.write(self.env[key])] *)
Definition writeColor (key : string) : M unit :=
  self_env <- gets env ;;
  c <- envItem self_env key ;;
  match c with
  | VStr s => log (EvWrite s)
  | _ => raise (TypeError "write")
  end.

(** ** Calls of checker methods *)

(** [if lib not in self.libs_error: self.libs_error.append(lib)] *)
Definition recordError (a : addr) : M unit :=
  modify (set_libs_error (λ le, if decide (a ∈ le) then le else le ++ [a])).

(** [lib.initOptions(self, self.opts)] *)
Definition callInitOptions (a : addr) : M bool :=
  lib <- gets (λ st, heap st a) ;;
  o <- gets opts ;;
  let '(o', ok) := initOptions lib o in
  modify (set_opts (λ _, o')) ;;;
  log (EvInitOptions a ok) ;;;
  ret ok.

(** [lib.initEnv(self, env)] *)
Definition callInitEnv (a : addr) (l : loc) : M unit :=
  lib <- gets (λ st, heap st a) ;;
  envUpdate l (initEnv lib) ;;;
  log (EvInitEnv a l).

(** [lib.configure(self, env)] *)
Definition callConfigure (a : addr) (l : loc) : M bool :=
  lib <- gets (λ st, heap st a) ;;
  e <- envGet l ;;
  let ok := (configure lib e).2 in
  envUpdate l (λ e, (configure lib e).1) ;;;
  log (EvConfigure a l ok) ;;;
  ret ok.

(** [lib.check(self, conf)], [conf] being a configure context of [l]. *)
Definition callCheck (a : addr) (l : loc) : M bool :=
  lib <- gets (λ st, heap st a) ;;
  e <- envGet l ;;
  let ok := (check lib e).2 in
  envUpdate l (λ e, (check lib e).1) ;;;
  log (EvCheck a l ok) ;;;
  ret ok.

(** [lib.postconfigure(self, env, level)] *)
Definition callPostconfigure (a : addr) (l : loc) (level : nat) : M unit :=
  lib <- gets (λ st, heap st a) ;;
  envUpdate l (λ e, postconfigure lib e level) ;;;
  log (EvPostconfigure a l level).

(** An [option] computed without the state; [None] is a stack overflow. *)
Definition liftRec {A} (o : option A) : M A :=
  match o with
  | Some a => ret a
  | None => raise RecursionError
  end.

(** ** [checkLibrary] *)

(** The probe of [checkLibrary]: the library and its dependencies are
    configured and checked in a scratch clone of [self.env]. *)
Definition probeLibrary (fuel : nat) (a : addr) : M bool :=
  h <- gets heap ;;
  deps <- liftRec (findLibsDependencies fuel h (OneLib a)) ;;
  let dependencies := uniqLibs h deps in
  self_env <- gets env ;;
  check_env <- Clone self_env ;;
  forM_ dependencies (λ d, callInitOptions d.1 ;;; ret tt) ;;;
  ok0 <- callInitOptions a ;;
  when (negb ok0) (recordError a) ;;;
  o <- gets opts ;;
  envUpdate check_env (opts_Update o) ;;;
  applyOptionsOnEnv check_env ;;;
  forM_ dependencies (λ d, callInitEnv d.1 check_env) ;;;
  callInitEnv a check_env ;;;
  forM_ dependencies (λ d, callConfigure d.1 check_env ;;; ret tt) ;;;
  ok1 <- callConfigure a check_env ;;
  log (EvConfigureContext check_env) ;;;
  forM_ dependencies (λ d, callCheck d.1 check_env ;;; ret tt) ;;;
  ok2 <- callCheck a check_env ;;
  log (EvFinish check_env) ;;;
  ret (ok1 && ok2).

(** [lib.checkDone = True] *)
Definition setCheckDone (a : addr) : M unit :=
  modify (set_checkDone (λ s, {[a]} ∪ s)).

(** [self.allLibsChecked.append(lib.name)] *)
Definition appendChecked (n : string) : M unit :=
  modify (set_allLibsChecked (λ c, c ++ [n])).

Definition checkLibrary (fuel : nat) (a : addr) : M bool :=
  lib <- gets (λ st, heap st a) ;;
  done <- gets (λ st, bool_decide (a ∈ checkDone st)) ;;
  if done then ret true
  else
    match sconsNode lib with
    | Some _ => ret true
    | None =>
        checked <- gets (λ st, bool_decide (name lib ∈ allLibsChecked st)) ;;
        if checked then
          setCheckDone a ;;;
          ret true
        else
          nc <- needCheck ;;
          if negb nc then
            setCheckDone a ;;;
            appendChecked (name lib) ;;;
            ret true
          else
            checkStatus <- probeLibrary fuel a ;;
            setCheckDone a ;;;
            appendChecked (name lib) ;;;
            ret checkStatus
    end.

(** A run of [checkLibrary] over the libraries that the targets of a build
    ask for, in the order they ask. *)
Definition checkLibraries (fuel : nat) (requests : list addr) : M (list bool) :=
  foldM (λ acc a, ok <- checkLibrary fuel a ;; ret (acc ++ [ok])) [] requests.

(** ** [appendLibsToEnv] and [createEnv] *)

Definition missingKey : string := "SconsProject_missingDependencies".
Definition librariesKey : string := "SconsProjectLibraries".

(** What [appendLibsToEnv] prints for a library that is disabled. *)
Definition withoutMessage (name_ libname : string) : string :=
  "Target " +:+ dquote +:+ name_ +:+ dquote +:+ " compiled without "
  +:+ dquote +:+ libname +:+ dquote +:+ " library.".

(** One turn of the checking loop of [appendLibsToEnv]; [libs_error] is
    the local list of the libraries that failed. *)
Definition checkOne (fuel : nat) (l : loc) (name_ : string)
    (libs_error_ : list addr) (entry : addr * nat) : M (list addr) :=
  let a := entry.1 in
  lib <- gets (λ st, heap st a) ;;
  e <- envGet l ;;
  if negb (enabled lib e) then
    log (EvWrite (withoutMessage name_ (name lib))) ;;;
    ret libs_error_
  else
    ok0 <- checkLibrary fuel a ;;
    log (EvCheckLibrary a ok0) ;;;
    ok1 <- callConfigure a l ;;
    ok2 <- (if ok1 then
              log (EvConfigureContext l) ;;;
              ok <- callCheck a l ;;
              log (EvFinish l) ;;;
              ret ok
            else ret true) ;;
    if ok0 && ok1 && ok2 then ret libs_error_
    else ret (libs_error_ ++ [a]).

(** The block of [appendLibsToEnv] that runs when [needConfigure()]. *)
Definition configureLibs (fuel : nat) (l : loc) (name_ : string)
    (allLibs : list (addr * nat)) : M unit :=
  libs_error_ <- foldM (checkOne fuel l name_) [] allLibs ;;
  e <- envGet l ;;
  when (bool_decide (e !! missingKey = None))
    (envUpdate l (<[missingKey := VList []]>)) ;;;
  e <- envGet l ;;
  match e !! missingKey with
  | Some (VList old) =>
      h <- gets heap ;;
      envUpdate l (<[missingKey :=
        VList (old ++ (VStr <$> ((λ a, name (h a)) <$> libs_error_)))]>)
  | _ => raise (AttributeError "extend")
  end ;;;
  forM_ libs_error_ recordError.

(** [env['SconsProjectLibraries'] += libs], or [= libs] when the key is new. *)
Definition recordLibraries (l : loc) (libs_ : list addr) : M unit :=
  e <- envGet l ;;
  match e !! librariesKey with
  | Some (VList old) =>
      envUpdate l (<[librariesKey := VList (old ++ (VLib <$> libs_))]>)
  | Some _ => raise (TypeError "+=")
  | None => envUpdate l (<[librariesKey := VLibs libs_]>)
  end.

(** The first part of [appendLibsToEnv]: the libraries are recorded and
    resolved, their options declared and their [initEnv] applied. *)
Definition initLibs (fuel : nat) (l : loc) (libs_ : list addr)
    : M (list (addr * nat)) :=
  writeColor "color_autoconf" ;;;
  recordLibraries l libs_ ;;;
  h <- gets heap ;;
  allLibs <- liftRec (resolvedLibs fuel h libs_) ;;
  forM_ allLibs (λ p,
    ok <- callInitOptions p.1 ;;
    when (negb ok) (recordError p.1)) ;;;
  o <- gets opts ;;
  envUpdate l (opts_Update o) ;;;
  applyOptionsOnEnv l ;;;
  forM_ allLibs (λ p, callInitEnv p.1 l) ;;;
  ret allLibs.

(** The last part of [appendLibsToEnv]. *)
Definition postconfigureLibs (l : loc) (allLibs : list (addr * nat)) : M unit :=
  forM_ allLibs (λ p, callPostconfigure p.1 l p.2) ;;;
  writeColor "color_clear".

Definition appendLibsToEnv (fuel : nat) (l : loc) (libs_ : list addr)
    (name_ : string) : M loc :=
  match libs_ with
  | [] => ret l
  | _ =>
      allLibs <- initLibs fuel l libs_ ;;
      nc <- needConfigure ;;
      when nc (configureLibs fuel l name_ allLibs) ;;;
      postconfigureLibs l allLibs ;;;
      ret l
  end.

Definition createEnv (fuel : nat) (libs_ : list addr) (name_ : string) : M loc :=
  self_env <- gets env ;;
  new_env <- Clone self_env ;;
  common <- gets commonLibs ;;
  let new_libs := foldl (λ acc lib, lib :: acc) libs_ common in
  appendLibsToEnv fuel new_env new_libs name_.

(** ** [declareTarget] *)

Definition declareTarget (l : loc) (target : string) (targetName : option string)
    : M unit :=
  e <- envGet l ;;
  let missingDeps := default (VList []) (e !! missingKey) in
  if truthy missingDeps then
    modify (set_removedFromDefaultTargets
              (<[default target (nonEmpty targetName) := missingDeps]>))
  else
    Alias "all" [target].

(** ** Target declarations *)

(** The arguments of the target declaring methods, by keyword. *)
Record TargetArgs := {
  target : string;
  targets : option (list string);
  sources : list string;
  precsrc : string;
  precinc : string;
  dirs : list string;
  libraries : list addr;
  execLibraries : list addr;
  includes : list string;
  env_arg : option loc;
  localEnvFlags : Flags;
  replaceLocalEnvFlags : Flags;
  externEnvFlags : Flags;
  globalEnvFlags : Flags;
  envFlags_arg : Flags;
  procEnvFlags : Flags;
  libDependencies : list addr;
  nodeDependencies : list Node;
  installDir : option string;
  installAs : option string;
  install : bool;
  headers : list string;
  localHeaders : list string;
  accept : list string;
  reject : list string;
  recursive : bool;
  checkDependencies : bool;
  shared : bool;
  public : bool;
  publicName : option string;
}.

(** The default values of the keywords. *)
Definition defaultArgs (target_ : string) : TargetArgs :=
  {| target := target_; targets := None; sources := []; precsrc := "";
     precinc := ""; dirs := []; libraries := []; execLibraries := [];
     includes := []; env_arg := None; localEnvFlags := [];
     replaceLocalEnvFlags := []; externEnvFlags := []; globalEnvFlags := [];
     envFlags_arg := []; procEnvFlags := []; libDependencies := [];
     nodeDependencies := []; installDir := None; installAs := None;
     install := true; headers := []; localHeaders := [];
     accept := ["*.cpp"; "*.cc"; "*.c"];
     reject := ["@"; "_qrc"; "_ui"; ".moc.cpp"];
     recursive := true; checkDependencies := true; shared := false;
     public := true; publicName := None |}.

(** [publicName if publicName else target] *)
Definition publicOr (publicName_ : option string) (target_ : string) : string :=
  default target_ (nonEmpty publicName_).

(** [appendDict(dst, src)] on dicts given as association lists. *)
Definition appendDict (dst src : Flags) : Flags :=
  foldl (λ dst kv,
    let '(k, v) := kv in
    match list_find (λ e, e.1 = k) dst with
    | Some (i, (_, old)) =>
        let vlist := match v with VList l => l | _ => [v] end in
        let new := match old with
                   | VList l => VList (l ++ vlist)
                   | _ => VList (old :: vlist)
                   end in
        <[i := (k, new)]> dst
    | None => dst ++ [(k, v)]
    end) dst src.

(** [env.Replace] applied to a dict of keywords. *)
Definition env_ReplaceAll (flags : Flags) (e : Env) : Env :=
  foldl (λ e kv, <[kv.1 := kv.2]> e) e flags.

(** A builder call on the environment [l], which SCons accepts: a target
    that SCons refuses, as one declared twice in different ways, is not
    described. *)
Definition build (kind : string) (l : loc) (target_ : string)
    (sources_ : list string) : M Node :=
  e <- envGet l ;;
  log (EvBuilder kind l target_ sources_) ;;;
  ret (scons_build kind e target_ sources_).

(** [env.Install(dir, node)] or [env.InstallAs(path, node)] *)
Definition installNode (l : loc) (dest : string) (node : Node) : M Node :=
  e <- envGet l ;;
  log (EvInstall l dest node) ;;;
  ret (scons_install e dest node).

(** The object a new checker is stored at. *)
Definition newLib (lib : LibObj) : M addr :=
  a <- gets heap_next ;;
  modify (set_heap (λ h x, if Nat.eqb x a then lib else h x) (S a)) ;;;
  ret a.

(** [v.capitalize()]: a method of strings only. *)
Definition capitalize (v : Value) : M unit :=
  match v with
  | VStr _ => ret tt
  | _ => raise (AttributeError "capitalize")
  end.

(** [self.convertSconsPathToStr]: the project has no attribute of that
    name; the function so called is local to [getDirs], where it follows
    the [return]. *)
Definition convertSconsPathToStr : M Value :=
  raise (AttributeError "convertSconsPathToStr").

(** [MSVSProject], which only acts on Windows. *)
Definition MSVSProject (targetName : string) (buildTarget : Node)
    (sources_ : list string) (l : loc) : M unit :=
  w <- gets windows ;;
  when w (
    l_env <- Clone l ;;
    mode <- envItem l_env "mode" ;;
    capitalize mode ;;;
    suffix <- envItem l_env "MSVSPROJECTSUFFIX" ;;
    visualProjectFile <- match suffix with
                         | VStr sfx => ret (targetName +:+ sfx)
                         | _ => raise (TypeError "+")
                         end ;;
    ext <- envItem l_env "EXTERNCPPPATH" ;;
    envUpdate l_env (env_AppendUnique "CPPPATH" ext) ;;;
    cpppath <- convertSconsPathToStr ;;
    envUpdate l_env (<["CPPPATH" := cpppath]>) ;;;
    self_env <- gets env ;;
    variant <- envItem self_env "mode" ;;
    capitalize variant ;;;
    visualProject <- build "MSVSProject" l_env
      (fs_realAbsoluteCwd visualProjectFile) sources_ ;;
    log (EvMSVSProject targetName) ;;;
    modify (set_allVisualProjects (λ ps, ps ++ [visualProject])) ;;;
    Alias ("visualProject-" +:+ targetName) [visualProject]).

(** The source files of a target: [sources] and the files found in [dirs]. *)
Definition sourcesFiles (args : TargetArgs) : list string :=
  sources args ++
  match dirs args with
  | [] => []
  | ds => fs_scanFiles ds (accept args) (reject args) true
  end.

Definition noSources (target_ : string) : Exn :=
  RuntimeError ("No source files for the target: " +:+ target_).

(** The environment of a library target: a clone of [env] completed with
    [libs_], or a new one.  With [extend] the local list of libraries
    receives those recorded in the environment (which is the same list
    object when [appendLibsToEnv] stored it there). *)
Definition targetEnv (fuel : nat) (args : TargetArgs) (libs_ : list addr)
    (name_ : string) (extend : bool) : M (loc * list addr) :=
  match env_arg args with
  | Some env_ =>
      localEnv <- Clone env_ ;;
      e0 <- envGet localEnv ;;
      _ <- appendLibsToEnv fuel localEnv libs_ "" ;;
      if extend then
        e <- envGet localEnv ;;
        match e !! librariesKey with
        | None => ret (localEnv, libs_)
        | Some v =>
            match asLibs v with
            | None => raise (TypeError "+=")
            | Some recorded =>
                when (bool_decide (e0 !! librariesKey = None))
                  (envUpdate localEnv
                     (<[librariesKey := VLibs (recorded ++ recorded)]>)) ;;;
                ret (localEnv, libs_ ++ recorded)
            end
        end
      else ret (localEnv, libs_)
  | None =>
      localEnv <- createEnv fuel libs_ name_ ;;
      ret (localEnv, libs_)
  end.

(** The keyword arguments applied to the local environment. *)
Definition applyArgs (args : TargetArgs) (localEnv : loc) : M unit :=
  envUpdate localEnv
    (env_AppendUnique "CPPPATH" (VStrs (fs_prepareIncludes (includes args)))) ;;;
  when (bool_decide (localEnvFlags args ≠ []))
    (envUpdate localEnv (env_AppendUniqueAll (localEnvFlags args))) ;;;
  when (bool_decide (replaceLocalEnvFlags args ≠ []))
    (envUpdate localEnv (env_ReplaceAll (replaceLocalEnvFlags args))) ;;;
  when (bool_decide (globalEnvFlags args ≠ []))
    (envUpdate localEnv (env_AppendUniqueAll (globalEnvFlags args))).

(** [sourcesFiles + localEnv['ADDSRC']] when the key is there. *)
Definition addSourcesOf (localEnv : loc) (files : list string) : M (list string) :=
  e <- envGet localEnv ;;
  match e !! "ADDSRC" with
  | None => ret files
  | Some v =>
      match asStrs v with
      | Some more => ret (files ++ more)
      | None => raise (TypeError "+")
      end
  end.

(** Precompiled headers, on Windows. *)
Definition precompiledHeaders (args : TargetArgs) (localEnv : loc) : M unit :=
  w <- gets windows ;;
  when (negb (String.eqb (precinc args) "") && w) (
    let stop := fs_realAbsoluteCwd "" +:+ "/" +:+ precinc args in
    envUpdate localEnv (<["PCHSTOP" := VStr stop]>) ;;;
    envUpdate localEnv (env_Append "CPPFLAGS" (VStrs ["/FI" +:+ stop; "/Zm135"])) ;;;
    pch <- build "PCH" localEnv (precsrc args) [] ;;
    envUpdate localEnv (<["PCH" := VStr pch]>)).

(** [localEnv.Depends(dst, [l.sconsNode for l in libs if l.sconsNode])] *)
Definition dependsOnInternalLibs (localEnv : loc) (dst : Node) (libs_ : list addr)
    : M unit :=
  h <- gets heap ;;
  let internalLibsDepends := omap (λ a, sconsNode (h a)) libs_ in
  when (bool_decide (internalLibsDepends ≠ []))
    (log (EvDepends localEnv dst internalLibsDepends)).

(** The installation of a library target. *)
Definition installLib (args : TargetArgs) (localEnv : loc) (dstLib : Node) : M Node :=
  if install args then
    match nonEmpty (installDir args), nonEmpty (installAs args) with
    | Some d, _ => installNode localEnv d dstLib
    | None, Some p => installNode localEnv p dstLib
    | None, None => installNode localEnv dir_output_lib dstLib
    end
  else ret dstLib.

(** The Visual Studio project of a target, on Windows. *)
Definition visualProjectOf (args : TargetArgs) (localEnv : loc) (node : Node)
    (files : list string) : M unit :=
  w <- gets windows ;;
  when w (MSVSProject (target args) node files localEnv).

(** The checker that exposes a library target, and its registration.  The
    dict [externEnvFlags] is read by value: the checker is given the flags
    that the dict holds once [appendDict] has added [globalEnvFlags] to
    it. *)
Definition exposeLibrary (args : TargetArgs) (libs_ : list addr) (node : Node)
    : M addr :=
  let envFlags := appendDict (externEnvFlags args) (globalEnvFlags args) in
  dstLibChecker <- newLib (InternalLibChecker (target args) ""
    (fs_prepareIncludes (includes args)) envFlags
    (Some <$> (libs_ ++ libDependencies args)) (Some node) []) ;;
  when (public args)
    (modify (set_publicLibs
       (<[publicOr (publicName args) (target args) := dstLibChecker]>))) ;;;
  ret dstLibChecker.

Definition StaticLibrary (fuel : nat) (args : TargetArgs) : M Node :=
  let files := sourcesFiles args in
  match files with
  | [] => raise (noSources (target args))
  | _ =>
      te <- targetEnv fuel args (libraries args) (target args) false ;;
      let localEnv := te.1 in
      applyArgs args localEnv ;;;
      when (shared args) (
        envUpdate localEnv (env_AppendUnique "CCFLAGS" CC_sharedobject) ;;;
        envUpdate localEnv (<["OBJSUFFIX" := VStr ".os"]>) ;;;
        e <- envGet localEnv ;;
        match e !! "SHCCFLAGS" with
        | Some v => envUpdate localEnv (env_AppendUnique "CCFLAGS" v)
        | None => ret tt
        end ;;;
        e <- envGet localEnv ;;
        match e !! "SHLINKFLAGS" with
        | Some v => envUpdate localEnv (env_AppendUnique "LINKFLAGS" v)
        | None => ret tt
        end) ;;;
      files <- addSourcesOf localEnv files ;;
      let files := fs_absoluteCwd <$> files in
      precompiledHeaders args localEnv ;;;
      dstLib <- build "StaticLibrary" localEnv (target args) files ;;
      dependsOnInternalLibs localEnv dstLib (libraries args) ;;;
      dstLibInstall <- installLib args localEnv dstLib ;;
      Alias (target args) [dstLibInstall] ;;;
      declareTarget localEnv (target args) None ;;;
      visualProjectOf args localEnv dstLibInstall files ;;;
      dstLibChecker <- exposeLibrary args (libraries args) dstLibInstall ;;
      modify (set_allTargets
        (<[publicOr (publicName args) (target args) :=
             (Some dstLibInstall, Some dstLibChecker)]>)) ;;;
      ret dstLibInstall
  end.

Definition SharedLibrary (fuel : nat) (args : TargetArgs) : M Node :=
  let files := sourcesFiles args in
  match files with
  | [] => raise (noSources (target args))
  | _ =>
      te <- targetEnv fuel args (libraries args) (target args) true ;;
      let '(localEnv, localLibraries) := te in
      applyArgs args localEnv ;;;
      files <- addSourcesOf localEnv files ;;
      let files := fs_absoluteCwd <$> files in
      precompiledHeaders args localEnv ;;;
      envUpdate localEnv (<["PDB" := VStr (target args +:+ ".pdb")]>) ;;;
      dstLib <- build "SharedLibrary" localEnv (target args) files ;;
      dependsOnInternalLibs localEnv dstLib localLibraries ;;;
      dstLibInstall <- installLib args localEnv dstLib ;;
      Alias (target args) [dstLibInstall] ;;;
      declareTarget localEnv (target args) None ;;;
      visualProjectOf args localEnv dstLibInstall files ;;;
      dstLibChecker <- exposeLibrary args localLibraries dstLibInstall ;;
      match nonEmpty (publicName args) with
      | Some n => Alias n [dstLibInstall]
      | None => ret tt
      end ;;;
      modify (set_allTargets
        (<[publicOr (publicName args) (target args) :=
             (Some dstLibInstall, Some dstLibChecker)]>)) ;;;
      ret dstLibInstall
  end.

Definition Program (fuel : nat) (args : TargetArgs) : M Node :=
  let files := sourcesFiles args in
  match files with
  | [] => raise (noSources (target args))
  | _ =>
      te <- targetEnv fuel args (libraries args) (target args) true ;;
      let localEnv := te.1 in
      applyArgs args localEnv ;;;
      let files := fs_absoluteCwd <$> files in
      precompiledHeaders args localEnv ;;;
      dst <- build "Program" localEnv (target args) files ;;
      dstInstall <- (if install args then
                       installNode localEnv
                         (default dir_output_bin (nonEmpty (installDir args))) dst
                     else ret dst) ;;
      Alias (target args) [dstInstall] ;;;
      declareTarget localEnv (target args) None ;;;
      visualProjectOf args localEnv dstInstall files ;;;
      modify (set_allTargets (<[target args := (Some dstInstall, None)]>)) ;;;
      ret dstInstall
  end.

(** [str(l_target)] is what the tests print of their target. *)
Definition testTarget (args : TargetArgs) : list string :=
  match targets args with
  | Some t => t
  | None => fs_getDirs
  end.

Definition UnitTest (fuel : nat) (args : TargetArgs) : M Node :=
  let l_target := testTarget args in
  let l_sources := sourcesFiles args in
  match l_sources with
  | [] => raise (noSources (py_str_list l_target))
  | _ =>
      te <- targetEnv fuel args (libraries args) (py_join "-" l_target) true ;;
      let localEnv := te.1 in
      localExecEnv <- Clone localEnv ;;
      _ <- appendLibsToEnv fuel localExecEnv (execLibraries args) "" ;;
      applyArgs args localEnv ;;;
      dst <- build "UnitTest" localEnv (py_join " " l_target) l_sources ;;
      when (bool_decide (nodeDependencies args ≠ []))
        (log (EvDepends localEnv dst (nodeDependencies args))) ;;;
      h <- gets heap ;;
      when (bool_decide (execLibraries args ≠ []))
        (log (EvDepends localEnv dst
                (concat ((λ i, libs (h i)) <$> execLibraries args)))) ;;;
      ret dst
  end.

(** ** [ScriptTests] *)

Definition sconsDepPattern : string := "# scons:".

Definition missingDepsMessage (scriptFilename : string) (err allDeps : list string)
    : string :=
  "Some dependencies of the scripttest " +:+ dquote +:+ scriptFilename +:+ dquote
  +:+ " doesn't exist." +:+ nl +:+ "Missing deps:" +:+ nl +:+ "    "
  +:+ py_str_list err +:+ nl +:+ "Existing dependencies are:" +:+ nl +:+ "    "
  +:+ py_str_list allDeps +:+ nl.

(** What the first line of a script asks for: the targets it depends on,
    or to leave the script out ([continue]). *)
Inductive ScriptDeps :=
| SkipScript
| UseTargets (ts : list (option Node * option addr)).

(** [file(name, 'r').readline()].  The name [file] is looked up first, and
    Python 3 has no builtin of that name. *)
Definition file_readline (name_ : string) : M string :=
  (raise (NameError "file") : M unit) ;;;
  ret (fs_readline name_).

(** [allDeps = d.keys()] followed by [allDeps.sort()]: the keys of a dict
    are a view, which has no method [sort]. *)
Definition keys_sort {A} (d : gmap string A) : M (list string) :=
  (raise (AttributeError "sort") : M unit) ;;;
  ret (py_sorted ((map_to_list d).*1)).

Definition scriptDependencies (args : TargetArgs) (s : string) : M ScriptDeps :=
  if checkDependencies args then
    let scriptFilename := fs_realAbsoluteCwd s in
    firstline <- file_readline scriptFilename ;;
    if String.prefix sconsDepPattern firstline then
      let dependenciesStr :=
        py_split (py_drop (String.length sconsDepPattern) firstline) "" in
      all <- gets allTargets ;;
      if decide (dependenciesStr = ["all"]) then
        ret (UseTargets ((map_to_list all).*2))
      else
        let err := filter (λ d, all !! d = None) dependenciesStr in
        match err with
        | [] => ret (UseTargets (omap (λ d, all !! d) dependenciesStr))
        | _ =>
            self_env <- gets env ;;
            mode <- envItem self_env "mode" ;;
            if isStr mode "production" then ret SkipScript
            else
              allDeps <- keys_sort all ;;
              raise (ValueError (missingDepsMessage scriptFilename err allDeps))
        end
    else ret (UseTargets [])
  else ret (UseTargets []).

(** [d.iteritems()]: a dict of Python 3 has no such method. *)
Definition iteritems (d : Flags) : M Flags :=
  (raise (AttributeError "iteritems") : M unit) ;;;
  ret d.

(** The body of the loop of [ScriptTests] once the dependencies of the
    script are known.  [dst] is the local variable of that name: it is
    bound only by a turn that has [procEnvFlags]. *)
Definition scriptTest (fuel : nat) (args : TargetArgs) (l_target : list string)
    (s : string) (ts : list (option Node * option addr))
    (allDst : list Node) (dst : option Node) : M (list Node * option Node) :=
  let depsFromFile := omap fst ts in
  let libsFromFile := omap snd ts in
  let localLibraries := libraries args ++ libsFromFile in
  localEnv <-
    match env_arg args with
    | Some env_ =>
        localEnv <- Clone env_ ;;
        e <- envGet localEnv ;;
        more <- match e !! librariesKey with
                | None => ret []
                | Some v => match asLibs v with
                            | Some recorded => ret recorded
                            | None => raise (TypeError "+=")
                            end
                end ;;
        appendLibsToEnv fuel localEnv (localLibraries ++ more) ""
    | None =>
        createEnv fuel localLibraries (py_join "-" ("scripttest" :: l_target))
    end ;;
  when (bool_decide (envFlags_arg args ≠ []))
    (envUpdate localEnv (env_AppendUniqueAll (envFlags_arg args))) ;;;
  built <-
    match procEnvFlags args with
    | [] => ret (allDst, dst)
    | flags =>
        items <- iteritems flags ;;
        forM_ items (λ kv, envUpdate localEnv (env_PrependENVPath kv.1 kv.2)) ;;;
        d <- build "ScriptTest" localEnv (py_join " " l_target) [s] ;;
        ret (allDst ++ [d], Some d)
    end ;;
  let '(allDst, dst) := built in
  let depends (deps : list Node) : M unit :=
    match dst with
    | Some d => log (EvDepends localEnv d deps)
    | None => raise (UnboundLocalError "dst")
    end in
  when (bool_decide (depsFromFile ≠ [])) (depends depsFromFile) ;;;
  when (bool_decide (nodeDependencies args ≠ [])) (depends (nodeDependencies args)) ;;;
  h <- gets heap ;;
  when (bool_decide (libraries args ≠ []))
    (depends (concat ((λ i, libs (h i)) <$> libraries args))) ;;;
  ret (allDst, dst).

(** The loop of [ScriptTests] over the scripts. *)
Fixpoint ScriptTests_loop (fuel : nat) (args : TargetArgs) (l_target : list string)
    (l_sources : list string) (allDst : list Node) (dst : option Node)
    : M (list Node) :=
  match l_sources with
  | [] => ret allDst
  | s :: rest =>
      deps <- scriptDependencies args s ;;
      match deps with
      | SkipScript => ScriptTests_loop fuel args l_target rest allDst dst
      | UseTargets ts =>
          r <- scriptTest fuel args l_target s ts allDst dst ;;
          ScriptTests_loop fuel args l_target rest r.1 r.2
      end
  end.

(** The scripts of [ScriptTests]: [sources] and the files found in [dirs]. *)
Definition scriptFiles (args : TargetArgs) : list string :=
  sources args ++
  match dirs args with
  | [] => []
  | ds => fs_scanFiles ds (accept args) (reject args) (recursive args)
  end.

(** What the first line of the script [s] declares after [# scons:]. *)
Definition declaredDependencies (s : string) : list string :=
  py_split (py_drop (String.length sconsDepPattern)
              (fs_readline (fs_realAbsoluteCwd s))) "".

Definition ScriptTests (fuel : nat) (args : TargetArgs) : M (list Node) :=
  let l_target := testTarget args in
  let l_sources := scriptFiles args in
  match l_sources with
  | [] => raise (noSources (py_str_list l_target))
  | _ => ScriptTests_loop fuel args l_target l_sources [] None
  end.

(** ** [end] *)

(** One entry [v] of [self.env['aliases']]: [env.Alias(v[0], v[1:])], for
    a list or a string [v]; [Alias] leaves out the sources that are
    empty. *)
Definition userAlias (v : Value) : M unit :=
  match v with
  | VList [] | VStr EmptyString => raise IndexError
  | VList (VStr n :: ts) =>
      match asStrs (VList ts) with
      | Some ts' => Alias n (filter (λ t, t ≠ "") ts')
      | None => raise (TypeError "Alias")
      end
  | VStr (String c rest) =>
      Alias (String c EmptyString) (filter (λ t, t ≠ "") [rest])
  | _ => raise (TypeError "Alias")
  end.

Definition configureErrorsMessage : list string :=
  [""; ""; "";
   "    Errors during the configure. Some external libraries are missing.";
   "    See " +:+ dquote +:+ "config.log" +:+ dquote +:+ " file to check the errors.";
   "";
   "    You could ignore these errors and build the possible targets.";
   "        >>> scons ignore_configure_errors=1";
   ""; ""].

(** [end], the last call of the SConstruct. *)
Definition end_ : M unit :=
  self_env <- gets env ;;
  w <- gets windows ;;
  when w (
    suffix <- envItem self_env "MSVSSOLUTIONSUFFIX" ;;
    match suffix with
    | VStr sfx =>
        projects <- gets allVisualProjects ;;
        visualSolution <- build "MSVSSolution" self_env ("project" +:+ sfx) projects ;;
        log (EvDepends self_env visualSolution projects) ;;;
        Alias "visualSolution" [visualSolution]
    | _ => raise (TypeError "+")
    end) ;;;
  printInstalledFilesCmd <- build "Command" self_env "always" [""] ;;
  Alias "targets" [printInstalledFilesCmd] ;;;
  errors <- gets libs_error ;;
  when (bool_decide (errors ≠ [])) (
    writeColor "color_error" ;;;
    h <- gets heap ;;
    forM_ errors (λ a,
      log (EvWrite ("Error in '" +:+ name (h a) +:+ "' library :")) ;;;
      when (negb (String.eqb (error (h a)) "")) (log (EvWrite (error (h a))))) ;;;
    writeColor "color_clear" ;;;
    ignore <- envItem self_env "ignore_configure_errors" ;;
    when (negb (truthy ignore)) (
      forM_ configureErrorsMessage (λ line, log (EvWrite line)) ;;;
      raise (SystemExit 1)) ;;;
    writeColor "color_clear") ;;;
  als <- envItem self_env "aliases" ;;
  match als with
  | VList vs => forM_ vs userAlias
  | VStr str => forM_ (VStr <$> py_chars str) userAlias
  | _ => raise (TypeError "for")
  end ;;;
  Alias "test" ["unittest"; "scripttest"] ;;;
  default_ <- envItem self_env "default" ;;
  match default_ with
  | VStr d => log (EvDefault (VStrs (py_split d "")))
  | v => log (EvDefault v)
  end ;;;
  log EvAtexit.

(** ** What a trace tells *)

(** [checkLibrary] opens one configure context per probe. *)
Definition isConfigureContext (ev : Event) : bool :=
  match ev with EvConfigureContext _ => true | _ => false end.

Definition probeCount (tr : list Event) : nat :=
  length (filter (λ ev, isConfigureContext ev = true) tr).

(** The library [a] failed while the environment [l] was completed: its
    verification, its [configure] on [l] or its [check] on [l] said no. *)
Definition failureOf (l : loc) (a : addr) (ev : Event) : bool :=
  match ev with
  | EvCheckLibrary a' false => Nat.eqb a' a
  | EvConfigure a' l' false => Nat.eqb a' a && Nat.eqb l' l
  | EvCheck a' l' false => Nat.eqb a' a && Nat.eqb l' l
  | _ => false
  end.

Definition failedIn (tr : list Event) (l : loc) (a : addr) : bool :=
  existsb (failureOf l a) tr.

(** The library [a] had its turn: it was reported as disabled, or it was
    configured on [l] and, once configured, checked on [l]. *)
Definition processedIn (tr : list Event) (l : loc) (name_ : string) (h : Heap)
    (a : addr) : Prop :=
  EvWrite (withoutMessage name_ (name (h a))) ∈ tr ∨
  ∃ ok, EvConfigure a l ok ∈ tr ∧ (ok = true → ∃ ok', EvCheck a l ok' ∈ tr).

(** ** Relations between the states of a run *)

(** What a step of a run leaves as it is: the checker objects, [self.env],
    the options; the environments below [n] up to [U]; the events it adds
    satisfy [P]; with [q] the memo of [checkLibrary] is kept too. *)
Record step (n : nat) (U : loc → Env → Env → Prop) (P : Event → Prop) (q : bool)
    (st st' : Project) : Prop := {
  step_heap : heap st' = heap st;
  step_env : env st' = env st;
  step_clean : opt_clean st' = opt_clean st;
  step_help : opt_help st' = opt_help st;
  step_windows : windows st' = windows st;
  step_commonLibs : commonLibs st' = commonLibs st;
  step_length : length (envs st) ≤ length (envs st');
  step_envs : ∀ l, l < n → U l (env_at st l) (env_at st' l);
  step_trace : ∃ tr, trace st' = trace st ++ tr ∧ Forall P tr;
  step_cache : q = true →
    checkDone st' = checkDone st ∧ allLibsChecked st' = allLibsChecked st;
}.

(** The states a step starts from: the heap is [h0] and the environments
    below [n] exist. *)
Definition inv (h0 : Heap) (n : nat) (st : Project) : Prop :=
  heap st = h0 ∧ n ≤ length (envs st).

(** A computation that, from a state of [I], relates the states by [R]
    and returns values of [φ]. *)
Definition respects (I : Project → Prop) (R : Project → Project → Prop)
    {A} (c : M A) (φ : A → Prop) : Prop :=
  ∀ st o st', I st → c st = (o, st') → R st st' ∧ ∀ a, o = Return a → φ a.

(** The events of a probe on an environment created at or after [n]. *)
Definition probeEvent (n : nat) (ev : Event) : Prop :=
  match ev with
  | EvClone _ d => n ≤ d
  | EvInitOptions _ _ => True
  | EvInitEnv _ l | EvConfigure _ l _ | EvConfigureContext l
  | EvCheck _ l _ | EvFinish l => n ≤ l
  | _ => False
  end.

(** In a raw list every dependency of an entry occurs before the entry. *)
Definition rawLeafFirst (h : Heap) (L : list (addr * nat)) : Prop :=
  ∀ i a level d, L !! i = Some (a, level) → Some d ∈ dependencies (h a) →
    ∃ j level', j < i ∧ L !! j = Some (d, level').

(** A library that [checkLibrary] does not trust: it has no [sconsNode]. *)
Definition external (h : Heap) (a : addr) : bool :=
  match sconsNode (h a) with
  | Some _ => false
  | None => true
  end.

(** The names that a run over [requests] adds to [allLibsChecked] when it
    starts with [checked]. *)
Fixpoint newNames (h : Heap) (checked : list string) (requests : list addr)
    : list string :=
  match requests with
  | [] => []
  | a :: rest =>
      if external h a && bool_decide (name (h a) ∉ checked)
      then name (h a) :: newNames h (checked ++ [name (h a)]) rest
      else newNames h checked rest
  end.

(** No event of the kind counted by [probeCount]. *)
Definition notContext (ev : Event) : Prop := isConfigureContext ev = false.

(** The names that a script declares and that are not registered. *)
Definition undeclared (st : Project) (s : string) : list string :=
  filter (λ d, allTargets st !! d = None) (declaredDependencies s).

(** [needCheck()] holds: [self.env['check_libs']] is there and true. *)
Definition checkEnabled (st : Project) : Prop :=
  ∃ v, env_at st (env st) !! "check_libs" = Some v ∧ truthy v = true.

(** The states of a run of [checkLibrary] over the heap [h0], [self.env]
    lying below [n]: checking is enabled and the name of every object
    marked [checkDone] is in [allLibsChecked]. *)
Record running (h0 : Heap) (n : nat) (st : Project) : Prop := {
  run_heap : heap st = h0;
  run_base : env st < n;
  run_length : n ≤ length (envs st);
  run_enabled : checkEnabled st;
  run_memo : ∀ a, a ∈ checkDone st → name (h0 a) ∈ allLibsChecked st;
}.

(** [f] keeps the value of the key [k]. *)
Definition keepsKey (k : string) (f : Env → Env) : Prop :=
  ∀ e, f e !! k = e !! k.

(** No collaborator touches the key [SconsProject_missingDependencies]:
    neither the option registry, nor [PrependENVPath], nor a method of a
    library of [allLibs]. *)
Record discreet (h : Heap) (allLibs : list (addr * nat)) : Prop := {
  discreet_opts : ∀ o, keepsKey missingKey (opts_Update o);
  discreet_path : ∀ k v, keepsKey missingKey (env_PrependENVPath k v);
  discreet_initEnv : ∀ p, p ∈ allLibs → keepsKey missingKey (initEnv (h p.1));
  discreet_configure :
    ∀ p, p ∈ allLibs → keepsKey missingKey (λ e, (configure (h p.1) e).1);
  discreet_check :
    ∀ p, p ∈ allLibs → keepsKey missingKey (λ e, (check (h p.1) e).1);
  discreet_postconfigure :
    ∀ p level, p ∈ allLibs →
      keepsKey missingKey (λ e, postconfigure (h p.1) e level);
}.

(** The value of [SconsProject_missingDependencies] in [l] when it is a
    list; the empty list when the key is not there. *)
Definition missingOf (st : Project) (l : loc) : list Value :=
  match env_at st l !! missingKey with
  | Some (VList old) => old
  | _ => []
  end.

(** No failure of a library on [l] is told by the event. *)
Definition silent (l : loc) (ev : Event) : Prop := ∀ a, failureOf l a ev = false.

(** Environments that agree on [SconsProject_missingDependencies]. *)
Definition sameMissing (_ : loc) (e e' : Env) : Prop :=
  e' !! missingKey = e !! missingKey.

(** What the first and last parts of [appendLibsToEnv] do to [l] is
    allowed there: [l] is new, or [U] allows every update. *)
Definition permits (h0 : Heap) (n : nat) (U : loc → Env → Env → Prop) (l : loc)
    (fuel : nat) (libs_ : list addr) : Prop :=
  n ≤ l ∨
  ((∀ v e, U l e (<[librariesKey := v]> e)) ∧
   (∀ o e, U l e (opts_Update o e)) ∧
   (∀ k v e, U l e (env_PrependENVPath k v e)) ∧
   (∀ c e, c ∈ color_keys → U l e (<[c := VStr ""]> e)) ∧
   (∀ allLibs p e, resolvedLibs fuel h0 libs_ = Some allLibs → p ∈ allLibs →
      U l e (initEnv (h0 p.1) e) ∧ ∀ level, U l e (postconfigure (h0 p.1) e level))).

(** A computation that, when it returns, has opened [k] configure
    contexts and kept the environments below [n] and the memo. *)
Definition counts (h0 : Heap) (n : nat) (k : nat) {A} (c : M A) (φ : A → Prop)
    : Prop :=
  ∀ st a st', inv h0 n st → c st = (Return a, st') →
    step n (λ _, eq) (λ _, True) true st st' ∧
    probeCount (trace st') = probeCount (trace st) + k ∧ φ a.

(** The events of one turn of the checking loop on [l]. *)
Definition turnEvents (l : loc) (a : addr) (ok0 ok1 ok2 : bool) : list Event :=
  EvCheckLibrary a ok0 :: EvConfigure a l ok1 ::
  (if ok1 then [EvConfigureContext l; EvCheck a l ok2; EvFinish l] else []).

(** The library [a] was configured on [l]. *)
Definition configuredOn (tr : list Event) (l : loc) (a : addr) : bool :=
  existsb (λ ev, match ev with
                 | EvConfigure a' l' _ => Nat.eqb a' a && Nat.eqb l' l
                 | _ => false
                 end) tr.

End Model.

(** * Files and directories *)

(** ** More of Python strings *)

(** [s.rfind(pat) != -1]: [pat] occurs in [s]. *)
Fixpoint py_contains (pat s : string) : bool :=
  String.prefix pat s ||
  match s with
  | EmptyString => false
  | String _ rest => py_contains pat rest
  end.

(** [s.endswith(suffix)] *)
Definition py_endswith (suffix s : string) : bool :=
  Nat.leb (String.length suffix) (String.length s) &&
  String.eqb (py_drop (String.length s - String.length suffix) s) suffix.

(** [s.replace(old, new, 1)] *)
Fixpoint py_replace1 (old new s : string) : string :=
  if String.prefix old s then new +:+ py_drop (String.length old) s
  else match s with
       | EmptyString => EmptyString
       | String c rest => String c (py_replace1 old new rest)
       end.

(** [s.replace(old, new)] for a non-empty [old]: [skip] characters of an
    occurrence that was replaced are still to be passed. *)
Fixpoint py_replace_from (old new : string) (skip : nat) (s : string) : string :=
  match s with
  | EmptyString => EmptyString
  | String c rest =>
      match skip with
      | S k => py_replace_from old new k rest
      | 0 =>
          if String.prefix old s
          then new +:+ py_replace_from old new (String.length old - 1) rest
          else String c (py_replace_from old new 0 rest)
      end
  end.

(** [new] after every character of [s]. *)
Fixpoint py_after_each (new s : string) : string :=
  match s with
  | EmptyString => EmptyString
  | String c rest => String c (new +:+ py_after_each new rest)
  end.

(** [s.replace(old, new)] *)
Definition py_replace (old new s : string) : string :=
  if String.eqb old "" then new +:+ py_after_each new s
  else py_replace_from old new 0 s.

(** ** [os.path] on a POSIX system *)

Definition posix_isabs (p : string) : bool := String.prefix "/" p.

(** [os.path.join(a, b)] *)
Definition posix_join (a b : string) : string :=
  if String.prefix "/" b then b
  else if String.eqb a "" || py_endswith "/" a then a +:+ b
  else a +:+ "/" +:+ b.

(** ** [unique] *)

Section Unique.
Context `{Countable A}.

(** The comprehension of [unique]: [seen] holds the elements met so far. *)
Fixpoint unique_loop (seen : gset A) (seq : list A) : list A :=
  match seq with
  | [] => []
  | x :: rest =>
      if decide (x ∈ seen) then unique_loop seen rest
      else x :: unique_loop ({[x]} ∪ seen) rest
  end.

Definition unique (seq : list A) : list A := unique_loop ∅ seq.

End Unique.


(** ** The layout of a project *)

(** A path given to the project: [None], a string, a directory node of
    SCons (known by the absolute path of its source node) or a list. *)
Inductive PathVal :=
| PathNone
| PathStr (s : string)
| PathDir (srcnode_abspath : string)
| PathList (l : list PathVal).

(** Where the project and the SConscript being read are, and what the file
    system holds. *)
Class Layout := {
  (** [self.dir] and [self.dir_output_build] *)
  dir : string;
  dir_output_build : string;
  (** [SCons.Script.Dir('.').srcnode().abspath] and
      [SCons.Script.Dir('.').abspath] *)
  cdir_srcnode : string;
  cdir : string;
  (** [os.getcwd()] *)
  getcwd : string;
  (** [self.getCwdInProject()] *)
  getCwdInProject : string;
  (** [SCons.Script.Glob(pattern, strings=True)] *)
  Glob : string → list string;
  (** the directories that [os.walk(root, followlinks=True)] goes through *)
  walk : string → list string;
  (** [os.path.dirname] *)
  dirname : string → string;
}.

Section Files.
Context `{Layout}.

(** [getRealAbsoluteCwd] of a string. *)
Definition realAbsoluteCwd (relativePath : string) : string :=
  if String.eqb relativePath "" then cdir_srcnode
  else if String.prefix "#" relativePath then posix_join dir (py_drop 1 relativePath)
  else if posix_isabs relativePath then
    if String.prefix dir_output_build relativePath
    then posix_join dir (py_drop (String.length dir_output_build + 1) relativePath)
    else relativePath
  else posix_join cdir_srcnode relativePath.

Fixpoint getRealAbsoluteCwd (relativePath : PathVal) : PathVal :=
  match relativePath with
  | PathList l => PathList (getRealAbsoluteCwd <$> l)
  | PathNone => PathStr cdir_srcnode
  | PathDir a => PathStr a
  | PathStr rp => PathStr (realAbsoluteCwd rp)
  end.

(** [getAllAbsoluteCwd]: the path in the source tree and in the build
    tree.  A directory node has no [startswith]: [None] is that error. *)
Fixpoint getAllAbsoluteCwd (relativePath : PathVal) : option (list string) :=
  match relativePath with
  | PathList l =>
      (fix extend (l : list PathVal) : option (list string) :=
         match l with
         | [] => Some []
         | rp :: rest =>
             match getAllAbsoluteCwd rp with
             | None => None
             | Some ds => (ds ++.) <$> extend rest
             end
         end) l
  | PathNone => Some [cdir_srcnode; cdir]
  | PathDir _ => None
  | PathStr rp =>
      Some (
        if String.eqb rp "" then [cdir_srcnode; cdir]
        else if String.prefix "#" rp then
          [posix_join dir (py_drop 1 rp); posix_join dir_output_build (py_drop 1 rp)]
        else if posix_isabs rp then
          if String.prefix dir_output_build rp then
            [rp; posix_join dir (py_drop (String.length dir_output_build + 1) rp)]
          else if String.prefix dir rp then
            [rp; posix_join dir_output_build (py_drop (String.length dir + 1) rp)]
          else [rp]
        else [posix_join cdir_srcnode rp; posix_join cdir rp])
  end.

(** [inBuildDir(d)] for one string. *)
Definition inBuildDir_str (d : string) : string :=
  if String.prefix dir_output_build d then d
  else py_replace1 dir dir_output_build d.

(** [SCons.Util.flatten] *)
Fixpoint flatten (v : PathVal) : list PathVal :=
  match v with
  | PathList l => concat (flatten <$> l)
  | _ => [v]
  end.

(** [inBuildDir] of its arguments [dirs].  An argument that is neither a string nor a list
    is handed to [inBuildDir] again and again: [None] is the overflow of
    the stack. *)
Definition inBuildDir (dirs : list PathVal) : option PathVal :=
  match dirs with
  | [] => Some (PathStr (py_replace1 dir dir_output_build getcwd))
  | [PathStr d] => Some (PathStr (inBuildDir_str d))
  | _ =>
      PathList <$>
        mapM (λ d, match d with
                   | PathStr s => Some (PathStr (inBuildDir_str s))
                   | _ => None
                   end) (concat (flatten <$> dirs))
  end.

(** [recursiveDirs] *)
Definition recursiveDirs (root : string) : list string :=
  filter (λ directory, py_contains "CVS" directory = false) (walk root).

(** [toLocalDirs] of [scanFilesInDir] *)
Definition toLocalDirs (realcwd d : string) : string :=
  py_replace (realcwd +:+ "/") "" d.

(** [scanFilesInDir] of a directory given as a string.  Without
    [recursive] the loop [for path in paths] goes through the string
    [dd]. *)
Definition scanFilesInDir (directory : string) (accept reject : list string)
    (recursive inBuild : bool) : list string :=
  let realcwd := cdir_srcnode in
  let dd := realAbsoluteCwd directory in
  let paths := if recursive then recursiveDirs dd else py_chars dd in
  let sources :=
    concat ((λ path, concat ((λ pattern, Glob (posix_join path pattern)) <$> accept))
              <$> paths) in
  let sources :=
    foldl (λ sources pattern, filter (λ a, py_contains pattern a = false) sources)
      sources reject in
  let lsources :=
    if inBuild then inBuildDir_str <$> sources
    else toLocalDirs realcwd <$> sources in
  unique lsources.

Definition scanFiles (dirs accept reject : list string)
    (unique_ recursive inBuild : bool) : list string :=
  let files :=
    concat ((λ d, scanFilesInDir d accept reject recursive inBuild) <$> dirs) in
  if unique_ then unique files else files.

(** [dirnames] *)
Definition dirnames (files : list string) : list string :=
  py_sorted (unique (dirname <$> files)).

(** [subdirsContaining] of a directory given as a string. *)
Definition subdirsContaining (directory : string) (patterns : list string)
    : list string :=
  py_sorted (dirnames
    (scanFiles [directory] patterns ["@"; "_qrc"; "_ui"; ".moc.cpp"] true true false)).

(** [s.split(sep)] for a separator of one character: [piece] is the piece
    being read. *)
Fixpoint py_split_on (sep : Ascii.ascii) (s : string) (piece : string) : list string :=
  match s with
  | EmptyString => [piece]
  | String c rest =>
      if Ascii.eqb c sep then piece :: py_split_on sep rest ""
      else py_split_on sep rest (piece +:+ String c EmptyString)
  end.

(** [v[-n:]] *)
Definition py_last {A} (n : Z) (v : list A) : list A :=
  if (n =? 0)%Z then v
  else if (0 <? n)%Z then drop (length v - Z.to_nat n) v
  else drop (Z.to_nat (- n)) v.

(** [v[i]]: [None] is [IndexError]. *)
Definition py_index {A} (v : list A) (i : Z) : option A :=
  if (0 <=? i)%Z then v !! Z.to_nat i
  else if (- i <=? Z.of_nat (length v))%Z then v !! (length v - Z.to_nat (- i))
  else None.

(** The argument [n] of [getDirs]: a number or a list of indexes. *)
Inductive DirsArg := Parents (n : Z) | Indexes (l : list Z).

(** The directories of the SConscript being read, from the project:
    [self.getCwdInProject().split(os.sep)], the separator being [/]. *)
Definition alldirs : list string :=
  py_split_on (Ascii.ascii_of_nat 47) getCwdInProject "".

Definition getDirs (n : DirsArg) : option (list string) :=
  match n with
  | Indexes l => mapM (py_index alldirs) l
  | Parents n => Some (py_last n alldirs)
  end.

Definition getName (n : Z) : string :=
  if (n =? 0)%Z then py_join "_" alldirs
  else py_join "_" (py_last n alldirs).

End Files.

(** * More of the project *)

Section Coverage.
Context `{Collab}.

Notation "x <- c ;; k" := (bind c (λ x, k))
  (at level 100, c at next level, right associativity).
Notation "c ;;; k" := (bind c (λ _, k))
  (at level 100, right associativity).

(** ** [ObjectLibrary] *)

(** [ObjectLibrary]: a checker that stands for a set of flags, include
    directories and sources; nothing is built.  The keyword [envFlags] is
    the field [envFlags_arg]. *)
Definition ObjectLibrary (fuel : nat) (args : TargetArgs) : M addr :=
  _ <- createEnv fuel (libraries args) (target args) ;;
  dstLibChecker <- newLib (InternalLibChecker "" (target args)
    (fs_prepareIncludes (includes args)) (envFlags_arg args)
    (Some <$> libraries args) None (fs_realAbsoluteCwd <$> sources args)) ;;
  when (public args)
    (modify (set_publicLibs
       (<[publicOr (publicName args) (target args) := dstLibChecker]>))) ;;;
  modify (set_allTargets
    (<[publicOr (publicName args) (target args) := (None, Some dstLibChecker)]>)) ;;;
  ret dstLibChecker.

(** ** The dependency graph *)

(** [d] is reached from [a] along [k + 1] dependencies. *)
Fixpoint reaches (h : Heap) (k : nat) (a d : addr) : Prop :=
  match k with
  | 0 => Some d ∈ dependencies (h a)
  | S k' => ∃ m, Some m ∈ dependencies (h a) ∧ reaches h k' m d
  end.

(** [a] is requested, or is a dependency, direct or not, of a requested
    library. *)
Definition needed (h : Heap) (libs_ : list addr) (a : addr) : Prop :=
  a ∈ libs_ ∨ ∃ lib k, lib ∈ libs_ ∧ reaches h k lib a.

(** ** Exceptions *)

(** The exceptions of a computation are all of [E]. *)
Definition raisesOnly (E : Exn → Prop) {A} (c : M A) : Prop :=
  ∀ st e st', c st = (Raise e, st') → E e.

(** The construction variables that the configuration of an environment
    reads with [env[key]]. *)
Definition optionKeys : list string :=
  ["color_autoconf"; "color_clear"; "check_libs"; "ENVINC"; "ENVPATH";
   "ENVLIBPATH"; "colors"].

(** What the configuration of an environment may raise: [KeyError] for one
    of these variables, [TypeError] for a value that is not of the
    expected type, [AttributeError] for a list of missing dependencies that
    has no method [extend], [RecursionError] on a cyclic graph. *)
Definition configurationError (e : Exn) : Prop :=
  match e with
  | KeyError key => key ∈ optionKeys
  | AttributeError attribute => attribute = "extend"
  | TypeError _ | RecursionError => True
  | _ => False
  end.

(** What [ScriptTests] may raise: the error of a missing dependency,
    [ValueError], is not of them. *)
Definition scriptError (args : TargetArgs) (e : Exn) : Prop :=
  match e with
  | RuntimeError _ => scriptFiles args = []
  | NameError n => n = "file" ∧ checkDependencies args = true
  | UnboundLocalError _ => procEnvFlags args = []
  | KeyError key => key ∈ optionKeys
  | AttributeError _ | TypeError _ | RecursionError => True
  | ValueError _ | IndexError | SystemExit _ => False
  end.

(** ** What a run accumulates *)

(** The attributes that tell what a checker is and needs are those of [x].
    The flags that an internal library hands to the targets that use it
    are not among them: they are a dict that the library shares with the
    caller that declared it. *)
Definition sameChecker (x y : LibObj) : Prop :=
  name y = name x ∧ id y = id x ∧ libs y = libs x ∧
  dependencies y = dependencies x ∧ sconsNode y = sconsNode x.

(** What the project holds is only ever added to: checker objects are
    allocated and keep their attributes, environments are created, the
    memo of [checkLibrary], the libraries in error, the registered targets,
    the aliases and the trace grow; the settings of the run stay. *)
Record grows (st st' : Project) : Prop := {
  grows_heap_next : heap_next st ≤ heap_next st';
  grows_heap : ∀ a, a < heap_next st → sameChecker (heap st a) (heap st' a);
  grows_checkDone : checkDone st ⊆ checkDone st';
  grows_envs : length (envs st) ≤ length (envs st');
  grows_libs_error : libs_error st `prefix_of` libs_error st';
  grows_libs_error_NoDup : NoDup (libs_error st) → NoDup (libs_error st');
  grows_allLibsChecked : allLibsChecked st `prefix_of` allLibsChecked st';
  grows_removed :
    dom (removedFromDefaultTargets st) ⊆ dom (removedFromDefaultTargets st');
  grows_allTargets : dom (allTargets st) ⊆ dom (allTargets st');
  grows_publicLibs : dom (publicLibs st) ⊆ dom (publicLibs st');
  grows_aliases :
    ∀ k, default [] (aliases st !! k) `prefix_of` default [] (aliases st' !! k);
  grows_allVisualProjects : allVisualProjects st `prefix_of` allVisualProjects st';
  grows_trace : trace st `prefix_of` trace st';
  grows_env : env st' = env st;
  grows_commonLibs : commonLibs st' = commonLibs st;
  grows_windows : windows st' = windows st;
  grows_clean : opt_clean st' = opt_clean st;
  grows_help : opt_help st' = opt_help st;
}.

(** The registers of targets, the aliases and the checker objects are
    those of [st]. *)
Definition declaresNothing (st st' : Project) : Prop :=
  allTargets st' = allTargets st ∧ aliases st' = aliases st ∧
  removedFromDefaultTargets st' = removedFromDefaultTargets st ∧
  publicLibs st' = publicLibs st ∧ heap st' = heap st.

(** [SCons.Script.Exit] was called. *)
Definition isExit (e : Exn) : bool :=
  match e with SystemExit _ => true | _ => false end.

(** The libraries in error, the environments, [self.env] and the targets
    removed from the default ones are those of [st]. *)
Definition sameErrors (st st' : Project) : Prop :=
  libs_error st' = libs_error st ∧ envs st' = envs st ∧ env st' = env st ∧
  windows st' = windows st ∧
  removedFromDefaultTargets st' = removedFromDefaultTargets st.

(** A computation that returns only when the project does not run on
    Windows. *)
Definition offWindows {A} (c : M A) : Prop :=
  ∀ st a st', c st = (Return a, st') → windows st = false.

(** An event by which [end] completes the build: the default targets are
    set, or the display of the status is registered. *)
Definition completes (ev : Event) : bool :=
  match ev with EvDefault _ | EvAtexit => true | _ => false end.

(** What a library target leaves when it returns [node]: it is registered
    with a checker that carries [node], its alias is defined, it is in the
    alias [all] or among the targets removed from it, and [checkLibrary]
    trusts its checker. *)
Definition registered (fuel : nat) (args : TargetArgs) (node : Node) (st' : Project)
    : Prop :=
  ∃ a, allTargets st' !! publicOr (publicName args) (target args)
         = Some (Some node, Some a) ∧
       sconsNode (heap st' a) = Some node ∧ name (heap st' a) = target args ∧
       (public args = true →
        publicLibs st' !! publicOr (publicName args) (target args) = Some a) ∧
       node ∈ default [] (aliases st' !! target args) ∧
       (target args ∈ default [] (aliases st' !! "all") ∨
        target args ∈ dom (removedFromDefaultTargets st')) ∧
       checkLibrary fuel a st' = (Return true, st').

(** An event of the configuration or of the check of a library, or of a
    probe of [checkLibrary]. *)
Definition configures (ev : Event) : bool :=
  match ev with
  | EvConfigure _ _ _ | EvCheck _ _ _ | EvConfigureContext _ | EvFinish _
  | EvCheckLibrary _ _ | EvClone _ _ => true
  | _ => false
  end.

(** No library was configured or checked between [st] and [st']: the
    events added are of another kind, no environment was created and the
    memo of [checkLibrary] is the one of [st]. *)
Record unconfigured (st st' : Project) : Prop := {
  unconfigured_trace :
    ∃ tr, trace st' = trace st ++ tr ∧ Forall (λ ev, configures ev = false) tr;
  unconfigured_envs : length (envs st') = length (envs st);
  unconfigured_checkDone : checkDone st' = checkDone st;
  unconfigured_allLibsChecked : allLibsChecked st' = allLibsChecked st;
  unconfigured_clean : opt_clean st' = opt_clean st;
  unconfigured_help : opt_help st' = opt_help st;
}.

(** What [appendDict] stores for a key that both dicts have. *)
Definition mergedValue (old v : Value) : Value :=
  let vlist := match v with VList l => l | _ => [v] end in
  match old with
  | VList l => VList (l ++ vlist)
  | _ => VList (old :: vlist)
  end.

(** One turn of the loop of [appendDict]. *)
Definition appendItem (dst : Flags) (kv : string * Value) : Flags :=
  let '(k, v) := kv in
  match list_find (λ e, e.1 = k) dst with
  | Some (i, (_, old)) => <[i := (k, mergedValue old v)]> dst
  | None => dst ++ [(k, v)]
  end.

End Coverage.

(** * A small project

    Libraries [A], [B] (needs [A]) and [C] (needs [B]) as in the scenario of
    the specification, the check of [A] failing; an internal library; two
    checkers named [boost] with different ids; a disabled library. *)

Module Fixture.

Definition collab : Collab :=
  {| Id := nat;
     Opts := unit;
     opts_Update := λ _ e, e;
     env_PrependENVPath := λ _ _ e, e;
     env_AppendUnique := λ k v e, <[k := v]> e;
     env_PrependUnique := λ k v e, <[k := v]> e;
     env_Append := λ k v e, <[k := v]> e;
     scons_build := λ _ _ t _, t;
     scons_install := λ _ d n, d +:+ "/" +:+ n;
     fs_scanFiles := λ _ _ _ _, [];
     fs_readline := λ f,
       if String.eqb f "test_ok.py" then "# scons: prog"
       else if String.eqb f "test_missing.py" then "# scons: prog ghost"
       else "import sys";
     fs_realAbsoluteCwd := λ p, p;
     fs_absoluteCwd := λ p, p;
     fs_prepareIncludes := λ d, d;
     fs_getDirs := ["tests"];
     dir_output_lib := "lib";
     dir_output_bin := "bin";
     CC_sharedobject := VStrs ["-fPIC"];
     base_id := 0;
     base_error := "";
     base_initEnv := λ _ _ e, e;
     base_check := λ _ _ e, (e, true) |}.

#[local] Existing Instance collab.

(** An external checker whose [configure] and [check] answer as given. *)
Definition extLib (name_ : string) (id_ : nat) (deps : list (option addr))
    (configure_ok check_ok : bool) : LibObj :=
  {| name := name_; id := id_; libs := [name_]; dependencies := deps;
     sconsNode := None; error := "";
     enabled := λ _, true;
     initOptions := λ o, (o, true);
     initEnv := λ e, e;
     configure := λ e, (e, configure_ok);
     check := λ e, (e, check_ok);
     postconfigure := λ e _, e |}.

(** A checker that its option disables: [enabled] answers no. *)
Definition disabledLib (name_ : string) : LibObj :=
  {| name := name_; id := 0; libs := [name_]; dependencies := [];
     sconsNode := None; error := "";
     enabled := λ _, false;
     initOptions := λ o, (o, true);
     initEnv := λ e, e;
     configure := λ e, (e, true);
     check := λ e, (e, true);
     postconfigure := λ e _, e |}.

Definition libSconsProject : addr := 0.
Definition libA : addr := 1.
Definition libB : addr := 2.
Definition libC : addr := 3.
Definition libInternal : addr := 4.
Definition libBoost0 : addr := 5.
Definition libBoost1 : addr := 6.
Definition libDisabled : addr := 7.

Definition heap0 : Heap := λ a,
  match a with
  | 1 => extLib "A" 0 [] true false
  | 2 => extLib "B" 0 [Some libA] true true
  | 3 => extLib "C" 0 [Some libB] true true
  | 4 => InternalLibChecker "mylib" "" ["include"] [] [Some libA]
           (Some "lib/libmylib.a") []
  | 5 => extLib "boost" 0 [] true true
  | 6 => extLib "boost" 1 [] true true
  | 7 => disabledLib "D"
  | _ => extLib "sconsProject" 0 [] true true
  end.

(** Depth of a library in the graph of [heap0]. *)
Definition rank0 (a : addr) : nat :=
  match a with
  | 2 => 1
  | 3 => 2
  | 4 => 1
  | _ => 0
  end.

Definition baseEnv : Env :=
  list_to_map
    [("check_libs", VBool true); ("ENVINC", VList []); ("ENVPATH", VList []);
     ("ENVLIBPATH", VList []); ("colors", VBool true);
     ("color_autoconf", VStr ""); ("color_clear", VStr "");
     ("color_error", VStr ""); ("mode", VStr "debug");
     ("ignore_configure_errors", VBool false); ("aliases", VList []);
     ("default", VStr "all")].

(** The project before any target is declared. *)
Definition project0 : Project :=
  {| heap := heap0; heap_next := 8; checkDone := ∅; envs := [baseEnv];
     env := 0; opts := tt; commonLibs := [libSconsProject]; libs_error := [];
     allLibsChecked := []; removedFromDefaultTargets := ∅; allTargets := ∅;
     publicLibs := ∅; aliases := ∅; allVisualProjects := [];
     windows := false; opt_clean := false; opt_help := false; trace := [] |}.

(** An environment in which the library [A] is missing. *)
Definition degradedEnv : Env := <[missingKey := VStrs ["A"]]> baseEnv.

(** The same project run with [ignore_configure_errors=1], holding a
    degraded environment at address 1. *)
Definition projectIgnore : Project :=
  set_envs (λ _, [<["ignore_configure_errors" := VBool true]> baseEnv; degradedEnv])
    project0.

(** The project after the library [A] failed, without and with
    [ignore_configure_errors=1]. *)
Definition projectFailed : Project := set_libs_error (λ _, [libA]) project0.

Definition projectFailedIgnored : Project :=
  set_envs (λ _, [<["ignore_configure_errors" := VBool true]> baseEnv]) projectFailed.

(** The project in production mode, with a registered program. *)
Definition projectProduction : Project :=
  set_allTargets (<["prog" := (Some "bin/prog", None)]>)
    (set_envs (λ _, [<["mode" := VStr "production"]> baseEnv]) project0).

(** The project in debug mode, with a registered program. *)
Definition projectDebug : Project :=
  set_allTargets (<["prog" := (Some "bin/prog", None)]>) project0.

(** [ScriptTests(sources=['test_missing.py'], checkDependencies=check)]:
    the first line of the script is [# scons: prog ghost]. *)
Definition scriptArgs (check : bool) : TargetArgs :=
  {| target := ""; targets := None; sources := ["test_missing.py"];
     precsrc := ""; precinc := ""; dirs := []; libraries := [];
     execLibraries := []; includes := []; env_arg := None;
     localEnvFlags := []; replaceLocalEnvFlags := []; externEnvFlags := [];
     globalEnvFlags := []; envFlags_arg := []; procEnvFlags := [];
     libDependencies := []; nodeDependencies := []; installDir := None;
     installAs := None; install := true; headers := []; localHeaders := [];
     accept := ["test*.py"]; reject := ["@"]; recursive := true;
     checkDependencies := check; shared := false; public := true;
     publicName := None |}.

(** The requests of two targets that share the library [A]. *)
Definition sharedRequests : list addr := [libA; libB; libA; libInternal].

(** Requests for the two checkers named [boost] and an internal library. *)
Definition variantRequests : list addr := [libBoost0; libBoost1; libInternal].

End Fixture.

(** * A small source tree

    The project is in [/p], its build tree in [/p/.dist/build]; the
    SConscript being read is the one of [/p/libs/core/src], which holds
    [a.cpp] and [b_ui.cpp]. *)

Module Sample.

#[local] Existing Instance Fixture.collab.

Definition layout : Layout :=
  {| dir := "/p";
     dir_output_build := "/p/.dist/build";
     cdir_srcnode := "/p/libs/core/src";
     cdir := "/p/.dist/build/libs/core/src";
     getcwd := "/p";
     getCwdInProject := "libs/core/src";
     Glob := λ pattern,
       if String.eqb pattern "/p/libs/core/src/*.cpp"
       then ["/p/libs/core/src/a.cpp"; "/p/libs/core/src/b_ui.cpp"]
       else [];
     walk := λ root,
       if String.eqb root "/p/libs/core/src" then ["/p/libs/core/src"] else [];
     dirname := λ _, "/p/libs/core/src" |}.

(** A library made of one source file, that needs the library [B]. *)
Definition libArgs : TargetArgs :=
  {| target := "core"; targets := None; sources := ["a.cpp"];
     precsrc := ""; precinc := ""; dirs := []; libraries := [Fixture.libB];
     execLibraries := []; includes := []; env_arg := None;
     localEnvFlags := []; replaceLocalEnvFlags := []; externEnvFlags := [];
     globalEnvFlags := []; envFlags_arg := []; procEnvFlags := [];
     libDependencies := []; nodeDependencies := []; installDir := None;
     installAs := None; install := true; headers := []; localHeaders := [];
     accept := ["*.cpp"]; reject := ["@"]; recursive := true;
     checkDependencies := true; shared := false; public := true;
     publicName := None |}.

(** Two libraries that need each other. *)
Definition heapCycle : Heap := λ a,
  match a with
  | 1 => Fixture.extLib "ping" 0 [Some 2] true true
  | _ => Fixture.extLib "pong" 0 [Some 1] true true
  end.

(** Two checkers [M] with the same [(name, id)] pair, one requested, the
    other a dependency of the library [L]. *)
Definition heapTwins : Heap := λ a,
  match a with
  | 3 => Fixture.extLib "L" 0 [Some 2] true true
  | _ => Fixture.extLib "M" 0 [] true true
  end.

(** The project of [scons -c]. *)
Definition projectClean : Project :=
  {| heap := Fixture.heap0; heap_next := 8; checkDone := ∅;
     envs := [Fixture.baseEnv]; env := 0; opts := tt;
     commonLibs := [Fixture.libSconsProject]; libs_error := [];
     allLibsChecked := []; removedFromDefaultTargets := ∅; allTargets := ∅;
     publicLibs := ∅; aliases := ∅; allVisualProjects := [];
     windows := false; opt_clean := true; opt_help := false; trace := [] |}.

(** The project on Windows. *)
Definition projectWindows : Project :=
  {| heap := Fixture.heap0; heap_next := 8; checkDone := ∅;
     envs := [<["MSVSPROJECTSUFFIX" := VStr ".vcproj"]>
                (<["EXTERNCPPPATH" := VList []]> Fixture.baseEnv)];
     env := 0; opts := tt;
     commonLibs := [Fixture.libSconsProject]; libs_error := [];
     allLibsChecked := []; removedFromDefaultTargets := ∅; allTargets := ∅;
     publicLibs := ∅; aliases := ∅; allVisualProjects := [];
     windows := true; opt_clean := false; opt_help := false; trace := [] |}.

(** The project run with [colors=0]. *)
Definition projectNoColors : Project :=
  set_envs (λ _, [<["colors" := VBool false]> Fixture.baseEnv]) Fixture.project0.

(** A project whose environment lost the variable [check_libs]. *)
Definition projectNoCheckLibs : Project :=
  set_envs (λ _, [delete "check_libs" Fixture.baseEnv]) Fixture.project0.

End Sample.

(** * Properties *)

Section Properties.
Context `{Collab}.

(** ** [uniqLibs] *)

Section UniqLibs.
Variable h : Heap.

(** The accumulator [libs] is only ever appended to. *)
Lemma uniqLibs_loop_acc x libs names :
  uniqLibs_loop h x libs names = libs ++ uniqLibs_loop h x [] names.
Proof.
  revert libs names. induction x as [|[s level] rest IH]; intros libs names; simpl.
  - by rewrite app_nil_r.
  - case_decide; [apply IH|].
    rewrite (IH (libs ++ _)), (IH [_]). by rewrite <- app_assoc.
Qed.

Lemma uniqLibs_loop_cons s level rest names :
  uniqLibs_loop h ((s, level) :: rest) [] names =
  if decide (libKey h s ∈ names) then uniqLibs_loop h rest [] names
  else (s, level) :: uniqLibs_loop h rest [] (names ++ [libKey h s]).
Proof. simpl. case_decide; [done|]. by rewrite uniqLibs_loop_acc. Qed.

(** Only membership in [names] matters. *)
Lemma uniqLibs_loop_names x names names' :
  (∀ k, k ∈ names ↔ k ∈ names') →
  uniqLibs_loop h x [] names = uniqLibs_loop h x [] names'.
Proof.
  revert names names'. induction x as [|[s level] rest IH]; intros names names' Heq.
  - done.
  - rewrite !uniqLibs_loop_cons.
    destruct (decide (libKey h s ∈ names)) as [Hin|Hin];
      destruct (decide (libKey h s ∈ names')) as [Hin'|Hin'];
      try (exfalso; naive_solver).
    + by apply IH.
    + f_equal. apply IH. intros k. rewrite !elem_of_app. naive_solver.
Qed.

(** The keys kept are new and pairwise distinct. *)
Lemma uniqLibs_loop_NoDup x names :
  NoDup (keysOf h (uniqLibs_loop h x [] names)) ∧
  ∀ k, k ∈ keysOf h (uniqLibs_loop h x [] names) → k ∉ names.
Proof.
  revert names. induction x as [|[s level] rest IH]; intros names.
  - split; [constructor|]. intros k Hk. by apply elem_of_nil in Hk.
  - rewrite uniqLibs_loop_cons. case_decide as Hin; [apply IH|].
    destruct (IH (names ++ [libKey h s])) as [Hnd Hnew].
    unfold keysOf in *. rewrite fmap_cons. split.
    + constructor; [|done]. intros Hk. apply Hnew in Hk.
      apply Hk. apply elem_of_app. right. by apply list_elem_of_singleton.
    + intros k [->|Hk]%elem_of_cons; [done|].
      apply Hnew in Hk. intros Hk'. apply Hk. apply elem_of_app. by left.
Qed.

(** A list without duplicate keys is returned as it is. *)
Lemma uniqLibs_loop_id y names :
  NoDup (keysOf h y) → (∀ k, k ∈ keysOf h y → k ∉ names) →
  uniqLibs_loop h y [] names = y.
Proof.
  revert names. induction y as [|[s level] rest IH]; intros names Hnd Hnew; [done|].
  rewrite uniqLibs_loop_cons. unfold keysOf in *. rewrite fmap_cons in Hnd, Hnew.
  apply NoDup_cons in Hnd as [Hs Hnd].
  case_decide as Hin.
  - exfalso. eapply Hnew; [|exact Hin]. by left.
  - f_equal. apply IH; [done|]. intros k Hk [Hk'| ->%list_elem_of_singleton]%elem_of_app.
    + eapply Hnew; [|exact Hk']. by right.
    + done.
Qed.

Lemma uniqLibs_idempotent x : uniqLibs h (uniqLibs h x) = uniqLibs h x.
Proof.
  unfold uniqLibs. destruct (uniqLibs_loop_NoDup x []) as [Hnd _].
  apply uniqLibs_loop_id; [done|]. intros k _ Hk. by apply elem_of_nil in Hk.
Qed.

(** The loop started after a prefix [pre] keeps the first occurrences of
    the rest. *)
Lemma uniqLibs_loop_firstOccurrences pre x names :
  (∀ k, k ∈ names ↔ k ∈ keysOf h pre) →
  uniqLibs_loop h x [] names =
  snd <$> filter (λ p, isFirstOccurrence h (pre ++ x) p.1 = true)
            (imap (λ i e, (length pre + i, e)) x).
Proof.
  revert pre names. induction x as [|[s level] rest IH]; intros pre names Heq; [done|].
  rewrite uniqLibs_loop_cons. rewrite imap_cons. rewrite filter_cons. simpl.
  assert (Hfirst : isFirstOccurrence h (pre ++ (s, level) :: rest) (length pre + 0)
                   = bool_decide (libKey h s ∉ keysOf h pre)).
  { unfold isFirstOccurrence. rewrite Nat.add_0_r.
    rewrite lookup_app_r by lia. rewrite Nat.sub_diag. simpl.
    rewrite take_app_length. done. }
  assert (Hrest : imap ((λ i e, (length pre + i, e)) ∘ S) rest
                  = imap (λ i e, (length (pre ++ [(s, level)]) + i, e)) rest).
  { apply imap_ext. intros i e _. simpl. rewrite length_app. simpl. f_equal. lia. }
  rewrite Hrest. rewrite Hfirst.
  assert (Hpre : pre ++ (s, level) :: rest = (pre ++ [(s, level)]) ++ rest)
    by (by rewrite <- app_assoc).
  rewrite Hpre.
  destruct (decide (libKey h s ∈ names)) as [Hin|Hin].
  - rewrite decide_False.
    2:{ rewrite bool_decide_eq_true. apply Heq in Hin. naive_solver. }
    apply IH. intros k. rewrite Heq. unfold keysOf. rewrite fmap_app. simpl.
    rewrite elem_of_app, list_elem_of_singleton. apply Heq in Hin. naive_solver.
  - rewrite decide_True.
    2:{ rewrite bool_decide_eq_true. intros Hk. apply Hin. by apply Heq. }
    simpl. f_equal. apply IH. intros k. unfold keysOf. rewrite fmap_app. simpl.
    rewrite !elem_of_app, !list_elem_of_singleton. rewrite Heq. done.
Qed.

Lemma uniqLibs_firstOccurrences x : uniqLibs h x = firstOccurrences h x.
Proof.
  unfold uniqLibs, firstOccurrences.
  rewrite (uniqLibs_loop_firstOccurrences [] x []); [done|].
  intros k. done.
Qed.

End UniqLibs.

(** C5: [uniqLibs] is idempotent, and its result is made of the first
    occurrence of every [(name, id)] pair of its argument, in the order of
    the argument. *)
Theorem uniqLibs_idempotent_first_occurrences (h : Heap) (x : list (addr * nat)) :
  uniqLibs h (uniqLibs h x) = uniqLibs h x ∧
  uniqLibs h x = firstOccurrences h x.
Proof. split; [apply uniqLibs_idempotent | apply uniqLibs_firstOccurrences]. Qed.

(** ** Running a computation *)

Lemma bind_Return {A B} (c : M A) (k : A → M B) st b st' :
  bind c k st = (Return b, st') →
  ∃ a st1, c st = (Return a, st1) ∧ k a st1 = (Return b, st').
Proof.
  unfold bind. destruct (c st) as [[a|e] st1] eqn:Hc; intros Hk; [|done].
  by exists a, st1.
Qed.

Lemma bind_run {A B} (c : M A) (k : A → M B) st o st' :
  bind c k st = (o, st') →
  (∃ a st1, c st = (Return a, st1) ∧ k a st1 = (o, st')) ∨
  (∃ e, c st = (Raise e, st') ∧ o = Raise e).
Proof.
  unfold bind. destruct (c st) as [[a|e] st1] eqn:Hc; intros Hk.
  - left. by exists a, st1.
  - right. exists e. by simplify_eq.
Qed.

(** ** Computations that respect a relation *)

Section Respects.
Variable I : Project → Prop.
Variable R : Project → Project → Prop.
Hypothesis R_refl : ∀ st, R st st.
Hypothesis R_trans : ∀ a b c, R a b → R b c → R a c.
Hypothesis I_stable : ∀ st st', I st → R st st' → I st'.

Lemma respects_ret {A} (a : A) (φ : A → Prop) : φ a → respects I R (ret a) φ.
Proof. intros Ha st o st' _ [= <- <-]. split; [done|]. by intros ? [= <-]. Qed.

Lemma respects_raise {A} e (φ : A → Prop) : respects I R (raise e) φ.
Proof. intros st o st' _ [= <- <-]. split; [done|]. by intros ? [=]. Qed.

Lemma respects_gets {A} (f : Project → A) (φ : A → Prop) :
  (∀ st, I st → φ (f st)) → respects I R (gets f) φ.
Proof.
  intros Hf st o st' HI [= <- <-]. split; [done|]. intros ? [= <-]. by apply Hf.
Qed.

Lemma respects_modify (f : Project → Project) :
  (∀ st, I st → R st (f st)) → respects I R (modify f) (λ _, True).
Proof. intros Hf st o st' HI [= <- <-]. split; [by apply Hf|done]. Qed.

Lemma respects_bind {A B} (c : M A) (k : A → M B) (φ : A → Prop) (ψ : B → Prop) :
  respects I R c φ → (∀ a, φ a → respects I R (k a) ψ) →
  respects I R (bind c k) ψ.
Proof.
  intros Hc Hk st o st' HI Hrun.
  apply bind_run in Hrun as [(a & st1 & Hc1 & Hk1)|(e & Hc1 & ->)].
  - destruct (Hc _ _ _ HI Hc1) as [HR Hφ].
    destruct (Hk a (Hφ a eq_refl) st1 o st') as [HR' Hψ]; [by eapply I_stable|done|].
    split; [by eapply R_trans|done].
  - destruct (Hc _ _ _ HI Hc1) as [HR _]. split; [done|]. by intros ? [=].
Qed.

Lemma respects_weaken {A} (c : M A) (φ ψ : A → Prop) :
  respects I R c φ → (∀ a, φ a → ψ a) → respects I R c ψ.
Proof.
  intros Hc Hφ st o st' HI Hrun. destruct (Hc _ _ _ HI Hrun) as [HR Ha].
  split; [done|]. intros a ->. by apply Hφ, Ha.
Qed.

Lemma respects_forM_ {A} (xs : list A) (f : A → M unit) :
  (∀ x, x ∈ xs → respects I R (f x) (λ _, True)) →
  respects I R (forM_ xs f) (λ _, True).
Proof.
  induction xs as [|x xs IH]; intros Hf; simpl.
  - by apply respects_ret.
  - eapply respects_bind; [apply Hf; by left|]. intros _ _.
    apply IH. intros y Hy. apply Hf. by right.
Qed.

Lemma respects_foldM {A B} (f : B → A → M B) (b : B) (xs : list A) (φ : B → Prop) :
  φ b → (∀ b x, φ b → x ∈ xs → respects I R (f b x) φ) →
  respects I R (foldM f b xs) φ.
Proof.
  revert b. induction xs as [|x xs IH]; intros b Hb Hf; simpl.
  - by apply respects_ret.
  - eapply respects_bind; [apply Hf; [done|by left]|]. intros b' Hb'.
    apply IH; [done|]. intros b'' y Hb'' Hy. apply Hf; [done|by right].
Qed.

Lemma respects_when (b : bool) (c : M unit) :
  (b = true → respects I R c (λ _, True)) → respects I R (when b c) (λ _, True).
Proof. destruct b; simpl; intros Hc; [by apply Hc|by apply respects_ret]. Qed.

Lemma respects_liftRec {A} (o : option A) (φ : A → Prop) :
  (∀ a, o = Some a → φ a) → respects I R (liftRec o) φ.
Proof.
  destruct o as [a|]; simpl; intros Ho; [apply respects_ret; by apply Ho|].
  apply respects_raise.
Qed.

End Respects.

(** Less is asked of a computation by a larger relation. *)
Lemma respects_mono (I : Project → Prop) (R R' : Project → Project → Prop)
    {A} (c : M A) (φ : A → Prop) :
  (∀ st st', I st → R st st' → R' st st') →
  respects I R c φ → respects I R' c φ.
Proof.
  intros HR Hc st o st' HI Hrun. destruct (Hc _ _ _ HI Hrun) as [H1 H2].
  split; [by apply HR|done].
Qed.

(** ** The steps of the project methods *)

Lemma env_at_alter st l l' f :
  env_at (set_envs (alter f l) st) l' =
  if decide (l' = l ∧ l < length (envs st)) then f (env_at st l') else env_at st l'.
Proof.
  unfold env_at. cbn [envs set_envs]. destruct (decide (l' = l)) as [->|Hne].
  - rewrite list_lookup_alter_eq. case_decide as Hd.
    + destruct Hd as [_ Hlt]. apply lookup_lt_is_Some in Hlt as [e He].
      by rewrite He.
    + destruct (envs st !! l) eqn:He; [|done].
      apply lookup_lt_Some in He. exfalso. by apply Hd.
  - rewrite list_lookup_alter_ne by done. rewrite decide_False; [done|tauto].
Qed.

Lemma env_at_app st es l :
  l < length (envs st) → env_at (set_envs (λ old, old ++ es) st) l = env_at st l.
Proof. intros Hl. unfold env_at. simpl. by rewrite lookup_app_l. Qed.

Section Steps.
Variable h0 : Heap.
Variable n : nat.
Variable U : loc → Env → Env → Prop.
Variable P : Event → Prop.
Variable q : bool.
Hypothesis U_refl : ∀ l e, U l e e.
Hypothesis U_trans : ∀ l e1 e2 e3, U l e1 e2 → U l e2 e3 → U l e1 e3.

Lemma step_of st st' tr :
  heap st' = heap st → env st' = env st → opt_clean st' = opt_clean st →
  opt_help st' = opt_help st → windows st' = windows st →
  commonLibs st' = commonLibs st → length (envs st) ≤ length (envs st') →
  (∀ l, l < n → U l (env_at st l) (env_at st' l)) →
  trace st' = trace st ++ tr → Forall P tr →
  (q = true → checkDone st' = checkDone st ∧ allLibsChecked st' = allLibsChecked st) →
  step n U P q st st'.
Proof. intros. constructor; try done. by exists tr. Qed.

Lemma step_refl st : step n U P q st st.
Proof.
  apply (step_of _ _ []);
    [done|done|done|done|done|done|done|intros l _; apply U_refl|
     by rewrite app_nil_r|done|done].
Qed.

Lemma step_trans st1 st2 st3 :
  step n U P q st1 st2 → step n U P q st2 st3 → step n U P q st1 st3.
Proof.
  intros [Hh1 He1 Hc1 Hp1 Hw1 Hl1 Hlen1 Hu1 (tr1 & Htr1 & HP1) Hq1]
         [Hh2 He2 Hc2 Hp2 Hw2 Hl2 Hlen2 Hu2 (tr2 & Htr2 & HP2) Hq2].
  constructor; try congruence; try lia.
  - intros l Hl. eapply U_trans; eauto.
  - exists (tr1 ++ tr2). rewrite Htr2, Htr1, app_assoc. split; [done|].
    by apply Forall_app.
  - intros Hq. destruct (Hq1 Hq) as [<- <-]. by apply Hq2.
Qed.

Lemma inv_stable st st' : inv h0 n st → step n U P q st st' → inv h0 n st'.
Proof.
  intros [Hh Hn] Hstep. split.
  - rewrite <- Hh. apply Hstep.
  - pose proof (step_length _ _ _ _ _ _ Hstep). lia.
Qed.

Local Abbreviation steps := (respects (inv h0 n) (step n U P q)).

Local Ltac structural :=
  first [ apply (respects_bind _ _ step_trans inv_stable)
        | apply (respects_ret _ _ step_refl)
        | apply (respects_raise _ _ step_refl)
        | apply (respects_gets _ _ step_refl)
        | apply (respects_when _ _ step_refl)
        | apply (respects_forM_ _ _ step_refl step_trans inv_stable)
        | apply (respects_liftRec _ _ step_refl) ].

Lemma steps_bind {A B} (c : M A) (k : A → M B) (φ : A → Prop) (ψ : B → Prop) :
  steps c φ → (∀ a, φ a → steps (k a) ψ) → steps (bind c k) ψ.
Proof. apply respects_bind; [apply step_trans|apply inv_stable]. Qed.

Lemma steps_ret {A} (a : A) (φ : A → Prop) : φ a → steps (ret a) φ.
Proof. apply respects_ret, step_refl. Qed.

Lemma steps_raise {A} e (φ : A → Prop) : steps (@raise _ A e) φ.
Proof. apply respects_raise, step_refl. Qed.

Lemma steps_gets {A} (f : Project → A) (φ : A → Prop) :
  (∀ st, inv h0 n st → φ (f st)) → steps (gets f) φ.
Proof. apply respects_gets, step_refl. Qed.

Lemma steps_when (b : bool) (c : M unit) :
  (b = true → steps c (λ _, True)) → steps (when b c) (λ _, True).
Proof. apply respects_when, step_refl. Qed.

Lemma steps_forM_ {A} (xs : list A) (f : A → M unit) :
  (∀ x, x ∈ xs → steps (f x) (λ _, True)) → steps (forM_ xs f) (λ _, True).
Proof. apply respects_forM_; [apply step_refl|apply step_trans|apply inv_stable]. Qed.

Lemma steps_foldM {A B} (f : B → A → M B) (b : B) (xs : list A) (φ : B → Prop) :
  φ b → (∀ b x, φ b → x ∈ xs → steps (f b x) φ) → steps (foldM f b xs) φ.
Proof. apply respects_foldM; [apply step_refl|apply step_trans|apply inv_stable]. Qed.

Lemma steps_liftRec {A} (o : option A) (φ : A → Prop) :
  (∀ a, o = Some a → φ a) → steps (liftRec o) φ.
Proof. apply respects_liftRec, step_refl. Qed.

Lemma steps_liftRec_any {A} (o : option A) : steps (liftRec o) (λ _, True).
Proof. by apply steps_liftRec. Qed.

Lemma steps_weaken {A} (c : M A) (φ ψ : A → Prop) :
  steps c φ → (∀ a, φ a → ψ a) → steps c ψ.
Proof. apply respects_weaken. Qed.

Lemma steps_gets_any {A} (f : Project → A) : steps (gets f) (λ _, True).
Proof. by apply steps_gets. Qed.

Lemma steps_envGet l : steps (envGet l) (λ _, True).
Proof. apply steps_gets_any. Qed.

Lemma steps_envItem l key : steps (envItem l key) (λ _, True).
Proof.
  eapply steps_bind; [apply steps_envGet|]. intros e _.
  destruct (e !! key); [by apply steps_ret|apply steps_raise].
Qed.

Lemma steps_envUpdate l f :
  n ≤ l ∨ (∀ e, U l e (f e)) → steps (envUpdate l f) (λ _, True).
Proof.
  intros Hl st o st' [Hh Hn] [= <- <-]. split; [|done].
  apply (step_of _ _ []); simpl; [done|done|done|done|done|done| | |
    by rewrite app_nil_r|done|done].
  - by rewrite length_alter.
  - intros l' Hl'. rewrite env_at_alter. case_decide as Hd; [|apply U_refl].
    destruct Hd as [-> _]. destruct Hl as [Hl|Hl]; [lia|apply Hl].
Qed.

Lemma steps_log ev : P ev → steps (log ev) (λ _, True).
Proof.
  intros Hev st o st' _ [= <- <-]. split; [|done].
  apply (step_of _ _ [ev]); simpl; [done|done|done|done|done|done|done| |done| |done].
  - intros l _. apply U_refl.
  - by constructor.
Qed.

Lemma steps_Clone l : (∀ d, n ≤ d → P (EvClone l d)) → steps (Clone l) (λ l', n ≤ l').
Proof.
  intros Hev st o st' [Hh Hn] [= <- <-]. split; [|by intros ? [= <-]].
  apply (step_of _ _ [EvClone l (length (envs st))]); simpl;
    [done|done|done|done|done|done| | |done| |done].
  - rewrite length_app. lia.
  - intros l' Hl'. unfold env_at. simpl. rewrite lookup_app_l by lia. apply U_refl.
  - constructor; [|done]. by apply Hev.
Qed.

(** A step that touches neither the environments nor the trace. *)
Lemma steps_quiet (f : Project → Project) :
  (∀ st, heap (f st) = heap st) → (∀ st, env (f st) = env st) →
  (∀ st, opt_clean (f st) = opt_clean st) → (∀ st, opt_help (f st) = opt_help st) →
  (∀ st, windows (f st) = windows st) → (∀ st, commonLibs (f st) = commonLibs st) →
  (∀ st, envs (f st) = envs st) → (∀ st, trace (f st) = trace st) →
  (q = true → ∀ st, checkDone (f st) = checkDone st ∧
                     allLibsChecked (f st) = allLibsChecked st) →
  steps (modify f) (λ _, True).
Proof.
  intros H1 H2 H3 H4 H5 H6 H7 H8 H9 st o st' _ [= <- <-]. split; [|done].
  apply (step_of _ _ []); [done|done|done|done|done|done| | | | |].
  - by rewrite H7.
  - intros l _. unfold env_at. rewrite H7. apply U_refl.
  - by rewrite app_nil_r.
  - done.
  - intros Hq. by apply H9.
Qed.

Lemma steps_writeColor key : (∀ s, P (EvWrite s)) → steps (writeColor key) (λ _, True).
Proof.
  intros Hev. eapply steps_bind; [apply steps_gets_any|]. intros self_env _.
  eapply steps_bind; [apply steps_envItem|]. intros c _.
  destruct c; try apply steps_raise. by apply steps_log.
Qed.

Lemma steps_recordError a : steps (recordError a) (λ _, True).
Proof. by apply steps_quiet. Qed.

Lemma steps_needCheck : steps needCheck (λ _, True).
Proof.
  eapply steps_bind; [apply steps_gets_any|]. intros self_env _.
  eapply steps_bind; [apply steps_envItem|]. intros v _. by apply steps_ret.
Qed.

Lemma steps_callInitOptions a :
  (∀ ok, P (EvInitOptions a ok)) → steps (callInitOptions a) (λ _, True).
Proof.
  intros Hev. eapply steps_bind; [apply steps_gets_any|]. intros lib _.
  eapply steps_bind; [apply steps_gets_any|]. intros o _.
  destruct (initOptions lib o) as [o' ok].
  eapply steps_bind; [by apply steps_quiet|].
  intros _ _. eapply steps_bind; [by apply steps_log|]. intros _ _. by apply steps_ret.
Qed.

Lemma steps_callInitEnv a l :
  n ≤ l ∨ (∀ e, U l e (initEnv (h0 a) e)) → P (EvInitEnv a l) →
  steps (callInitEnv a l) (λ _, True).
Proof.
  intros Hl Hev. eapply steps_bind.
  { apply (steps_gets _ (λ lib, lib = h0 a)). intros st [<- _]. done. }
  intros lib ->. eapply steps_bind; [by apply steps_envUpdate|]. intros _ _.
  by apply steps_log.
Qed.

Lemma steps_callConfigure a l :
  n ≤ l ∨ (∀ e, U l e (configure (h0 a) e).1) → (∀ ok, P (EvConfigure a l ok)) →
  steps (callConfigure a l) (λ _, True).
Proof.
  intros Hl Hev. eapply steps_bind.
  { apply (steps_gets _ (λ lib, lib = h0 a)). intros st [<- _]. done. }
  intros lib ->. eapply steps_bind; [apply steps_envGet|]. intros e _.
  eapply steps_bind; [by apply steps_envUpdate|]. intros _ _.
  eapply steps_bind; [by apply steps_log|]. intros _ _. by apply steps_ret.
Qed.

Lemma steps_callCheck a l :
  n ≤ l ∨ (∀ e, U l e (check (h0 a) e).1) → (∀ ok, P (EvCheck a l ok)) →
  steps (callCheck a l) (λ _, True).
Proof.
  intros Hl Hev. eapply steps_bind.
  { apply (steps_gets _ (λ lib, lib = h0 a)). intros st [<- _]. done. }
  intros lib ->. eapply steps_bind; [apply steps_envGet|]. intros e _.
  eapply steps_bind; [by apply steps_envUpdate|]. intros _ _.
  eapply steps_bind; [by apply steps_log|]. intros _ _. by apply steps_ret.
Qed.

Lemma steps_callPostconfigure a l level :
  n ≤ l ∨ (∀ e, U l e (postconfigure (h0 a) e level)) → P (EvPostconfigure a l level) →
  steps (callPostconfigure a l level) (λ _, True).
Proof.
  intros Hl Hev. eapply steps_bind.
  { apply (steps_gets _ (λ lib, lib = h0 a)). intros st [<- _]. done. }
  intros lib ->. eapply steps_bind; [by apply steps_envUpdate|]. intros _ _.
  by apply steps_log.
Qed.

Lemma steps_applyOptionsOnEnv l :
  n ≤ l ∨ ((∀ k v e, U l e (env_PrependENVPath k v e)) ∧
           (∀ c e, c ∈ color_keys → U l e (<[c := VStr ""]> e))) →
  steps (applyOptionsOnEnv l) (λ _, True).
Proof.
  intros Hl.
  assert (Hpath : ∀ k v, n ≤ l ∨ (∀ e, U l e (env_PrependENVPath k v e))).
  { intros k v. destruct Hl as [Hl|[Hl _]]; [by left|right; apply Hl]. }
  eapply steps_bind; [apply steps_gets_any|]. intros self_env _.
  eapply steps_bind; [apply steps_envItem|]. intros inc _.
  eapply steps_bind; [by apply steps_envUpdate|]. intros _ _.
  eapply steps_bind; [apply steps_envItem|]. intros path _.
  eapply steps_bind; [by apply steps_envUpdate|]. intros _ _.
  eapply steps_bind; [apply steps_envItem|]. intros libpath _.
  eapply steps_bind; [by apply steps_envUpdate|]. intros _ _.
  eapply steps_bind; [apply steps_envItem|]. intros colors _.
  apply steps_when. intros _. apply steps_forM_. intros c Hc.
  apply steps_envUpdate. destruct Hl as [Hl|[_ Hl]]; [by left|right].
  intros e. by apply Hl.
Qed.

Lemma steps_setCheckDone a : q = false → steps (setCheckDone a) (λ _, True).
Proof. intros Hq. apply steps_quiet; try done. intros Hq'. congruence. Qed.

Lemma steps_appendChecked name_ : q = false → steps (appendChecked name_) (λ _, True).
Proof. intros Hq. apply steps_quiet; try done. intros Hq'. congruence. Qed.

(** A probe works on a clone of its own. *)
Lemma steps_probeLibrary fuel a :
  (∀ ev, probeEvent n ev → P ev) → steps (probeLibrary fuel a) (λ _, True).
Proof.
  intros HP. unfold probeLibrary.
  eapply steps_bind; [apply steps_gets_any|]. intros h _.
  eapply steps_bind; [apply steps_liftRec_any|]. intros deps _.
  eapply steps_bind; [apply steps_gets_any|]. intros self_env _.
  eapply steps_bind; [apply steps_Clone; intros d Hd; by apply HP|].
  intros check_env Hfresh. simpl in Hfresh.
  eapply steps_bind.
  { apply steps_forM_. intros d _. eapply steps_bind.
    - apply steps_callInitOptions. intros ok. by apply HP.
    - intros _ _. by apply steps_ret. }
  intros _ _. eapply steps_bind; [apply steps_callInitOptions; intros ok; by apply HP|].
  intros ok0 _. eapply steps_bind; [apply steps_when; intros _; apply steps_recordError|].
  intros _ _. eapply steps_bind; [apply steps_gets_any|]. intros o _.
  eapply steps_bind; [apply steps_envUpdate; by left|]. intros _ _.
  eapply steps_bind; [apply steps_applyOptionsOnEnv; by left|]. intros _ _.
  eapply steps_bind.
  { apply steps_forM_. intros d _. apply steps_callInitEnv; [by left|by apply HP]. }
  intros _ _. eapply steps_bind; [apply steps_callInitEnv; [by left|by apply HP]|].
  intros _ _. eapply steps_bind.
  { apply steps_forM_. intros d _. eapply steps_bind.
    - apply steps_callConfigure; [by left|]. intros ok. by apply HP.
    - intros _ _. by apply steps_ret. }
  intros _ _. eapply steps_bind.
  { apply steps_callConfigure; [by left|]. intros ok. by apply HP. }
  intros ok1 _. eapply steps_bind; [apply steps_log; by apply HP|].
  intros _ _. eapply steps_bind.
  { apply steps_forM_. intros d _. eapply steps_bind.
    - apply steps_callCheck; [by left|]. intros ok. by apply HP.
    - intros _ _. by apply steps_ret. }
  intros _ _. eapply steps_bind.
  { apply steps_callCheck; [by left|]. intros ok. by apply HP. }
  intros ok2 _. eapply steps_bind; [apply steps_log; by apply HP|].
  intros _ _. by apply steps_ret.
Qed.

Lemma steps_checkLibrary fuel a :
  q = false → (∀ ev, probeEvent n ev → P ev) →
  steps (checkLibrary fuel a) (λ _, True).
Proof.
  intros Hq HP. unfold checkLibrary.
  eapply steps_bind; [apply steps_gets_any|]. intros lib _.
  eapply steps_bind; [apply steps_gets_any|]. intros done _.
  destruct done; [by apply steps_ret|].
  destruct (sconsNode lib); [by apply steps_ret|].
  eapply steps_bind; [apply steps_gets_any|]. intros checked _.
  destruct checked.
  { eapply steps_bind; [by apply steps_setCheckDone|]. intros _ _. by apply steps_ret. }
  eapply steps_bind; [apply steps_needCheck|]. intros nc _.
  destruct nc; simpl.
  - eapply steps_bind; [by apply steps_probeLibrary|]. intros ok _.
    eapply steps_bind; [by apply steps_setCheckDone|]. intros _ _.
    eapply steps_bind; [by apply steps_appendChecked|]. intros _ _. by apply steps_ret.
  - eapply steps_bind; [by apply steps_setCheckDone|]. intros _ _.
    eapply steps_bind; [by apply steps_appendChecked|]. intros _ _. by apply steps_ret.
Qed.

Lemma steps_checkOne fuel l name_ errs entry :
  q = false → (∀ ev, P ev) → n ≤ l →
  steps (checkOne fuel l name_ errs entry) (λ _, True).
Proof.
  intros Hq HP Hl. unfold checkOne.
  eapply steps_bind; [apply steps_gets_any|]. intros lib _.
  eapply steps_bind; [apply steps_envGet|]. intros e _.
  destruct (enabled lib e); simpl.
  - eapply steps_bind; [by apply steps_checkLibrary|]. intros ok0 _.
    eapply steps_bind; [by apply steps_log|]. intros _ _.
    eapply steps_bind; [apply steps_callConfigure; [by left|done]|]. intros ok1 _.
    eapply steps_bind.
    { instantiate (1 := λ _, True). destruct ok1; [|by apply steps_ret].
      eapply steps_bind; [by apply steps_log|]. intros _ _.
      eapply steps_bind; [apply steps_callCheck; [by left|done]|]. intros ok _.
      eapply steps_bind; [by apply steps_log|]. intros _ _. by apply steps_ret. }
    intros ok2 _. destruct (ok0 && ok1 && ok2); by apply steps_ret.
  - eapply steps_bind; [by apply steps_log|]. intros _ _. by apply steps_ret.
Qed.

Lemma steps_configureLibs fuel l name_ allLibs :
  q = false → (∀ ev, P ev) → n ≤ l →
  steps (configureLibs fuel l name_ allLibs) (λ _, True).
Proof.
  intros Hq HP Hl. unfold configureLibs.
  eapply steps_bind.
  { apply (steps_foldM _ _ _ (λ _, True)); [done|].
    intros b x _ _. by apply steps_checkOne. }
  intros errs _. eapply steps_bind; [apply steps_envGet|]. intros e _.
  eapply steps_bind; [apply steps_when; intros _; apply steps_envUpdate; by left|].
  intros _ _. eapply steps_bind; [apply steps_envGet|]. intros e' _.
  eapply steps_bind.
  { instantiate (1 := λ _, True).
    destruct (e' !! missingKey) as [[| | | |old]|]; try apply steps_raise.
    eapply steps_bind; [apply steps_gets_any|]. intros h _.
    apply steps_envUpdate. by left. }
  intros _ _. apply steps_forM_. intros a _. apply steps_recordError.
Qed.

Lemma steps_recordLibraries l libs_ :
  n ≤ l ∨ (∀ v e, U l e (<[librariesKey := v]> e)) →
  steps (recordLibraries l libs_) (λ _, True).
Proof.
  intros Hl. unfold recordLibraries.
  assert (Hl' : ∀ v, n ≤ l ∨ (∀ e, U l e (<[librariesKey := v]> e))).
  { intros v. destruct Hl as [Hl|Hl]; [by left|right; apply Hl]. }
  eapply steps_bind; [apply steps_envGet|]. intros e _.
  destruct (e !! librariesKey) as [[| | | |old]|]; try apply steps_raise;
    by apply steps_envUpdate.
Qed.

Lemma steps_initLibs fuel l libs_ :
  (∀ s, P (EvWrite s)) → (∀ a ok, P (EvInitOptions a ok)) → (∀ a, P (EvInitEnv a l)) →
  permits h0 n U l fuel libs_ →
  steps (initLibs fuel l libs_) (λ r, resolvedLibs fuel h0 libs_ = Some r).
Proof.
  intros HW HO HE Hl. unfold initLibs.
  eapply steps_bind; [by apply steps_writeColor|]. intros _ _.
  eapply steps_bind.
  { apply steps_recordLibraries. destruct Hl as [Hl|(Hl & _)]; [by left|by right]. }
  intros _ _. eapply steps_bind.
  { apply (steps_gets _ (λ h, h = h0)). by intros st [-> _]. }
  intros h ->. eapply steps_bind.
  { by apply (steps_liftRec _ (λ r, resolvedLibs fuel h0 libs_ = Some r)). }
  intros allLibs Hall. simpl in Hall. eapply steps_bind.
  { apply steps_forM_. intros p _.
    eapply steps_bind; [by apply steps_callInitOptions|]. intros ok _.
    apply steps_when. intros _. apply steps_recordError. }
  intros _ _. eapply steps_bind; [apply steps_gets_any|]. intros o _.
  eapply steps_bind.
  { apply steps_envUpdate. destruct Hl as [Hl|(_ & Hl & _)]; [by left|right; apply Hl]. }
  intros _ _. eapply steps_bind.
  { apply steps_applyOptionsOnEnv.
    destruct Hl as [Hl|(_ & _ & Hl1 & Hl2 & _)]; [by left|by right]. }
  intros _ _. eapply steps_bind.
  { apply steps_forM_. intros p Hp. apply steps_callInitEnv; [|done].
    destruct Hl as [Hl|(_ & _ & _ & _ & Hl)]; [by left|right].
    intros e. by apply (Hl allLibs p e). }
  intros _ _. by apply steps_ret.
Qed.

Lemma steps_postconfigureLibs fuel l libs_ allLibs :
  (∀ s, P (EvWrite s)) → (∀ a level, P (EvPostconfigure a l level)) →
  permits h0 n U l fuel libs_ → resolvedLibs fuel h0 libs_ = Some allLibs →
  steps (postconfigureLibs l allLibs) (λ _, True).
Proof.
  intros HW HE Hl Hall. unfold postconfigureLibs.
  eapply steps_bind.
  { apply steps_forM_. intros p Hp. apply steps_callPostconfigure; [|done].
    destruct Hl as [Hl|(_ & _ & _ & _ & Hl)]; [by left|right].
    intros e. by apply (Hl allLibs p e). }
  intros _ _. by apply steps_writeColor.
Qed.

Lemma steps_appendLibsToEnv fuel l libs_ name_ :
  q = false → (∀ ev, P ev) → n ≤ l →
  steps (appendLibsToEnv fuel l libs_ name_) (λ r, r = l).
Proof.
  intros Hq HP Hl. unfold appendLibsToEnv.
  destruct libs_ as [|lib0 libs_]; [by apply steps_ret|].
  eapply steps_bind; [apply steps_initLibs; try done; by left|].
  intros allLibs Hall. simpl in Hall.
  eapply steps_bind; [apply steps_gets_any|]. intros nc _.
  eapply steps_bind.
  { apply steps_when. intros _. by apply steps_configureLibs. }
  intros _ _. eapply steps_bind.
  { eapply steps_postconfigureLibs; try done. by left. }
  intros _ _. by apply steps_ret.
Qed.

Lemma steps_createEnv fuel libs_ name_ :
  q = false → (∀ ev, P ev) →
  steps (createEnv fuel libs_ name_) (λ r, n ≤ r).
Proof.
  intros Hq HP. unfold createEnv.
  eapply steps_bind; [apply steps_gets_any|]. intros self_env _.
  eapply steps_bind; [apply steps_Clone; intros; apply HP|].
  intros new_env Hfresh. simpl in Hfresh.
  eapply steps_bind; [apply steps_gets_any|]. intros common _.
  eapply steps_weaken; [by apply steps_appendLibsToEnv|].
  intros r ->. done.
Qed.

End Steps.


(** ** [findLibsDependencies] and the resolved list *)

Section LeafFirst.
Variable h : Heap.

Lemma rawLeafFirst_nil : rawLeafFirst h [].
Proof. intros i a level d Hi. by rewrite lookup_nil in Hi. Qed.

Lemma rawLeafFirst_app l1 l2 :
  rawLeafFirst h l1 → rawLeafFirst h l2 → rawLeafFirst h (l1 ++ l2).
Proof.
  intros H1 H2 i a level d Hi Hd.
  apply lookup_app_Some in Hi as [Hi|[Hlen Hi]].
  - destruct (H1 _ _ _ _ Hi Hd) as (j & level' & Hj & Hlk).
    exists j, level'. split; [done|]. by apply lookup_app_l_Some.
  - destruct (H2 _ _ _ _ Hi Hd) as (j & level' & Hj & Hlk).
    exists (length l1 + j), level'. split; [lia|].
    rewrite lookup_app_r by lia. by replace (length l1 + j - length l1) with j by lia.
Qed.

Lemma rawLeafFirst_snoc l a level :
  rawLeafFirst h l → (∀ d, Some d ∈ dependencies (h a) → d ∈ fst <$> l) →
  rawLeafFirst h (l ++ [(a, level)]).
Proof.
  intros Hl Hdeps i a' level' d Hi Hd.
  apply lookup_app_Some in Hi as [Hi|[Hlen Hi]].
  - destruct (Hl _ _ _ _ Hi Hd) as (j & lv & Hj & Hlk).
    exists j, lv. split; [done|]. by apply lookup_app_l_Some.
  - apply list_lookup_singleton_Some in Hi as [Hi Heq]. simplify_eq.
    apply Hdeps in Hd. apply list_elem_of_fmap in Hd as ([d' lv] & -> & Hin).
    apply list_elem_of_lookup in Hin as [j Hj].
    exists j, lv. split; [apply lookup_lt_Some in Hj; lia|].
    by apply lookup_app_l_Some.
Qed.

(** [extendEach] over calls that succeed with leaf-first results. *)
Lemma extendEach_leafFirst (f : option addr → option (list (addr * nat))) ds ll :
  f None = Some [] →
  (∀ d, Some d ∈ ds → ∃ r, f (Some d) = Some r ∧ rawLeafFirst h r ∧ d ∈ fst <$> r) →
  ∃ r, extendEach f ds ll = Some (ll ++ r) ∧ rawLeafFirst h r ∧
       ∀ d, Some d ∈ ds → d ∈ fst <$> r.
Proof.
  intros HNone. revert ll. induction ds as [|[d|] ds IH]; intros ll Hf; simpl.
  - exists []. rewrite app_nil_r. split; [done|]. split; [apply rawLeafFirst_nil|].
    intros d Hd. by apply elem_of_nil in Hd.
  - destruct (Hf d) as (r & -> & Hr & Hin); [by left|].
    destruct (IH (ll ++ r)) as (r' & -> & Hr' & Hin').
    { intros d' Hd'. apply Hf. by right. }
    exists (r ++ r'). rewrite app_assoc. split; [done|].
    split; [by apply rawLeafFirst_app|].
    intros d' [Heq|Hd']%elem_of_cons; rewrite fmap_app, elem_of_app.
    + simplify_eq. by left.
    + right. by apply Hin'.
  - rewrite HNone. rewrite app_nil_r.
    destruct (IH ll) as (r' & -> & Hr' & Hin').
    { intros d' Hd'. apply Hf. by right. }
    exists r'. split; [done|]. split; [done|].
    intros d' [Heq|Hd']%elem_of_cons; [done|]. by apply Hin'.
Qed.

(** The dependency graph has no cycle: a rank decreases along it. *)
Variable rank : addr → nat.
Hypothesis rank_decreases :
  ∀ a d, Some d ∈ dependencies (h a) → rank d < rank a.

Lemma internFindLibDependencies_leafFirst fuel a level :
  rank a + 2 ≤ fuel →
  ∃ r, internFindLibDependencies fuel h (Some a) level = Some (r ++ [(a, level)]) ∧
       rawLeafFirst h (r ++ [(a, level)]).
Proof.
  revert a level. induction fuel as [|fuel IH]; intros a level Hfuel; [lia|].
  simpl.
  destruct (extendEach_leafFirst
              (λ l, internFindLibDependencies fuel h l (S level))
              (dependencies (h a)) []) as (r & -> & Hr & Hin).
  - destruct fuel; [lia|done].
  - intros d Hd. destruct (IH d (S level)) as (r & -> & Hr).
    { apply rank_decreases in Hd. lia. }
    eexists. split; [done|]. split; [done|].
    rewrite fmap_app. apply elem_of_app. right. by left.
  - exists r. split; [done|]. by apply rawLeafFirst_snoc.
Qed.

Lemma findLibsDependencies_leafFirst fuel a :
  rank a < fuel →
  ∃ r, findLibsDependencies fuel h (OneLib a) = Some r ∧ rawLeafFirst h r ∧
       ∀ d, Some d ∈ dependencies (h a) → d ∈ fst <$> r.
Proof.
  intros Hfuel. unfold findLibsDependencies. simpl.
  destruct (extendEach_leafFirst
              (λ l, internFindLibDependencies fuel h l 0)
              (dependencies (h a)) []) as (r & -> & Hr & Hin).
  - destruct fuel; [lia|done].
  - intros d Hd. destruct (internFindLibDependencies_leafFirst fuel d 0) as (r & -> & Hr).
    { apply rank_decreases in Hd. lia. }
    eexists. split; [done|]. split; [done|].
    rewrite fmap_app. apply elem_of_app. right. by left.
  - exists r. done.
Qed.

Lemma collectLibs_leafFirst fuel libs_ allLibs :
  (∀ a, a ∈ libs_ → rank a < fuel) → rawLeafFirst h allLibs →
  ∃ r, collectLibs fuel h libs_ allLibs = Some r ∧ rawLeafFirst h r.
Proof.
  revert allLibs. induction libs_ as [|a rest IH]; intros allLibs Hfuel Hall; simpl.
  - by exists allLibs.
  - destruct (findLibsDependencies_leafFirst fuel a) as (r & -> & Hr & Hin).
    { apply Hfuel. by left. }
    apply IH.
    + intros a' Ha'. apply Hfuel. by right.
    + apply rawLeafFirst_app; [done|]. by apply rawLeafFirst_snoc.
Qed.

(** What [uniqLibs] keeps of the order: the key of every dependency of a
    kept entry is among those already seen. *)
Lemma uniqLibs_loop_leafFirst x names :
  (∀ pre a level post, x = pre ++ (a, level) :: post →
     ∀ d, Some d ∈ dependencies (h a) →
       libKey h d ∈ names ∨ libKey h d ∈ keysOf h pre) →
  ∀ pre a level post, uniqLibs_loop h x [] names = pre ++ (a, level) :: post →
    ∀ d, Some d ∈ dependencies (h a) →
      libKey h d ∈ names ∨ libKey h d ∈ keysOf h pre.
Proof.
  revert names. induction x as [|[s lv] rest IH]; intros names Hx pre a level post Hsplit d Hd.
  - simpl in Hsplit. by destruct pre.
  - rewrite uniqLibs_loop_cons in Hsplit. case_decide as Hin.
    + eapply (IH names); [|exact Hsplit|exact Hd].
      intros pre' a' level' post' -> d' Hd'.
      destruct (Hx ((s, lv) :: pre') a' level' post' eq_refl d' Hd') as [Hk|Hk]; [by left|].
      unfold keysOf in Hk. rewrite fmap_cons in Hk.
      apply elem_of_cons in Hk as [Hk|Hk]; [|by right].
      left. simpl in Hk. by rewrite Hk.
    + destruct pre as [|p pre]; simpl in Hsplit.
      * simplify_eq. exact (Hx [] a level rest eq_refl d Hd).
      * injection Hsplit as Hp Hsplit. subst p.
        assert (Hrest : ∀ pre' a' level' post', rest = pre' ++ (a', level') :: post' →
                  ∀ d', Some d' ∈ dependencies (h a') →
                    libKey h d' ∈ names ++ [libKey h s] ∨ libKey h d' ∈ keysOf h pre').
        { intros pre' a' level' post' -> d' Hd'.
          destruct (Hx ((s, lv) :: pre') a' level' post' eq_refl d' Hd') as [Hk|Hk].
          - left. apply elem_of_app. by left.
          - unfold keysOf in Hk. rewrite fmap_cons in Hk.
            apply elem_of_cons in Hk as [Hk|Hk]; [|by right].
            left. apply elem_of_app. right. simpl in Hk. rewrite Hk. by left. }
        destruct (IH _ Hrest _ _ _ _ Hsplit _ Hd) as [Hk|Hk].
        -- apply elem_of_app in Hk as [Hk|Hk]; [by left|].
           apply list_elem_of_singleton in Hk. right.
           unfold keysOf. rewrite fmap_cons. apply elem_of_cons. by left.
        -- right. unfold keysOf. rewrite fmap_cons. by right.
Qed.

Lemma uniqLibs_leafFirst x i a level d :
  rawLeafFirst h x → uniqLibs h x !! i = Some (a, level) →
  Some d ∈ dependencies (h a) →
  ∃ j e, j < i ∧ uniqLibs h x !! j = Some e ∧ libKey h e.1 = libKey h d.
Proof.
  intros Hraw Hi Hd.
  pose proof (take_drop_middle _ _ _ Hi) as Hsplit. symmetry in Hsplit.
  assert (Hx : ∀ pre a' level' post, x = pre ++ (a', level') :: post →
            ∀ d', Some d' ∈ dependencies (h a') →
              libKey h d' ∈ [] ∨ libKey h d' ∈ keysOf h pre).
  { intros pre a' level' post -> d' Hd'. right.
    destruct (Hraw (length pre) a' level' d') as (j & lv & Hj & Hlk); [|done|].
    { rewrite lookup_app_r by lia. by rewrite Nat.sub_diag. }
    rewrite lookup_app_l in Hlk by lia.
    unfold keysOf. apply list_elem_of_fmap. exists (d', lv). split; [done|].
    apply list_elem_of_lookup. by exists j. }
  destruct (uniqLibs_loop_leafFirst x [] Hx _ _ _ _ Hsplit _ Hd) as [Hk|Hk].
  - by apply elem_of_nil in Hk.
  - unfold keysOf in Hk. apply list_elem_of_fmap in Hk as (e & Hkey & Hin).
    apply list_elem_of_lookup in Hin as [j Hj].
    apply lookup_take_Some in Hj as [Hj Hlt].
    exists j, e. done.
Qed.

End LeafFirst.

(** In an acyclic graph the resolved list is computed and, before every
    library of the list, holds an entry with the [(name, id)] of each of
    its direct dependencies. *)
Lemma leaf_first_by_key (h : Heap) (rank : addr → nat) (fuel : nat)
    (libs_ : list addr) :
  (∀ a d, Some d ∈ dependencies (h a) → rank d < rank a) →
  (∀ a, a ∈ libs_ → rank a < fuel) →
  ∃ res, resolvedLibs fuel h libs_ = Some res ∧
    ∀ i a level d, res !! i = Some (a, level) → Some d ∈ dependencies (h a) →
      ∃ j e, j < i ∧ res !! j = Some e ∧ libKey h e.1 = libKey h d.
Proof.
  intros Hrank Hfuel. unfold resolvedLibs.
  destruct (collectLibs_leafFirst h rank Hrank fuel libs_ []) as (r & -> & Hr);
    [done|apply rawLeafFirst_nil|].
  eexists. split; [done|].
  intros i a level d Hi Hd. by eapply uniqLibs_leafFirst.
Qed.

(** ** Counting the probes of [checkLibrary] *)

Lemma probeCount_app tr1 tr2 : probeCount (tr1 ++ tr2) = probeCount tr1 + probeCount tr2.
Proof. unfold probeCount. by rewrite filter_app, length_app. Qed.

Lemma probeCount_notContext tr : Forall notContext tr → probeCount tr = 0.
Proof.
  unfold probeCount. induction 1 as [|ev tr Hev _ IH]; [done|].
  rewrite filter_cons. unfold notContext in Hev.
  rewrite decide_False; [done|]. by rewrite Hev.
Qed.

Section Counting.
Variable h0 : Heap.
Variable n : nat.

(** Steps that keep the environments below [n], the memo and the count. *)
Local Abbreviation quiet := (respects (inv h0 n) (step n (λ _, eq) notContext true)).

Local Abbreviation counts := (counts h0 n).

Lemma eq_trans_env (l : loc) (e1 e2 e3 : Env) : e1 = e2 → e2 = e3 → e1 = e3.
Proof. congruence. Qed.

Lemma counts_quiet {A} (c : M A) (φ : A → Prop) : quiet c φ → counts 0 c φ.
Proof.
  intros Hc st a st' HI Hrun. destruct (Hc _ _ _ HI Hrun) as [Hstep Hφ].
  destruct (step_trace _ _ _ _ _ _ Hstep) as (tr & Htr & Hnot).
  split; [|split; [|by apply Hφ]].
  - destruct Hstep. constructor; try done. exists tr. split; [done|].
    by apply Forall_true.
  - rewrite Htr, probeCount_app, (probeCount_notContext tr) by done. done.
Qed.

Lemma counts_bind (k1 k2 : nat) {A B} (c : M A) (k : A → M B)
    (φ : A → Prop) (ψ : B → Prop) :
  counts k1 c φ → (∀ a, φ a → counts k2 (k a) ψ) → counts (k1 + k2) (bind c k) ψ.
Proof.
  intros Hc Hk st b st' HI Hrun.
  apply bind_Return in Hrun as (a & st1 & Hc1 & Hk1).
  destruct (Hc _ _ _ HI Hc1) as (Hstep1 & Hcount1 & Hφ).
  destruct (Hk a Hφ st1 b st') as (Hstep2 & Hcount2 & Hψ); [|done|].
  { eapply inv_stable; eauto. }
  split; [|split; [lia|done]].
  eapply step_trans; eauto. apply eq_trans_env.
Qed.

Lemma counts_context l : counts 1 (log (EvConfigureContext l)) (λ _, True).
Proof.
  intros st [] st' _ [= <-]. split; [|split; [|done]].
  - apply (step_of _ _ _ _ _ _ [EvConfigureContext l]); simpl; try done.
    by constructor.
  - simpl. rewrite probeCount_app. done.
Qed.

Local Ltac side := try done; try apply eq_trans_env; try (by left).
Local Ltac quietly tac := apply counts_quiet; tac; side.

Lemma counts_probeLibrary fuel a : counts 1 (probeLibrary fuel a) (λ _, True).
Proof.
  unfold probeLibrary.
  apply (counts_bind 0 1 _ _ (λ _, True)); [quietly ltac:(apply steps_gets_any)|].
  intros h _.
  apply (counts_bind 0 1 _ _ (λ _, True)); [quietly ltac:(apply steps_liftRec_any)|].
  intros deps _.
  apply (counts_bind 0 1 _ _ (λ _, True)); [quietly ltac:(apply steps_gets_any)|].
  intros self_env _.
  apply (counts_bind 0 1 _ _ (λ l', n ≤ l')); [quietly ltac:(apply steps_Clone)|].
  intros check_env Hfresh.
  apply (counts_bind 0 1 _ _ (λ _, True)).
  { quietly ltac:(apply steps_forM_). intros d _.
    eapply steps_bind; side; [apply steps_callInitOptions; side|].
    intros _ _. apply steps_ret; side. }
  intros _ _.
  apply (counts_bind 0 1 _ _ (λ _, True));
    [quietly ltac:(apply steps_callInitOptions)|].
  intros ok0 _.
  apply (counts_bind 0 1 _ _ (λ _, True)).
  { quietly ltac:(apply steps_when). intros _. apply steps_recordError; side. }
  intros _ _.
  apply (counts_bind 0 1 _ _ (λ _, True)); [quietly ltac:(apply steps_gets_any)|].
  intros o _.
  apply (counts_bind 0 1 _ _ (λ _, True)); [quietly ltac:(apply steps_envUpdate)|].
  intros _ _.
  apply (counts_bind 0 1 _ _ (λ _, True));
    [quietly ltac:(apply steps_applyOptionsOnEnv)|].
  intros _ _.
  apply (counts_bind 0 1 _ _ (λ _, True)).
  { quietly ltac:(apply steps_forM_). intros d _. apply steps_callInitEnv; side. }
  intros _ _.
  apply (counts_bind 0 1 _ _ (λ _, True)); [quietly ltac:(apply steps_callInitEnv)|].
  intros _ _.
  apply (counts_bind 0 1 _ _ (λ _, True)).
  { quietly ltac:(apply steps_forM_). intros d _.
    eapply steps_bind; side; [apply steps_callConfigure; side|].
    intros _ _. apply steps_ret; side. }
  intros _ _.
  apply (counts_bind 0 1 _ _ (λ _, True)); [quietly ltac:(apply steps_callConfigure)|].
  intros ok1 _.
  apply (counts_bind 1 0 _ _ (λ _, True)); [apply counts_context|].
  intros _ _.
  apply (counts_bind 0 0 _ _ (λ _, True)).
  { quietly ltac:(apply steps_forM_). intros d _.
    eapply steps_bind; side; [apply steps_callCheck; side|].
    intros _ _. apply steps_ret; side. }
  intros _ _.
  apply (counts_bind 0 0 _ _ (λ _, True)); [quietly ltac:(apply steps_callCheck)|].
  intros ok2 _.
  apply (counts_bind 0 0 _ _ (λ _, True)); [quietly ltac:(apply steps_log)|].
  intros _ _. quietly ltac:(apply steps_ret).
Qed.

Lemma needCheck_enabled st : checkEnabled st → needCheck st = (Return true, st).
Proof.
  intros (v & Hv & Htrue). unfold needCheck, bind, gets, envItem, bind, envGet, gets.
  rewrite Hv. simpl. by rewrite Htrue.
Qed.

Lemma running_inv st : running h0 n st → inv h0 n st.
Proof. intros []. by split. Qed.

Lemma running_step st st' :
  running h0 n st → step n (λ _, eq) (λ _, True) true st st' →
  heap st' = h0 ∧ env st' < n ∧ n ≤ length (envs st') ∧ checkEnabled st' ∧
  checkDone st' = checkDone st ∧ allLibsChecked st' = allLibsChecked st.
Proof.
  intros [Hh Hb Hl (v & Hv & Htrue) Hm] Hstep.
  pose proof (step_length _ _ _ _ _ _ Hstep).
  destruct (step_cache _ _ _ _ _ _ Hstep eq_refl) as [Hdone Hchecked].
  rewrite (step_heap _ _ _ _ _ _ Hstep).
  split; [done|]. split; [by rewrite (step_env _ _ _ _ _ _ Hstep)|].
  split; [lia|]. split; [|done].
  exists v. split; [|done]. rewrite (step_env _ _ _ _ _ _ Hstep).
  by rewrite <- (step_envs _ _ _ _ _ _ Hstep (env st) Hb).
Qed.

(** One call of [checkLibrary]: it probes exactly when the library is
    external and its name is new. *)
Lemma checkLibrary_counts fuel a st ok st' :
  running h0 n st → checkLibrary fuel a st = (Return ok, st') →
  running h0 n st' ∧
  probeCount (trace st') = probeCount (trace st) + length (newNames h0 (allLibsChecked st) [a]) ∧
  allLibsChecked st' = allLibsChecked st ++ newNames h0 (allLibsChecked st) [a].
Proof.
  intros Hrun Hc. pose proof Hrun as [Hh Hb Hl Hen Hm].
  unfold checkLibrary in Hc.
  apply bind_Return in Hc as (lib & ? & [= <- <-] & Hc).
  apply bind_Return in Hc as (done & ? & [= <- <-] & Hc).
  rewrite Hh in Hc. simpl. unfold external.
  destruct (bool_decide_reflect (a ∈ checkDone st)) as [Hdone|Hdone].
  { injection Hc as <- <-. split; [done|].
    apply Hm in Hdone.
    rewrite (bool_decide_eq_false_2 (name (h0 a) ∉ allLibsChecked st)) by tauto.
    rewrite andb_false_r. simpl. by rewrite Nat.add_0_r, app_nil_r. }
  destruct (sconsNode (h0 a)) as [node|] eqn:Hnode.
  { injection Hc as <- <-. split; [done|]. simpl. by rewrite Nat.add_0_r, app_nil_r. }
  apply bind_Return in Hc as (checked & ? & [= <- <-] & Hc). simpl.
  destruct (bool_decide_reflect (name (h0 a) ∈ allLibsChecked st)) as [Hchecked|Hchecked].
  { apply bind_Return in Hc as ([] & ? & [= <-] & Hc). injection Hc as <- <-.
    rewrite (bool_decide_eq_false_2 (name (h0 a) ∉ allLibsChecked st)) by tauto.
    simpl. rewrite Nat.add_0_r, app_nil_r. split; [|done].
    constructor; try done. simpl. intros b [->%elem_of_singleton|Hb']%elem_of_union.
    - done.
    - by apply Hm. }
  rewrite (bool_decide_eq_true_2 (name (h0 a) ∉ allLibsChecked st)) by done.
  simpl. unfold bind at 1 in Hc. rewrite (needCheck_enabled st Hen) in Hc.
  simpl in Hc.
  apply bind_Return in Hc as (cs & st1 & Hprobe & Hc).
  apply bind_Return in Hc as ([] & ? & [= <-] & Hc).
  apply bind_Return in Hc as ([] & ? & [= <-] & Hc). injection Hc as <- <-.
  destruct (counts_probeLibrary fuel a st cs st1 (running_inv st Hrun) Hprobe)
    as (Hstep & Hcount & _).
  destruct (running_step st st1 Hrun Hstep) as (Hh1 & Hb1 & Hl1 & Hen1 & Hdone1 & Hchecked1).
  simpl. rewrite Hchecked1. split; [|done].
  constructor; try done. simpl. rewrite Hdone1, Hchecked1.
  intros b [->%elem_of_singleton|Hb']%elem_of_union; apply elem_of_app.
  - right. by apply list_elem_of_singleton.
  - left. by apply Hm.
Qed.

Lemma newNames_cons h checked a rest :
  newNames h checked (a :: rest) =
  newNames h checked [a] ++ newNames h (checked ++ newNames h checked [a]) rest.
Proof.
  simpl. destruct (external h a && bool_decide (name (h a) ∉ checked)); [done|].
  by rewrite app_nil_r.
Qed.

Lemma checkLibraries_counts fuel requests acc st oks st' :
  running h0 n st →
  foldM (λ acc a, bind (checkLibrary fuel a) (λ ok, ret (acc ++ [ok])))
    acc requests st = (Return oks, st') →
  running h0 n st' ∧
  probeCount (trace st') =
    probeCount (trace st) + length (newNames h0 (allLibsChecked st) requests) ∧
  allLibsChecked st' = allLibsChecked st ++ newNames h0 (allLibsChecked st) requests.
Proof.
  revert acc st. induction requests as [|a rest IH]; intros acc st Hrun Hc.
  - injection Hc as <- <-. simpl. by rewrite Nat.add_0_r, app_nil_r.
  - simpl in Hc. apply bind_Return in Hc as (acc' & st1 & Hone & Hc).
    apply bind_Return in Hone as (ok & st1' & Hone & [= <- <-]).
    destruct (checkLibrary_counts _ _ _ _ _ Hrun Hone) as (Hrun1 & Hcount1 & Hchecked1).
    destruct (IH _ _ Hrun1 Hc) as (Hrun' & Hcount' & Hchecked').
    rewrite newNames_cons, length_app, <- Hchecked1. split; [done|].
    split; [lia|]. by rewrite Hchecked', Hchecked1, app_assoc.
Qed.

End Counting.

(** The names added by a run are the new names of the external libraries
    requested, each once. *)
Lemma newNames_spec h checked requests :
  NoDup (newNames h checked requests) ∧
  ∀ x, x ∈ newNames h checked requests ↔
       (x ∉ checked) ∧
       (x ∈ (λ a, name (h a)) <$> filter (λ a, external h a = true) requests).
Proof.
  revert checked. induction requests as [|a rest IH]; intros checked.
  - split; [constructor|]. intros x. simpl. rewrite elem_of_nil. tauto.
  - destruct (IH checked) as [Hnd Hin].
    destruct (IH (checked ++ [name (h a)])) as [Hnd' Hin'].
    cbn [newNames]. rewrite filter_cons.
    destruct (external h a) eqn:Hext.
    + rewrite decide_True by done. rewrite fmap_cons, andb_true_l.
      destruct (bool_decide_reflect (name (h a) ∉ checked)) as [Hnew|Hold].
      * split.
        -- constructor; [|done]. rewrite Hin'. rewrite elem_of_app, list_elem_of_singleton.
           tauto.
        -- intros x. rewrite !elem_of_cons, Hin', elem_of_app, list_elem_of_singleton.
           destruct (decide (x = name (h a))) as [->|Hne]; tauto.
      * split; [done|]. intros x. rewrite Hin, elem_of_cons.
        destruct (decide (x = name (h a))) as [->|Hne]; tauto.
    + rewrite decide_False by done. done.
Qed.

Lemma newNames_length h requests :
  length (newNames h [] requests) =
  length (remove_dups ((λ a, name (h a)) <$> filter (λ a, external h a = true) requests)).
Proof.
  destruct (newNames_spec h [] requests) as [Hnd Hin].
  apply Permutation_length, NoDup_Permutation; [done|apply NoDup_remove_dups|].
  intros x. rewrite Hin, elem_of_remove_dups, elem_of_nil. tauto.
Qed.

(** Where the name of a library decides its id, there are as many
    [(name, id)] pairs as names. *)
Lemma distinct_keys_names h (l : list addr) :
  (∀ a b, a ∈ l → b ∈ l → name (h a) = name (h b) → id (h a) = id (h b)) →
  length (remove_dups (libKey h <$> l)) =
  length (remove_dups ((λ a, name (h a)) <$> l)).
Proof.
  intros Hid. rewrite <- (length_fmap fst (remove_dups (libKey h <$> l))).
  apply Permutation_length, NoDup_Permutation; [|apply NoDup_remove_dups|].
  - apply NoDup_fmap_2_strong; [|apply NoDup_remove_dups].
    intros [n1 i1] [n2 i2].
    rewrite !elem_of_remove_dups, !list_elem_of_fmap.
    intros (a & Ha & Hina) (b & Hb & Hinb) Hfst. unfold libKey in *. simplify_eq/=.
    f_equal. by apply Hid.
  - intros x. rewrite elem_of_remove_dups, !list_elem_of_fmap. split.
    + intros ([n1 i1] & -> & Hk). rewrite elem_of_remove_dups, list_elem_of_fmap in Hk.
      destruct Hk as (a & Ha & Hina). unfold libKey in Ha. simplify_eq/=. by exists a.
    + intros (a & -> & Hina). exists (libKey h a). split; [done|].
      rewrite elem_of_remove_dups, list_elem_of_fmap. by exists a.
Qed.

(** The probes of a run depend on names alone: one per distinct name of
    an external library requested. *)
Lemma probes_by_distinct_names (fuel : nat) (requests : list addr)
    (st st' : Project) (oks : list bool) :
  checkDone st = ∅ → allLibsChecked st = [] →
  env st < length (envs st) → checkEnabled st →
  checkLibraries fuel requests st = (Return oks, st') →
  probeCount (trace st') =
    probeCount (trace st) +
    length (remove_dups ((λ a, name (heap st a)) <$>
              filter (λ a, external (heap st) a = true) requests)).
Proof.
  intros Hdone Hchecked Hbase Hen Hrun.
  destruct (checkLibraries_counts (heap st) (length (envs st)) fuel requests [] st oks st')
    as (_ & Hcount & _); [|done|].
  { constructor; try done. intros a. rewrite Hdone. by rewrite elem_of_empty. }
  by rewrite Hcount, Hchecked, newNames_length.
Qed.

(** C1, as the code has it: when checking is enabled and nothing has been
    checked yet, a run of [checkLibrary] over requests in which libraries
    of the same name have the same id makes as many probes as there are
    distinct [(name, id)] pairs among the requested libraries without
    [sconsNode], however often each is requested. *)
Theorem checkLibraries_probe_count (fuel : nat) (requests : list addr)
    (st st' : Project) (oks : list bool) :
  checkDone st = ∅ → allLibsChecked st = [] →
  env st < length (envs st) → checkEnabled st →
  (∀ a b, a ∈ requests → b ∈ requests →
     external (heap st) a = true → external (heap st) b = true →
     name (heap st a) = name (heap st b) → id (heap st a) = id (heap st b)) →
  checkLibraries fuel requests st = (Return oks, st') →
  probeCount (trace st') =
    probeCount (trace st) +
    length (remove_dups (libKey (heap st) <$>
              filter (λ a, external (heap st) a = true) requests)).
Proof.
  intros Hdone Hchecked Hbase Hen Hid Hrun.
  rewrite (probes_by_distinct_names fuel requests st st' oks) by done.
  f_equal. symmetry. apply distinct_keys_names.
  intros a b [Ha Hina]%list_elem_of_filter [Hb Hinb]%list_elem_of_filter. by apply Hid.
Qed.

(** ** Failures while an environment is completed *)

Lemma failedIn_app tr1 tr2 l a :
  failedIn (tr1 ++ tr2) l a = failedIn tr1 l a || failedIn tr2 l a.
Proof. unfold failedIn. apply existsb_app. Qed.

Lemma failedIn_silent tr l a : Forall (silent l) tr → failedIn tr l a = false.
Proof.
  unfold failedIn. induction 1 as [|ev tr Hev _ IH]; [done|].
  simpl. by rewrite Hev, IH.
Qed.

Lemma processedIn_mono tr1 tr2 tr3 l name_ h a :
  processedIn tr2 l name_ h a → processedIn (tr1 ++ tr2 ++ tr3) l name_ h a.
Proof.
  assert (Hin : ∀ ev, ev ∈ tr2 → ev ∈ tr1 ++ tr2 ++ tr3).
  { intros ev Hev. rewrite !elem_of_app. tauto. }
  intros [Hw|(ok & Hc & Hk)]; [left; by apply Hin|right].
  exists ok. split; [by apply Hin|]. intros Hok.
  destruct (Hk Hok) as [ok' Hok']. exists ok'. by apply Hin.
Qed.

Lemma sameMissing_refl (l : loc) (e : Env) : sameMissing l e e.
Proof. done. Qed.

Lemma sameMissing_trans (l : loc) (e1 e2 e3 : Env) :
  sameMissing l e1 e2 → sameMissing l e2 e3 → sameMissing l e1 e3.
Proof. unfold sameMissing. congruence. Qed.

Lemma step_events n U (P P' : Event → Prop) q st st' :
  (∀ ev, P ev → P' ev) → step n U P q st st' → step n U P' q st st'.
Proof.
  intros HP [? ? ? ? ? ? ? ? (tr & Htr & Hall) ?]. constructor; try done.
  exists tr. split; [done|]. eapply Forall_impl; eauto.
Qed.

Lemma callConfigure_trace a l st ok st' :
  callConfigure a l st = (Return ok, st') → trace st' = trace st ++ [EvConfigure a l ok].
Proof. unfold callConfigure, bind, gets, envGet, envUpdate, modify, log. by intros [= <- <-]. Qed.

Lemma callCheck_trace a l st ok st' :
  callCheck a l st = (Return ok, st') → trace st' = trace st ++ [EvCheck a l ok].
Proof. unfold callCheck, bind, gets, envGet, envUpdate, modify, log. by intros [= <- <-]. Qed.

Section PartialFailure.
Variable h0 : Heap.
Variable n : nat.
Variable l : loc.
Hypothesis l_below : l < n.

(** Steps that tell no failure on [l] and keep the missing dependencies
    recorded in the environments below [n]. *)
Local Abbreviation gentle := (respects (inv h0 n) (step n sameMissing (silent l) false)).
Local Abbreviation moves := (step n sameMissing (λ _, True) false).

Local Ltac side :=
  try done; try apply sameMissing_refl; try apply sameMissing_trans; try (by left).

Lemma probeEvent_silent ev : probeEvent n ev → silent l ev.
Proof.
  intros Hev a. destruct ev as [| | | |a' l' ok| |a' l' ok| | | | | | | | | |]; try done.
  - destruct ok; [done|]. simpl in *.
    rewrite (proj2 (Nat.eqb_neq l' l)) by lia. apply andb_false_r.
  - destruct ok; [done|]. simpl in *.
    rewrite (proj2 (Nat.eqb_neq l' l)) by lia. apply andb_false_r.
Qed.

Lemma moves_trans st1 st2 st3 : moves st1 st2 → moves st2 st3 → moves st1 st3.
Proof.
  intros H1 H2.
  eapply step_trans; eauto using sameMissing_refl, sameMissing_trans.
Qed.

Lemma gentle_moves {A} (c : M A) (φ : A → Prop) st a st' :
  gentle c φ → inv h0 n st → c st = (Return a, st') →
  moves st st' ∧ φ a ∧ ∃ tr, trace st' = trace st ++ tr ∧ Forall (silent l) tr.
Proof.
  intros Hc HI Hrun. destruct (Hc _ _ _ HI Hrun) as [Hstep Hφ].
  split; [by eapply step_events|]. split; [by apply Hφ|]. apply Hstep.
Qed.

Local Abbreviation turnEvents := (turnEvents l).

Lemma failedIn_turn tr a ok0 ok1 ok2 b :
  Forall (silent l) tr →
  failedIn (tr ++ turnEvents a ok0 ok1 ok2) l b =
  Nat.eqb a b && negb (ok0 && ok1 && (if ok1 then ok2 else true)).
Proof.
  intros Htr. rewrite failedIn_app, failedIn_silent by done.
  unfold turnEvents, failedIn.
  destruct ok0, ok1, ok2; simpl; rewrite ?Nat.eqb_refl; by destruct (a =? b).
Qed.

Lemma processedIn_turn tr a ok0 ok1 ok2 name_ :
  processedIn (tr ++ turnEvents a ok0 ok1 ok2) l name_ h0 a.
Proof.
  right. exists ok1. split.
  - apply elem_of_app. right. unfold turnEvents. apply elem_of_cons. right. by left.
  - intros ->. exists ok2. apply elem_of_app. right. unfold turnEvents.
    do 3 (apply elem_of_cons; right). by left.
Qed.

(** One turn of the loop: the library has its turn, whatever it answers,
    and it alone may join the local list of failures. *)
Lemma checkOne_run fuel name_ errs a level st errs' st' :
  inv h0 n st →
  keepsKey missingKey (λ e, (configure (h0 a) e).1) →
  keepsKey missingKey (λ e, (check (h0 a) e).1) →
  checkOne fuel l name_ errs (a, level) st = (Return errs', st') →
  ∃ tr, trace st' = trace st ++ tr ∧ moves st st' ∧
    processedIn tr l name_ h0 a ∧
    (∀ b, b ≠ a → failedIn tr l b = false) ∧
    errs' = errs ++ (if failedIn tr l a then [a] else []).
Proof.
  intros HI Hcfg Hchk Hrun. unfold checkOne in Hrun. simpl in Hrun.
  apply bind_Return in Hrun as (lib & ? & [= <- <-] & Hrun).
  apply bind_Return in Hrun as (e & ? & [= <- <-] & Hrun).
  pose proof HI as [Hh Hn]. rewrite Hh in Hrun.
  destruct (enabled (h0 a) (env_at st l)); simpl in Hrun.
  - apply bind_Return in Hrun as (ok0 & st1 & Hcl & Hrun).
    apply bind_Return in Hrun as ([] & st2 & Hlog & Hrun).
    apply bind_Return in Hrun as (ok1 & st3 & Hcf & Hrun).
    apply bind_Return in Hrun as (ok2 & st4 & Hck & Hrun).
    destruct (gentle_moves (checkLibrary fuel a) (λ _, True) st ok0 st1)
      as (Hm1 & _ & tr1 & Htr1 & Hs1); side.
    { apply steps_checkLibrary; side. intros ev Hev. by apply probeEvent_silent. }
    assert (HI1 : inv h0 n st1) by (eapply inv_stable; eauto).
    assert (Hm2 : moves st1 st2).
    { eapply (steps_log h0 n sameMissing (λ _, True) false); side. }
    assert (Htr2 : trace st2 = trace st1 ++ [EvCheckLibrary a ok0]).
    { by injection Hlog as <-. }
    assert (HI2 : inv h0 n st2) by (eapply inv_stable; eauto).
    assert (Hm3 : moves st2 st3).
    { eapply (steps_callConfigure h0 n sameMissing (λ _, True) false); side.
      right. intros e'. apply Hcfg. }
    pose proof (callConfigure_trace _ _ _ _ _ Hcf) as Htr3.
    assert (HI3 : inv h0 n st3) by (eapply inv_stable; eauto).
    assert (Hturn : moves st3 st4 ∧
              trace st4 = trace st3 ++
                (if ok1 then [EvConfigureContext l; EvCheck a l ok2; EvFinish l] else []) ∧
              (ok1 = false → ok2 = true)).
    { destruct ok1.
      - apply bind_Return in Hck as ([] & st5 & Hlog5 & Hck).
        apply bind_Return in Hck as (ok & st6 & Hck6 & Hck).
        apply bind_Return in Hck as ([] & st7 & Hlog7 & Hck).
        injection Hck as <- <-.
        assert (Hm5 : moves st3 st5).
        { eapply (steps_log h0 n sameMissing (λ _, True) false); side. }
        assert (HI5 : inv h0 n st5) by (eapply inv_stable; eauto).
        assert (Hm6 : moves st5 st6).
        { eapply (steps_callCheck h0 n sameMissing (λ _, True) false); side.
          right. intros e'. apply Hchk. }
        assert (HI6 : inv h0 n st6) by (eapply inv_stable; eauto).
        assert (Hm7 : moves st6 st7).
        { eapply (steps_log h0 n sameMissing (λ _, True) false); side. }
        split; [eauto using moves_trans|]. split; [|done].
        injection Hlog7 as <-. simpl. rewrite (callCheck_trace _ _ _ _ _ Hck6).
        injection Hlog5 as <-. simpl. by rewrite <- !app_assoc.
      - injection Hck as <- <-. split; [apply step_refl; side|].
        split; [by rewrite app_nil_r|done]. }
    destruct Hturn as (Hm4 & Htr4 & Hok2).
    assert (Hend : st' = st4 ∧
              errs' = if ok0 && ok1 && ok2 then errs else errs ++ [a]).
    { destruct (ok0 && ok1 && ok2); by injection Hrun as <- <-. }
    destruct Hend as [-> ->].
    exists (tr1 ++ turnEvents a ok0 ok1 ok2). split.
    { rewrite Htr4, Htr3, Htr2, Htr1. unfold turnEvents. by rewrite <- !app_assoc. }
    split; [eauto using moves_trans|]. split; [apply processedIn_turn|].
    split.
    + intros b Hb. rewrite failedIn_turn by done.
      by rewrite (proj2 (Nat.eqb_neq a b)) by done.
    + rewrite failedIn_turn by done. rewrite Nat.eqb_refl. simpl.
      assert (Hok : ok0 && ok1 && (if ok1 then ok2 else true) = ok0 && ok1 && ok2).
      { destruct ok1; [done|]. by rewrite Hok2. }
      rewrite Hok.
      destruct (ok0 && ok1 && ok2); simpl; [by rewrite app_nil_r|done].
  - apply bind_Return in Hrun as ([] & st1 & Hlog & Hrun). injection Hrun as <- <-.
    exists [EvWrite (withoutMessage name_ (name (h0 a)))]. split.
    { by injection Hlog as <-. }
    split.
    { eapply (steps_log h0 n sameMissing (λ _, True) false); side. }
    split; [left; by left|]. split; [done|]. simpl. by rewrite app_nil_r.
Qed.

Lemma filter_ext_elem {A} (P Q : A → Prop) `{∀ x, Decision (P x)} `{∀ x, Decision (Q x)}
    (xs : list A) :
  (∀ x, x ∈ xs → (P x ↔ Q x)) → filter P xs = filter Q xs.
Proof.
  induction xs as [|x xs IH]; intros Hext; [done|].
  rewrite !filter_cons. rewrite IH by (intros y Hy; apply Hext; by right).
  destruct (decide (P x)) as [HP|HP]; destruct (decide (Q x)) as [HQ|HQ]; try done;
    exfalso; apply (Hext x) in HP || apply (Hext x) in HQ; try done; by left.
Qed.

(** The checking loop: every library has its turn, and the local list of
    failures receives the libraries that failed, in the order of the list. *)
Lemma checkLoop_run fuel name_ entries errs st errs' st' :
  inv h0 n st → NoDup (entries.*1) →
  (∀ p, p ∈ entries →
     keepsKey missingKey (λ e, (configure (h0 p.1) e).1) ∧
     keepsKey missingKey (λ e, (check (h0 p.1) e).1)) →
  foldM (checkOne fuel l name_) errs entries st = (Return errs', st') →
  ∃ tr, trace st' = trace st ++ tr ∧ moves st st' ∧
    (∀ p, p ∈ entries → processedIn tr l name_ h0 p.1) ∧
    (∀ b, b ∉ entries.*1 → failedIn tr l b = false) ∧
    errs' = errs ++ filter (λ a, failedIn tr l a = true) (entries.*1).
Proof.
  revert errs st. induction entries as [|[a level] rest IH]; intros errs st HI Hnd Hkeep Hrun.
  - injection Hrun as <- <-. exists []. rewrite !app_nil_r.
    split; [done|]. split; [apply step_refl; side|]. split; [|done].
    intros p Hp. by apply elem_of_nil in Hp.
  - simpl in Hrun. apply bind_Return in Hrun as (errs1 & st1 & Hone & Hrun).
    rewrite fmap_cons in Hnd. apply NoDup_cons in Hnd as [Ha Hnd].
    destruct (Hkeep (a, level)) as [Hcfg Hchk]; [by left|].
    destruct (checkOne_run _ _ _ _ _ _ _ _ HI Hcfg Hchk Hone)
      as (tr_a & Htr_a & Hm_a & Hp_a & Hothers & Herrs1).
    assert (HI1 : inv h0 n st1) by (eapply inv_stable; eauto).
    destruct (IH errs1 st1 HI1 Hnd) as (tr_r & Htr_r & Hm_r & Hp_r & Hout & Herrs');
      [intros p Hp; apply Hkeep; by right|done|].
    assert (Hrest_a : failedIn tr_r l a = false) by (by apply Hout).
    exists (tr_a ++ tr_r). split; [by rewrite Htr_r, Htr_a, app_assoc|].
    split; [eauto using moves_trans|]. split; [|split].
    + intros p [->|Hp]%elem_of_cons.
      * by apply (processedIn_mono [] tr_a tr_r).
      * rewrite <- (app_nil_r tr_r). apply processedIn_mono. by apply Hp_r.
    + intros b Hb. rewrite fmap_cons, not_elem_of_cons in Hb. destruct Hb as [Hne Hb].
      rewrite failedIn_app, Hothers, Hout by done. done.
    + rewrite Herrs', Herrs1, fmap_cons, filter_cons. simpl.
      rewrite failedIn_app, Hrest_a, orb_false_r.
      assert (Hfilter : filter (λ b, failedIn (tr_a ++ tr_r) l b = true) rest.*1 =
                        filter (λ b, failedIn tr_r l b = true) rest.*1).
      { apply filter_ext_elem. intros b Hb. rewrite failedIn_app.
        rewrite Hothers; [done|]. intros ->. done. }
      rewrite Hfilter.
      destruct (failedIn tr_a l a); simpl.
      * by rewrite <- app_assoc.
      * by rewrite app_nil_r.
Qed.

(** Recording failures in [libs_error] touches nothing else. *)
Lemma recordErrors_run errs st o st' :
  forM_ errs recordError st = (o, st') →
  o = Return tt ∧ heap st' = heap st ∧ envs st' = envs st ∧ trace st' = trace st.
Proof.
  revert st. induction errs as [|a errs IH]; intros st Hrun.
  - by injection Hrun as <- <-.
  - simpl in Hrun. unfold bind in Hrun. simpl in Hrun.
    destruct (IH _ Hrun) as (-> & -> & -> & ->). done.
Qed.

Lemma env_at_insert st st' k v :
  l < length (envs st) → envs st' = alter (<[k := v]>) l (envs st) →
  env_at st' l !! k = Some v.
Proof.
  intros Hl Henvs. unfold env_at. rewrite Henvs, list_lookup_alter_eq.
  apply lookup_lt_is_Some in Hl as [e He]. rewrite He. simpl.
  apply lookup_insert_eq.
Qed.

(** The checking block: the key [SconsProject_missingDependencies] of [l]
    receives the names of the libraries that failed, after what it held. *)
Lemma configureLibs_run fuel name_ allLibs st st' :
  inv h0 n st → NoDup (allLibs.*1) →
  (∀ p, p ∈ allLibs →
     keepsKey missingKey (λ e, (configure (h0 p.1) e).1) ∧
     keepsKey missingKey (λ e, (check (h0 p.1) e).1)) →
  configureLibs fuel l name_ allLibs st = (Return tt, st') →
  inv h0 n st' ∧
  ∃ tr, trace st' = trace st ++ tr ∧
    (∀ p, p ∈ allLibs → processedIn tr l name_ h0 p.1) ∧
    env_at st' l !! missingKey =
      Some (VList (missingOf st l ++
        (VStr <$> ((λ a, name (h0 a)) <$>
           filter (λ a, failedIn tr l a = true) (allLibs.*1))))).
Proof.
  intros HI Hnd Hkeep Hrun. unfold configureLibs in Hrun.
  apply bind_Return in Hrun as (errs & st1 & Hloop & Hrun).
  destruct (checkLoop_run _ _ _ _ _ _ _ HI Hnd Hkeep Hloop)
    as (tr & Htr & Hm & Hp & _ & Herrs).
  assert (HI1 : inv h0 n st1) by (eapply inv_stable; eauto).
  pose proof HI1 as [Hh1 Hn1].
  pose proof (step_envs _ _ _ _ _ _ Hm l l_below) as Hsame. unfold sameMissing in Hsame.
  apply bind_Return in Hrun as (e & ? & [= <- <-] & Hrun).
  apply bind_Return in Hrun as ([] & st2 & Hwhen & Hrun).
  apply bind_Return in Hrun as (e' & ? & [= <- <-] & Hrun).
  apply bind_Return in Hrun as ([] & st3 & Hext & Hrun).
  apply recordErrors_run in Hrun as (_ & Hh' & He' & Ht').
  assert (H2 : heap st2 = h0 ∧ length (envs st2) = length (envs st1) ∧
               trace st2 = trace st1 ∧
               ∃ old, env_at st2 l !! missingKey = Some old ∧
                 (∀ o, old = VList o → o = missingOf st l)).
  { destruct (env_at st1 l !! missingKey) as [old|] eqn:Hold.
    - rewrite bool_decide_eq_false_2 in Hwhen by done. injection Hwhen as <-.
      split; [done|]. split; [done|]. split; [done|]. exists old. split; [done|].
      intros o ->. unfold missingOf. by rewrite <- Hsame.
    - rewrite bool_decide_eq_true_2 in Hwhen by done. injection Hwhen as <-.
      split; [done|]. split; [simpl; by rewrite length_alter|]. split; [done|].
      exists (VList []). split; [eapply env_at_insert; [|done]; lia|].
      intros o [= <-]. unfold missingOf. by rewrite <- Hsame. }
  destruct H2 as (Hh2 & Hl2 & Ht2 & old & Hold & Hmissing).
  rewrite Hold in Hext. destruct old as [| | | |old]; try done.
  apply bind_Return in Hext as (h & ? & [= <- <-] & Hext). injection Hext as <-.
  simpl in Hh', He', Ht'. split.
  { split; [congruence|]. rewrite He', length_alter. lia. }
  exists tr. split; [congruence|]. split; [done|].
  rewrite (env_at_insert st2 st' _ _ ltac:(lia) He').
  rewrite Hh2, (Hmissing old eq_refl), Herrs. done.
Qed.

End PartialFailure.

Lemma color_keys_not_missing c : c ∈ color_keys → c ≠ missingKey.
Proof.
  intros Hc ->. revert Hc. unfold color_keys, missingKey.
  rewrite !elem_of_cons, elem_of_nil. intros Hc.
  repeat (destruct Hc as [Hc|Hc]; [done|]). done.
Qed.


(** ** Targets without sources, internal libraries, empty requests *)

(** C6: a library whose [sconsNode] is set is verified without a probe:
    [checkLibrary] answers [True] and the state, trace included, is the
    one it started from, so no configure context is opened and no check
    is run. *)
Theorem checkLibrary_internal_trusted (fuel : nat) (a : addr) (node : Node)
    (st : Project) :
  sconsNode (heap st a) = Some node →
  checkLibrary fuel a st = (Return true, st).
Proof.
  intros Hnode. unfold checkLibrary, bind, gets.
  destruct (bool_decide (a ∈ checkDone st)); [done|]. by rewrite Hnode.
Qed.

(** C10: with an empty list of libraries [appendLibsToEnv] returns the
    environment it was given and changes nothing: no key, no check, no
    entry of [libs_error]. *)
Theorem appendLibsToEnv_nil (fuel : nat) (l : loc) (name_ : string) (st : Project) :
  appendLibsToEnv fuel l [] name_ st = (Return l, st).
Proof. reflexivity. Qed.

(** C8: a target declared without any source file raises at once, the
    project being left as it was: no environment is created or changed and
    nothing is built. *)
Theorem no_sources_raises (fuel : nat) (args : TargetArgs) (st : Project) :
  (sourcesFiles args = [] →
     StaticLibrary fuel args st = (Raise (noSources (target args)), st) ∧
     SharedLibrary fuel args st = (Raise (noSources (target args)), st) ∧
     Program fuel args st = (Raise (noSources (target args)), st) ∧
     UnitTest fuel args st =
       (Raise (noSources (py_str_list (testTarget args))), st)) ∧
  (scriptFiles args = [] →
     ScriptTests fuel args st =
       (Raise (noSources (py_str_list (testTarget args))), st)).
Proof.
  split.
  - intros Hnone. unfold StaticLibrary, SharedLibrary, Program, UnitTest.
    rewrite Hnone. done.
  - intros Hnone. unfold ScriptTests. rewrite Hnone. done.
Qed.

(** ** Degraded targets *)

(** A target whose environment carries missing dependencies is recorded
    in [removedFromDefaultTargets] and is not added to the alias [all]. *)
Lemma declareTarget_removed (l : loc) (target_ : string)
    (targetName : option string) (missingDeps : Value) (st : Project) :
  env_at st l !! missingKey = Some missingDeps →
  truthy missingDeps = true →
  ∃ st', declareTarget l target_ targetName st = (Return tt, st') ∧
    removedFromDefaultTargets st' !! default target_ (nonEmpty targetName)
      = Some missingDeps ∧
    aliases st' = aliases st ∧ envs st' = envs st.
Proof.
  intros Hmissing Htrue. unfold declareTarget, bind, envGet, gets.
  rewrite Hmissing. simpl. rewrite Htrue. unfold modify.
  eexists. split; [done|]. simpl. split; [|done]. apply lookup_insert_eq.
Qed.

(** A target without missing dependencies joins the alias [all]. *)
Lemma declareTarget_complete (l : loc) (target_ : string)
    (targetName : option string) (st : Project) :
  truthy (default (VList []) (env_at st l !! missingKey)) = false →
  ∃ st', declareTarget l target_ targetName st = (Return tt, st') ∧
    aliases st' !! "all" = Some (default [] (aliases st !! "all") ++ [target_]) ∧
    removedFromDefaultTargets st' = removedFromDefaultTargets st.
Proof.
  intros Hfalse. unfold declareTarget, bind, envGet, gets.
  rewrite Hfalse. unfold Alias, modify.
  eexists. split; [done|]. simpl. split; [|done]. apply lookup_insert_eq.
Qed.

(** ** Script tests *)


End Properties.

(** * Further properties *)

Section UniqueProperties.
Context `{Countable A}.

Lemma unique_loop_elem (seen : gset A) (seq : list A) (x : A) :
  x ∈ unique_loop seen seq ↔ x ∈ seq ∧ x ∉ seen.
Proof.
  revert seen. induction seq as [|y seq IH]; intros seen; simpl.
  - rewrite elem_of_nil. set_solver.
  - case_decide as Hy.
    + rewrite IH, elem_of_cons. split; [tauto|]. intros [[->|Hx] Hn]; [done|tauto].
    + rewrite elem_of_cons, IH, elem_of_cons. split.
      * intros [->|[Hx Hn]]; [tauto|]. split; [tauto|set_solver].
      * intros [[->|Hx] Hn]; [tauto|].
        destruct (decide (x = y)) as [->|Hne]; [tauto|]. right. split; [done|set_solver].
Qed.

Lemma unique_loop_NoDup (seen : gset A) (seq : list A) : NoDup (unique_loop seen seq).
Proof.
  revert seen. induction seq as [|y seq IH]; intros seen; simpl; [constructor|].
  case_decide; [apply IH|]. constructor; [|apply IH].
  rewrite unique_loop_elem. set_solver.
Qed.

Lemma unique_loop_sublist (seen : gset A) (seq : list A) :
  sublist (unique_loop seen seq) seq.
Proof.
  revert seen. induction seq as [|y seq IH]; intros seen; simpl; [constructor|].
  case_decide; [apply sublist_cons, IH|apply sublist_skip, IH].
Qed.

Lemma unique_elem (seq : list A) (x : A) : x ∈ unique seq ↔ x ∈ seq.
Proof.
  unfold unique. rewrite unique_loop_elem. split; [tauto|]. intros Hx.
  split; [done|]. apply not_elem_of_empty.
Qed.

Lemma unique_NoDup (seq : list A) : NoDup (unique seq).
Proof. apply unique_loop_NoDup. Qed.

(** X1: [unique] removes the duplicates and nothing else: its result has
    no element twice, has the elements of its argument, and keeps them in
    the order of the argument. *)
Theorem unique_removes_duplicates (seq : list A) :
  NoDup (unique seq) ∧ (∀ x, x ∈ unique seq ↔ x ∈ seq) ∧ sublist (unique seq) seq.
Proof.
  split; [apply unique_loop_NoDup|]. split; [|apply unique_loop_sublist].
  apply unique_elem.
Qed.

(** X2: what [unique] keeps of an element is its first occurrence: an
    element appended to a list is kept, at the end, only when the list does
    not hold it. *)
Theorem unique_keeps_first_occurrence (seq : list A) (x : A) :
  unique (seq ++ [x]) = if decide (x ∈ seq) then unique seq else unique seq ++ [x].
Proof.
  unfold unique.
  assert (Hgen : ∀ seen : gset A,
    unique_loop seen (seq ++ [x]) =
      if decide (x ∈ seq ∨ x ∈ seen) then unique_loop seen seq
      else unique_loop seen seq ++ [x]).
  { induction seq as [|y seq IH]; intros seen; simpl.
    - repeat case_decide; try done; set_solver.
    - destruct (decide (y ∈ seen)) as [Hy|Hy]; rewrite IH.
      + repeat case_decide; try done; set_solver.
      + repeat case_decide; try done; set_solver. }
  rewrite Hgen. destruct (decide (x ∈ seq)) as [Hx|Hx].
  - by rewrite decide_True by (by left).
  - rewrite decide_False; [done|]. intros [?|Hd]; [done|].
    by apply not_elem_of_empty in Hd.
Qed.

End UniqueProperties.

(** ** Strings *)

Lemma prefix_app a b : String.prefix a (a +:+ b) = true.
Proof.
  induction a as [|c a IH]; simpl; [by destruct b|].
  destruct (Ascii.ascii_dec c c); [done|congruence].
Qed.

Lemma prefix_app_l p a b :
  String.prefix p a = true → String.prefix p (a +:+ b) = true.
Proof.
  revert a. induction p as [|c p IH]; intros a; simpl.
  - intros _. by destruct (a +:+ b).
  - destruct a as [|c' a]; simpl; [done|].
    destruct (Ascii.ascii_dec c c'); [apply IH|done].
Qed.

Lemma py_drop_app a b : py_drop (String.length a) (a +:+ b) = b.
Proof. induction a as [|c a IH]; simpl; [by destruct b|done]. Qed.

Lemma py_drop_app_S a c b :
  py_drop (String.length a + 1) (a +:+ String c EmptyString +:+ b) = b.
Proof.
  induction a as [|c' a IH]; simpl; [by destruct b|done].
Qed.

Lemma py_replace1_prefix old new s :
  String.prefix old s = true →
  py_replace1 old new s = new +:+ py_drop (String.length old) s.
Proof.
  intros Hp. destruct s as [|c s].
  - by destruct old.
  - change (py_replace1 old new (String c s)) with
      (if String.prefix old (String c s)
       then new +:+ py_drop (String.length old) (String c s)
       else String c (py_replace1 old new s)).
    by rewrite Hp.
Qed.

Lemma prefix_slash_not_hash s :
  String.prefix "/" s = true → String.prefix "#" s = false.
Proof.
  destruct s as [|c s]; [done|]. cbn [String.prefix].
  destruct (Ascii.ascii_dec _ c) as [<-|Hne]; [|done]. intros _.
  destruct (Ascii.ascii_dec _ _) as [Heq|]; [discriminate Heq|done].
Qed.

Lemma prefix_nonempty p s : String.prefix p s = true → p ≠ "" → String.eqb s "" = false.
Proof. destruct p, s; simpl; try done. Qed.

Lemma elem_of_concat {A} (x : A) (ls : list (list A)) :
  x ∈ concat ls ↔ ∃ l, x ∈ l ∧ l ∈ ls.
Proof.
  induction ls as [|l ls IH]; simpl.
  - rewrite elem_of_nil. split; [done|]. intros (l & _ & Hl). by apply elem_of_nil in Hl.
  - rewrite elem_of_app, IH. split.
    + intros [Hx|(l' & Hx & Hl')]; [exists l|exists l']; (split; [done|]).
      * by left.
      * by right.
    + intros (l' & Hx & [->|Hl']%elem_of_cons); [by left|]. right. by exists l'.
Qed.

(** The order of [sort] on strings is a total order. *)
Lemma ascii_compare_refl c : Ascii.compare c c = Eq.
Proof. unfold Ascii.compare. apply N.compare_refl. Qed.

Lemma str_le_trans : Transitive str_le.
Proof.
  unfold str_le, String.leb. intros s1.
  induction s1 as [|c1 s1 IH]; intros s2 s3; [by destruct s2, s3|].
  destruct s2 as [|c2 s2]; [done|]. destruct s3 as [|c3 s3]; [by destruct (Ascii.compare c1 c2)|].
  cbn [String.compare]. unfold Ascii.compare.
  destruct (N.compare_spec (Ascii.N_of_ascii c1) (Ascii.N_of_ascii c2)) as [H12|H12|H12];
    destruct (N.compare_spec (Ascii.N_of_ascii c2) (Ascii.N_of_ascii c3)) as [H23|H23|H23];
    destruct (N.compare_spec (Ascii.N_of_ascii c1) (Ascii.N_of_ascii c3)) as [H13|H13|H13];
    try done; try lia.
  apply IH.
Qed.

Lemma str_le_antisym : AntiSymm eq str_le.
Proof. intros a b. apply String.leb_antisym. Qed.

Lemma str_le_total : Total str_le.
Proof. intros a b. apply String.leb_total. Qed.

Lemma py_sorted_sorted l : Sorted str_le l → py_sorted l = l.
Proof.
  intros Hs. apply (@Sorted_unique _ str_le str_le_trans str_le_antisym).
  - apply (@Sorted_merge_sort _ str_le _ str_le_total).
  - done.
  - apply merge_sort_Permutation.
Qed.

Section FilesProperties.
Context `{Layout}.

(** The image of a path of the source tree in the build tree. *)
Lemma inBuildDir_str_source x :
  String.prefix dir_output_build (dir +:+ "/" +:+ x) = false →
  inBuildDir_str (dir +:+ "/" +:+ x) = dir_output_build +:+ "/" +:+ x.
Proof.
  intros Hout. unfold inBuildDir_str. rewrite Hout.
  rewrite py_replace1_prefix by apply prefix_app. by rewrite py_drop_app.
Qed.

(** The path of the source tree that a path of the build tree stands for. *)
Lemma realAbsoluteCwd_build x :
  dir ≠ "" → py_endswith "/" dir = false → posix_isabs dir_output_build = true →
  String.prefix "/" x = false →
  realAbsoluteCwd (dir_output_build +:+ "/" +:+ x) = dir +:+ "/" +:+ x.
Proof.
  intros Hdir Hend Habs Hx. unfold realAbsoluteCwd.
  assert (Hb : String.prefix "/" (dir_output_build +:+ "/" +:+ x) = true).
  { by apply prefix_app_l. }
  rewrite (prefix_nonempty "/" _ Hb) by done.
  rewrite (prefix_slash_not_hash _ Hb). unfold posix_isabs. rewrite Hb, prefix_app.
  rewrite py_drop_app_S. unfold posix_join. rewrite Hx, Hend.
  destruct (String.eqb_spec dir "") as [?|_]; done.
Qed.

(** X3: a path under the project directory that [inBuildDir] maps into
    the build directory is mapped back to itself by [getRealAbsoluteCwd],
    and [inBuildDir] leaves its image as it is. *)
Theorem inBuildDir_round_trip (x : string) :
  dir ≠ "" → py_endswith "/" dir = false → posix_isabs dir_output_build = true →
  String.prefix "/" x = false →
  String.prefix dir_output_build (dir +:+ "/" +:+ x) = false →
  ∃ b, inBuildDir [PathStr (dir +:+ "/" +:+ x)] = Some (PathStr b) ∧
       getRealAbsoluteCwd (PathStr b) = PathStr (dir +:+ "/" +:+ x) ∧
       inBuildDir [PathStr b] = Some (PathStr b).
Proof.
  intros Hdir Hend Habs Hx Hout. exists (dir_output_build +:+ "/" +:+ x).
  split; [|split]; simpl.
  - by rewrite inBuildDir_str_source.
  - by rewrite realAbsoluteCwd_build.
  - unfold inBuildDir_str. by rewrite prefix_app.
Qed.

(** X4: of an absolute path of the source tree [getAllAbsoluteCwd] gives
    the path and its image by [inBuildDir]; of an absolute path of the
    build tree, the path and its image by [getRealAbsoluteCwd]. *)
Theorem getAllAbsoluteCwd_two_trees (x : string) :
  posix_isabs dir = true → py_endswith "/" dir = false →
  posix_isabs dir_output_build = true → py_endswith "/" dir_output_build = false →
  String.prefix "/" x = false →
  String.prefix dir_output_build (dir +:+ "/" +:+ x) = false →
  let s := dir +:+ "/" +:+ x in
  let b := dir_output_build +:+ "/" +:+ x in
  getAllAbsoluteCwd (PathStr s) = Some [s; inBuildDir_str s] ∧
  getAllAbsoluteCwd (PathStr b) = Some [b; realAbsoluteCwd b].
Proof.
  intros Hdabs Hdend Hbabs Hbend Hx Hout s b.
  assert (Hdir : dir ≠ "").
  { intros Heq. unfold posix_isabs in Hdabs. by rewrite Heq in Hdabs. }
  assert (Hbuild : dir_output_build ≠ "").
  { intros Heq. unfold posix_isabs in Hbabs. by rewrite Heq in Hbabs. }
  assert (Hs : String.prefix "/" s = true) by (by apply prefix_app_l).
  assert (Hb : String.prefix "/" b = true) by (by apply prefix_app_l).
  subst s b. split; simpl.
  - rewrite (prefix_nonempty "/" _ Hs) by done.
    rewrite (prefix_slash_not_hash _ Hs). unfold posix_isabs. rewrite Hs.
    rewrite Hout, prefix_app. do 3 f_equal.
    rewrite py_drop_app_S, inBuildDir_str_source by done.
    unfold posix_join. rewrite Hx, Hbend.
    destruct (String.eqb_spec dir_output_build "") as [?|_]; done.
  - rewrite (prefix_nonempty "/" _ Hb) by done.
    rewrite (prefix_slash_not_hash _ Hb). unfold posix_isabs. rewrite Hb.
    rewrite prefix_app. do 3 f_equal.
    rewrite py_drop_app_S, realAbsoluteCwd_build by done.
    unfold posix_join. rewrite Hx, Hdend.
    destruct (String.eqb_spec dir "") as [?|_]; done.
Qed.

(** What the filters of [scanFilesInDir] keep. *)
Lemma reject_filter_elem (reject sources : list string) (a : string) :
  a ∈ foldl (λ sources pattern, filter (λ a, py_contains pattern a = false) sources)
        sources reject ↔
  a ∈ sources ∧ ∀ r, r ∈ reject → py_contains r a = false.
Proof.
  revert sources. induction reject as [|p reject IH]; intros sources; simpl.
  - split; [|tauto]. intros Ha. split; [done|]. intros r Hr. by apply elem_of_nil in Hr.
  - rewrite IH, list_elem_of_filter. split.
    + intros [[Hp Ha] Hrest]. split; [done|]. intros r [->|Hr]%elem_of_cons; auto.
    + intros [Ha Hall]. split; [split; [|done]|].
      * apply Hall. by left.
      * intros r Hr. apply Hall. by right.
Qed.

(** X5: the files that [scanFilesInDir] returns are pairwise distinct,
    and each of them is, made local or moved to the build directory, a file
    that [Glob] found for an accepted pattern and whose path, as [Glob]
    gave it, holds none of the rejected patterns. *)
Theorem scanFilesInDir_sound (directory : string) (accept reject : list string)
    (recursive inBuild : bool) :
  NoDup (scanFilesInDir directory accept reject recursive inBuild) ∧
  ∀ f, f ∈ scanFilesInDir directory accept reject recursive inBuild →
    ∃ src path pattern,
      pattern ∈ accept ∧ src ∈ Glob (posix_join path pattern) ∧
      (∀ r, r ∈ reject → py_contains r src = false) ∧
      f = (if inBuild then inBuildDir_str src else toLocalDirs cdir_srcnode src).
Proof.
  split; [apply unique_NoDup|].
  intros f Hf. unfold scanFilesInDir in Hf.
  rewrite unique_elem in Hf.
  set (paths := if recursive then _ else _) in Hf.
  assert (Hsrc : ∃ src, f = (if inBuild then inBuildDir_str src
                             else toLocalDirs cdir_srcnode src) ∧
            src ∈ foldl (λ sources pattern,
                           filter (λ a, py_contains pattern a = false) sources)
                    (concat ((λ path, concat ((λ pattern, Glob (posix_join path pattern))
                                                <$> accept)) <$> paths)) reject).
  { destruct inBuild; apply list_elem_of_fmap in Hf as (src & -> & Hsrc); by exists src. }
  destruct Hsrc as (src & -> & Hsrc). apply reject_filter_elem in Hsrc as [Hsrc Hrej].
  apply elem_of_concat in Hsrc as (files & Hsrc & Hfiles).
  apply list_elem_of_fmap in Hfiles as (path & -> & Hpath).
  apply elem_of_concat in Hsrc as (found & Hsrc & Hfound).
  apply list_elem_of_fmap in Hfound as (pattern & -> & Hpattern).
  by exists src, path, pattern.
Qed.

(** X6: without [recursive] the directories that [scanFilesInDir] looks
    into are those named by the single characters of the path of the
    directory: when [Glob] finds nothing there for the accepted patterns,
    nothing is returned, whatever the directory holds. *)
Theorem scanFilesInDir_flat_misses (directory : string) (accept reject : list string)
    (inBuild : bool) :
  (∀ c pattern, pattern ∈ accept →
     Glob (posix_join (String c EmptyString) pattern) = []) →
  scanFilesInDir directory accept reject false inBuild = [].
Proof.
  intros Hglob. unfold scanFilesInDir.
  assert (Hchar : ∀ c (ps : list string), (∀ p, p ∈ ps → p ∈ accept) →
            concat ((λ pattern, Glob (posix_join (String c EmptyString) pattern))
                      <$> ps) = []).
  { intros c ps. induction ps as [|p ps IH]; intros Hps; [done|].
    rewrite fmap_cons. cbn [concat].
    rewrite Hglob by (apply Hps; apply list_elem_of_here).
    rewrite IH; [done|]. intros q Hq. apply Hps. by apply list_elem_of_further. }
  assert (Hnone : concat ((λ path, concat ((λ pattern, Glob (posix_join path pattern))
                                             <$> accept))
                            <$> py_chars (realAbsoluteCwd directory)) = []).
  { induction (realAbsoluteCwd directory) as [|c s IH]; [done|].
    change (py_chars (String c s)) with (String c EmptyString :: py_chars s).
    rewrite fmap_cons. cbn [concat]. rewrite IH, app_nil_r. by apply Hchar. }
  rewrite Hnone. clear Hnone.
  assert (Hfold : foldl (λ sources pattern,
                           filter (λ a, py_contains pattern a = false) sources)
                    ([] : list string) reject = []).
  { induction reject as [|r reject IH]; simpl; [done|apply IH]. }
  rewrite Hfold. by destruct inBuild.
Qed.

(** X7: [dirnames] returns the directory names of the files, each once,
    in increasing order; sorting them again, as [subdirsContaining] does,
    changes nothing. *)
Theorem dirnames_sorted (files : list string) :
  Sorted str_le (dirnames files) ∧ NoDup (dirnames files) ∧
  (∀ d, d ∈ dirnames files ↔ ∃ f, f ∈ files ∧ d = dirname f) ∧
  py_sorted (dirnames files) = dirnames files.
Proof.
  assert (Hsorted : Sorted str_le (dirnames files)).
  { apply (@Sorted_merge_sort _ str_le _ str_le_total). }
  assert (Hperm : dirnames files ≡ₚ unique (dirname <$> files)).
  { apply merge_sort_Permutation. }
  split; [done|]. split; [|split].
  - rewrite Hperm. apply unique_NoDup.
  - intros d. rewrite Hperm, unique_elem, list_elem_of_fmap. naive_solver.
  - by apply py_sorted_sorted.
Qed.

(** The last [n] elements of a list, all of it for [n = 0]. *)
Lemma py_last_suffix {A} (n : Z) (v : list A) :
  (0 ≤ n)%Z →
  py_last n v `suffix_of` v ∧
  length (py_last n v) =
    if (n =? 0)%Z then length v else Nat.min (Z.to_nat n) (length v).
Proof.
  intros Hn. unfold py_last. destruct (Z.eqb_spec n 0) as [->|Hne]; [done|].
  destruct (Z.ltb_spec 0 n) as [Hpos|Hneg]; [|lia].
  split; [apply suffix_drop|]. rewrite length_drop. lia.
Qed.

(** X8: [getDirs(n)] gives the last [n] directories of the path of the
    SConscript, all of them when there are fewer, and all of them for
    [n = 0]; [getName(n)] is these directories joined by [_]. *)
Theorem getDirs_parents (n : Z) :
  (0 ≤ n)%Z →
  ∃ r, getDirs (Parents n) = Some r ∧
       r `suffix_of` alldirs ∧
       length r = (if (n =? 0)%Z then length alldirs
                   else Nat.min (Z.to_nat n) (length alldirs)) ∧
       getName n = py_join "_" r.
Proof.
  intros Hn. exists (py_last n alldirs). split; [done|].
  destruct (py_last_suffix n alldirs Hn) as [Hsuffix Hlen].
  split; [done|]. split; [done|].
  unfold getName, py_last. by destruct (n =? 0)%Z.
Qed.

End FilesProperties.

Section GraphProperties.
Context `{Collab}.
Variable h : Heap.

Lemma reaches_trans j k a c d :
  reaches h j a c → reaches h k c d → reaches h (j + k + 1) a d.
Proof.
  revert a. induction j as [|j IH]; intros a; simpl.
  - intros Hac Hcd. rewrite Nat.add_1_r. by exists c.
  - intros (m & Ham & Hmc) Hcd. exists m. split; [done|]. by apply IH.
Qed.

Lemma extendEach_elem {A B} (f : A → option (list B)) xs ll r e :
  extendEach f xs ll = Some r →
  (e ∈ r ↔ e ∈ ll ∨ ∃ x rx, x ∈ xs ∧ f x = Some rx ∧ e ∈ rx).
Proof.
  revert ll. induction xs as [|x xs IH]; intros ll; simpl.
  - intros [= <-]. split; [by left|]. intros [He|(x & rx & Hx & _)]; [done|].
    by apply elem_of_nil in Hx.
  - destruct (f x) as [rx|] eqn:Hfx; [|done]. intros Hrun.
    rewrite (IH _ Hrun), elem_of_app. split.
    + intros [[He|He]|(y & ry & Hy & Hfy & He)].
      * by left.
      * right. exists x, rx. split; [by left|done].
      * right. exists y, ry. split; [by right|done].
    + intros [He|(y & ry & [->|Hy]%elem_of_cons & Hfy & He)].
      * left. by left.
      * left. right. congruence.
      * right. by exists y, ry.
Qed.

Lemma extendEach_each {A B} (f : A → option (list B)) xs ll r x :
  extendEach f xs ll = Some r → x ∈ xs → ∃ rx, f x = Some rx.
Proof.
  revert ll. induction xs as [|y xs IH]; intros ll; simpl.
  - intros _ Hx. by apply elem_of_nil in Hx.
  - destruct (f y) as [ry|] eqn:Hfy; [|done].
    intros Hrun [->|Hx]%elem_of_cons; [by exists ry|]. by eapply IH.
Qed.

(** The entries of [internFindLibDependencies]: the library, at the level
    of the call, and what it reaches, one level deeper by dependency. *)
Lemma internFindLibDependencies_elem fuel a level r d l :
  internFindLibDependencies fuel h (Some a) level = Some r →
  ((d, l) ∈ r ↔ (d = a ∧ l = level) ∨ ∃ k, l = level + 1 + k ∧ reaches h k a d).
Proof.
  revert a level r d l. induction fuel as [|fuel IH]; intros a level r d l; [done|].
  simpl. destruct (extendEach _ _ _) as [ll|] eqn:Hext; [|done]. intros [= <-].
  rewrite elem_of_app, list_elem_of_singleton.
  rewrite (extendEach_elem _ _ _ _ _ Hext). split.
  - intros [[He|(x & rx & Hx & Hfx & He)]|[= -> ->]]; [by apply elem_of_nil in He| |by left].
    right. destruct x as [m|].
    + apply (IH m (S level) rx d l) in Hfx. apply Hfx in He as [[-> ->]|(k & -> & Hk)].
      * exists 0. split; [lia|done].
      * exists (S k). split; [lia|]. by exists m.
    + destruct fuel; [done|]. simpl in Hfx. injection Hfx as <-.
      by apply elem_of_nil in He.
  - intros [[-> ->]|(k & -> & Hk)]; [by right|]. left. right.
    destruct k as [|k]; simpl in Hk.
    + destruct (extendEach_each _ _ _ _ _ Hext Hk) as [rx Hrx].
      exists (Some d), rx. split; [done|]. split; [done|].
      apply (IH d (S level) rx d (level + 1 + 0)) in Hrx. apply Hrx. left.
      split; [done|lia].
    + destruct Hk as (m & Hm & Hk).
      destruct (extendEach_each _ _ _ _ _ Hext Hm) as [rx Hrx].
      exists (Some m), rx. split; [done|]. split; [done|].
      apply (IH m (S level) rx d (level + 1 + S k)) in Hrx. apply Hrx. right.
      exists k. split; [lia|done].
Qed.

Lemma findLibsDependencies_loop_elem fuel libs_ ll r d l :
  findLibsDependencies_loop fuel h libs_ ll = Some r →
  ((d, l) ∈ r ↔ (d, l) ∈ ll ∨ ∃ lib, lib ∈ libs_ ∧ reaches h l lib d).
Proof.
  revert ll. induction libs_ as [|lib libs_ IH]; intros ll; simpl.
  - intros [= <-]. split; [by left|]. intros [?|(lib & Hlib & _)]; [done|].
    by apply elem_of_nil in Hlib.
  - destruct (extendEach _ _ _) as [ll'|] eqn:Hext; [|done]. intros Hrun.
    rewrite (IH _ Hrun), (extendEach_elem _ _ _ _ _ Hext).
    assert (Hlib : (∃ x rx, x ∈ dependencies (h lib) ∧
                      internFindLibDependencies fuel h x 0 = Some rx ∧ (d, l) ∈ rx)
                   ↔ reaches h l lib d).
    { split.
      - intros (x & rx & Hx & Hfx & He). destruct x as [m|].
        + apply (internFindLibDependencies_elem _ _ _ _ d l) in Hfx.
          apply Hfx in He as [[-> ->]|(k & -> & Hk)]; [done|]. by exists m.
        + destruct fuel; [done|]. simpl in Hfx. injection Hfx as <-.
          by apply elem_of_nil in He.
      - intros Hreach. destruct l as [|k]; simpl in Hreach.
        + destruct (extendEach_each _ _ _ _ _ Hext Hreach) as [rx Hrx].
          exists (Some d), rx. split; [done|]. split; [done|].
          apply (internFindLibDependencies_elem _ _ _ _ d 0) in Hrx. apply Hrx. by left.
        + destruct Hreach as (m & Hm & Hk).
          destruct (extendEach_each _ _ _ _ _ Hext Hm) as [rx Hrx].
          exists (Some m), rx. split; [done|]. split; [done|].
          apply (internFindLibDependencies_elem _ _ _ _ d (S k)) in Hrx. apply Hrx.
          right. exists k. split; [lia|done]. }
    rewrite Hlib. split.
    + intros [[He|Hr]|(lib' & Hin & Hr)].
      * by left.
      * right. exists lib. split; [by left|done].
      * right. exists lib'. split; [by right|done].
    + intros [He|(lib' & [->|Hin]%elem_of_cons & Hr)].
      * left. by left.
      * left. by right.
      * right. by exists lib'.
Qed.

(** The dependencies of one library. *)
Lemma findLibsDependencies_one (fuel : nat) (x : addr) (r : list (addr * nat))
    (d : addr) (level : nat) :
  findLibsDependencies fuel h (OneLib x) = Some r →
  ((d, level) ∈ r ↔ reaches h level x d).
Proof.
  intros Hrun. unfold findLibsDependencies in Hrun.
  rewrite (findLibsDependencies_loop_elem _ _ _ _ d level Hrun). simpl. split.
  - intros [He|(lib & ->%list_elem_of_singleton & Hr)]; [by apply elem_of_nil in He|done].
  - intros Hr. right. exists x. split; [apply list_elem_of_here|done].
Qed.

(** X9: the list of [findLibsDependencies] holds exactly the
    dependencies, direct or not, of the libraries it is given: an entry
    [(d, level)] is there when, and only when, [d] is reached from one of
    them along [level + 1] dependencies. *)
Theorem findLibsDependencies_reachable (fuel : nat) (libs : LibsArg)
    (r : list (addr * nat)) (d : addr) (level : nat) :
  findLibsDependencies fuel h libs = Some r →
  ((d, level) ∈ r ↔ ∃ lib, lib ∈ asLibList libs ∧ reaches h level lib d).
Proof.
  intros Hrun. unfold findLibsDependencies in Hrun.
  rewrite (findLibsDependencies_loop_elem _ _ _ _ d level Hrun).
  split; [|by right]. intros [He|Hr]; [by apply elem_of_nil in He|done].
Qed.

(** A call that returns has returned for every dependency, with a smaller
    stack. *)
Lemma internFindLibDependencies_reaches fuel a level r k d :
  internFindLibDependencies fuel h (Some a) level = Some r →
  reaches h k a d →
  ∃ fuel' level' r', fuel' < fuel ∧
    internFindLibDependencies fuel' h (Some d) level' = Some r'.
Proof.
  revert fuel a level r. induction k as [|k IH]; intros fuel a level r Hrun Hreach.
  - destruct fuel as [|fuel]; [done|]. simpl in Hrun, Hreach.
    destruct (extendEach _ _ _) as [ll|] eqn:Hext; [|done].
    destruct (extendEach_each _ _ _ _ _ Hext Hreach) as [rx Hrx].
    exists fuel, (S level), rx. split; [lia|done].
  - destruct fuel as [|fuel]; [done|]. simpl in Hrun.
    destruct Hreach as (m & Hm & Hreach).
    destruct (extendEach _ _ _) as [ll|] eqn:Hext; [|done].
    destruct (extendEach_each _ _ _ _ _ Hext Hm) as [rx Hrx].
    destruct (IH _ _ _ _ Hrx Hreach) as (fuel' & level' & r' & Hlt & Hr').
    exists fuel', level', r'. split; [lia|done].
Qed.

(** On a cycle the recursion has no end. *)
Lemma internFindLibDependencies_cyclic fuel c k level :
  reaches h k c c → internFindLibDependencies fuel h (Some c) level = None.
Proof.
  intros Hcycle. revert level.
  induction (lt_wf fuel) as [fuel _ IH]. intros level.
  destruct (internFindLibDependencies fuel h (Some c) level) as [r|] eqn:Hrun; [|done].
  destruct (internFindLibDependencies_reaches _ _ _ _ _ _ Hrun Hcycle)
    as (fuel' & level' & r' & Hlt & Hr').
  by rewrite (IH fuel' Hlt level') in Hr'.
Qed.

Lemma extendEach_None {A B} (f : A → option (list B)) xs ll x :
  x ∈ xs → f x = None → extendEach f xs ll = None.
Proof.
  revert ll. induction xs as [|y xs IH]; intros ll Hx Hfx; [by apply elem_of_nil in Hx|].
  simpl. apply elem_of_cons in Hx as [->|Hx]; [by rewrite Hfx|].
  destruct (f y); [by apply IH|done].
Qed.

Lemma collectLibs_None fuel libs_ allLibs lib :
  lib ∈ libs_ → findLibsDependencies fuel h (OneLib lib) = None →
  collectLibs fuel h libs_ allLibs = None.
Proof.
  revert allLibs. induction libs_ as [|x libs_ IH]; intros allLibs Hin Hnone;
    [by apply elem_of_nil in Hin|].
  simpl. apply elem_of_cons in Hin as [->|Hin]; [by rewrite Hnone|].
  destruct (findLibsDependencies fuel h (OneLib x)); [by apply IH|done].
Qed.

(** X10: when a requested library lies on a cycle of dependencies, or
    reaches one, the resolution never returns: whatever the depth of the
    stack, it ends in [RecursionError]. *)
Theorem resolvedLibs_cycle_overflows (libs_ : list addr) (lib c : addr) (k : nat) :
  lib ∈ libs_ → (lib = c ∨ ∃ j, reaches h j lib c) → reaches h k c c →
  ∀ fuel, resolvedLibs fuel h libs_ = None.
Proof.
  intros Hlib Hto Hcycle fuel.
  assert (Hlong : ∃ j, reaches h j lib c).
  { destruct Hto as [->|Hto]; [by exists k|done]. }
  destruct Hlong as [j Hj].
  unfold resolvedLibs. rewrite (collectLibs_None fuel libs_ [] lib Hlib); [done|].
  unfold findLibsDependencies. simpl.
  assert (Hdep : ∃ m, Some m ∈ dependencies (h lib) ∧
                   internFindLibDependencies fuel h (Some m) 0 = None).
  { destruct j as [|j]; simpl in Hj.
    - exists c. split; [done|]. by eapply internFindLibDependencies_cyclic.
    - destruct Hj as (m & Hm & Hmc). exists m. split; [done|].
      destruct (internFindLibDependencies fuel h (Some m) 0) as [r|] eqn:Hrun; [|done].
      destruct (internFindLibDependencies_reaches _ _ _ _ _ _ Hrun Hmc)
        as (fuel' & level' & r' & _ & Hr').
      by rewrite (internFindLibDependencies_cyclic fuel' c k level' Hcycle) in Hr'. }
  destruct Hdep as (m & Hm & Hnone).
  by rewrite (extendEach_None _ _ _ (Some m) Hm Hnone).
Qed.

Lemma collectLibs_elem fuel libs_ allLibs r e :
  collectLibs fuel h libs_ allLibs = Some r →
  (e ∈ r ↔ e ∈ allLibs ∨ (e.1 ∈ libs_ ∧ e.2 = 0) ∨
             ∃ lib, lib ∈ libs_ ∧ reaches h e.2 lib e.1).
Proof.
  revert allLibs. induction libs_ as [|x libs_ IH]; intros allLibs; simpl.
  - intros [= <-]. split; [by left|].
    intros [?|[[Hin _]|(lib & Hin & _)]]; [done|by apply elem_of_nil in Hin..].
  - destruct (findLibsDependencies fuel h (OneLib x)) as [libdeps|] eqn:Hdeps; [|done].
    intros Hrun. rewrite (IH _ Hrun), !elem_of_app, list_elem_of_singleton.
    destruct e as [d l]. simpl.
    rewrite (findLibsDependencies_one _ _ _ d l Hdeps).
    split.
    + intros [[He|[Hr|[= -> ->]]]
             |[[Hin ->]|(lib & Hin & Hr)]].
      * by left.
      * right; right. exists x. split; [by left|done].
      * right; left. split; [by left|done].
      * right; left. split; [by right|done].
      * right; right. exists lib. split; [by right|done].
    + intros [He|[[[->|Hin]%elem_of_cons ->]|(lib & [->|Hin]%elem_of_cons & Hr)]].
      * left. by left.
      * left. right. by right.
      * right. by left.
      * left. right. by left.
      * right. right. by exists lib.
Qed.

Lemma uniqLibs_loop_elem x names e :
  e ∈ uniqLibs_loop h x [] names → e ∈ x.
Proof.
  revert names. induction x as [|[s level] rest IH]; intros names; [done|].
  rewrite uniqLibs_loop_cons. case_decide.
  - intros He. right. by eapply IH.
  - intros [->|He]%elem_of_cons; [by left|]. right. by eapply IH.
Qed.

Lemma uniqLibs_loop_covers x names e :
  e ∈ x → libKey h e.1 ∉ names →
  ∃ e', e' ∈ uniqLibs_loop h x [] names ∧ libKey h e'.1 = libKey h e.1.
Proof.
  revert names. induction x as [|[s level] rest IH]; intros names Hin Hnew;
    [by apply elem_of_nil in Hin|].
  rewrite uniqLibs_loop_cons. apply elem_of_cons in Hin as [->|Hin].
  - simpl in Hnew. rewrite decide_False by done. exists (s, level). split; [by left|done].
  - case_decide as Hs; [by apply IH|].
    destruct (decide (libKey h e.1 = libKey h s)) as [Heq|Hne].
    + exists (s, level). split; [by left|done].
    + destruct (IH (names ++ [libKey h s]) Hin) as (e' & He' & Hkey).
      { intros [?|?%list_elem_of_singleton]%elem_of_app; done. }
      exists e'. split; [by right|done].
Qed.

(** Every entry of the resolved list is requested or a dependency. *)
Lemma resolvedLibs_needed (fuel : nat) (libs_ : list addr)
    (res : list (addr * nat)) (a : addr) (level : nat) :
  resolvedLibs fuel h libs_ = Some res → (a, level) ∈ res → needed h libs_ a.
Proof.
  unfold resolvedLibs. destruct (collectLibs fuel h libs_ []) as [raw|] eqn:Hraw; [|done].
  intros [= <-] He. apply uniqLibs_loop_elem in He.
  apply (collectLibs_elem _ _ _ _ (a, level) Hraw) in He
    as [He|[[Hin _]|(lib & Hin & Hr)]]; [by apply elem_of_nil in He|by left|].
  right. by exists lib, level.
Qed.

(** Every library that is requested or a dependency has an entry with its
    [(name, id)] pair. *)
Lemma resolvedLibs_covers (fuel : nat) (libs_ : list addr)
    (res : list (addr * nat)) (a : addr) :
  resolvedLibs fuel h libs_ = Some res → needed h libs_ a →
  ∃ b level, (b, level) ∈ res ∧ libKey h b = libKey h a.
Proof.
  unfold resolvedLibs. destruct (collectLibs fuel h libs_ []) as [raw|] eqn:Hraw; [|done].
  intros [= <-] Ha.
  assert (Hin : ∃ level, (a, level) ∈ raw).
  { destruct Ha as [Ha|(lib & k & Hlib & Hr)].
    - exists 0. apply (collectLibs_elem _ _ _ _ (a, 0) Hraw). right. by left.
    - exists k. apply (collectLibs_elem _ _ _ _ (a, k) Hraw). right. right.
      by exists lib. }
  destruct Hin as [level Hin].
  destruct (uniqLibs_loop_covers raw [] (a, level) Hin) as ([b lv] & Hb & Hkey).
  { apply not_elem_of_nil. }
  by exists b, lv.
Qed.

(** A dependency of a library that is needed is needed. *)
Lemma needed_dependency (libs_ : list addr) (a d : addr) :
  needed h libs_ a → Some d ∈ dependencies (h a) → needed h libs_ d.
Proof.
  intros [Ha|(lib & k & Hlib & Hr)] Hd; right.
  - by exists a, 0.
  - exists lib, (k + 0 + 1). split; [done|]. by eapply reaches_trans.
Qed.

(** X11: the resolved list of [appendLibsToEnv] holds the requested
    libraries and their dependencies, direct or not, and nothing else:
    every entry is one of them, and each of them has an entry with its
    [(name, id)] pair. *)
Theorem resolvedLibs_complete (fuel : nat) (libs_ : list addr)
    (res : list (addr * nat)) :
  resolvedLibs fuel h libs_ = Some res →
  (∀ a level, (a, level) ∈ res → needed h libs_ a) ∧
  (∀ a, needed h libs_ a →
     ∃ b level, (b, level) ∈ res ∧ libKey h b = libKey h a).
Proof.
  intros Hres. split.
  - intros a level. by apply (resolvedLibs_needed fuel).
  - intros a. by apply (resolvedLibs_covers fuel).
Qed.

End GraphProperties.

(** C2, as the code has it: in an acyclic dependency graph the resolved
    list of any requested libraries is computed (the recursion stays within
    a stack deeper than the graph); it holds the requested libraries and
    their dependencies, direct or not, and nothing else; and it is leaf
    first.  Libraries are told apart by their [(name, id)] pair, as
    [uniqLibs] does: each needed library has an entry with its pair, and
    before every library of the list there is, for each of its direct
    dependencies, an entry with the pair of that dependency.  When no two
    of the needed libraries share a pair, each of them is in the list
    itself, and each direct dependency of a library of the list is itself
    at an earlier place. *)
Theorem resolvedLibs_leaf_first `{Collab} (h : Heap) (rank : addr → nat)
    (fuel : nat) (libs_ : list addr) :
  (∀ a d, Some d ∈ dependencies (h a) → rank d < rank a) →
  (∀ a, a ∈ libs_ → rank a < fuel) →
  ∃ res, resolvedLibs fuel h libs_ = Some res ∧
    (∀ a, needed h libs_ a →
       ∃ b level, (b, level) ∈ res ∧ libKey h b = libKey h a) ∧
    (∀ a level, (a, level) ∈ res → needed h libs_ a) ∧
    (∀ i a level d, res !! i = Some (a, level) → Some d ∈ dependencies (h a) →
       ∃ j e, j < i ∧ res !! j = Some e ∧ libKey h e.1 = libKey h d) ∧
    ((∀ a b, needed h libs_ a → needed h libs_ b →
        libKey h a = libKey h b → a = b) →
     (∀ a, needed h libs_ a → ∃ level, (a, level) ∈ res) ∧
     ∀ i a level d, res !! i = Some (a, level) → Some d ∈ dependencies (h a) →
       ∃ j level', j < i ∧ res !! j = Some (d, level')).
Proof.
  intros Hrank Hfuel.
  destruct (leaf_first_by_key h rank fuel libs_ Hrank Hfuel) as (res & Hres & Hkeys).
  exists res. split; [done|].
  split; [intros a; by apply (resolvedLibs_covers h fuel)|].
  split; [intros a level; by apply (resolvedLibs_needed h fuel)|].
  split; [done|]. intros Hinj. split.
  - intros a Ha.
    destruct (resolvedLibs_covers h fuel libs_ res a Hres Ha) as (b & level & Hb & Hkey).
    assert (b = a) as ->; [|by exists level].
    apply Hinj; [by eapply (resolvedLibs_needed h fuel)|done|done].
  - intros i a level d Hi Hd.
    destruct (Hkeys i a level d Hi Hd) as (j & [e lv] & Hj & He & Hkey).
    simpl in Hkey. assert (e = d) as ->; [|by exists j, lv].
    apply Hinj; [| |done].
    + eapply (resolvedLibs_needed h fuel); [done|]. by eapply list_elem_of_lookup_2.
    + eapply needed_dependency; [|done].
      eapply (resolvedLibs_needed h fuel); [done|]. by eapply list_elem_of_lookup_2.
Qed.

Section RaisesOnly.
Context `{Collab}.
Variable E : Exn → Prop.

Lemma raisesOnly_ret {A} (a : A) : raisesOnly E (ret a).
Proof. by intros st e st' [=]. Qed.

Lemma raisesOnly_raise {A} e : E e → raisesOnly E (@raise _ A e).
Proof. by intros He st e' st' [= <- <-]. Qed.

Lemma raisesOnly_gets {A} (f : Project → A) : raisesOnly E (gets f).
Proof. by intros st e st' [=]. Qed.

Lemma raisesOnly_modify (f : Project → Project) : raisesOnly E (modify f).
Proof. by intros st e st' [=]. Qed.

Lemma raisesOnly_bind {A B} (c : M A) (k : A → M B) :
  raisesOnly E c → (∀ a, raisesOnly E (k a)) → raisesOnly E (bind c k).
Proof.
  intros Hc Hk st e st' Hrun.
  apply bind_run in Hrun as [(a & st1 & Hc1 & Hk1)|(e' & Hc1 & [= <-])].
  - by eapply Hk.
  - by eapply Hc.
Qed.

Lemma raisesOnly_forM_ {A} (xs : list A) (f : A → M unit) :
  (∀ x, raisesOnly E (f x)) → raisesOnly E (forM_ xs f).
Proof.
  intros Hf. induction xs as [|x xs IH]; simpl; [apply raisesOnly_ret|].
  apply raisesOnly_bind; [apply Hf|]. intros _. apply IH.
Qed.

Lemma raisesOnly_foldM {A B} (f : B → A → M B) (b : B) (xs : list A) :
  (∀ b x, raisesOnly E (f b x)) → raisesOnly E (foldM f b xs).
Proof.
  intros Hf. revert b. induction xs as [|x xs IH]; intros b; simpl; [apply raisesOnly_ret|].
  apply raisesOnly_bind; [apply Hf|]. intros b'. apply IH.
Qed.

Lemma raisesOnly_when (b : bool) (c : M unit) :
  raisesOnly E c → raisesOnly E (when b c).
Proof. destruct b; simpl; [done|]. intros _. apply raisesOnly_ret. Qed.

Lemma raisesOnly_liftRec {A} (o : option A) : E RecursionError → raisesOnly E (liftRec o).
Proof. intros He. destruct o; simpl; [apply raisesOnly_ret|by apply raisesOnly_raise]. Qed.

End RaisesOnly.

(** The exceptions of a computation, found along its definition; [leaf]
    settles that an exception raised in so many words is allowed. *)
Ltac raises leaf :=
  repeat match goal with
    | |- raisesOnly _ (ret _) => apply raisesOnly_ret
    | |- raisesOnly _ (gets _) => apply raisesOnly_gets
    | |- raisesOnly _ (modify _) => apply raisesOnly_modify
    | |- raisesOnly _ (raise _) => apply raisesOnly_raise; leaf
    | |- raisesOnly _ (liftRec _) => apply raisesOnly_liftRec; leaf
    | |- raisesOnly _ (bind _ _) => apply raisesOnly_bind; [|intros ?]
    | |- raisesOnly _ (when _ _) => apply raisesOnly_when
    | |- raisesOnly _ (forM_ _ _) => apply raisesOnly_forM_; intros ?
    | |- raisesOnly _ (foldM _ _ _) => apply raisesOnly_foldM; intros ? ?
    | |- raisesOnly _ (match ?x with _ => _ end) => destruct x
    | |- raisesOnly _ _ =>
        progress unfold envGet, envItem, envUpdate, Clone, Alias, log, needConfigure,
          needCheck, applyOptionsOnEnv, writeColor, recordError, callInitOptions,
          callInitEnv, callConfigure, callCheck, callPostconfigure, probeLibrary,
          setCheckDone, appendChecked, checkLibrary, checkOne, configureLibs,
          recordLibraries, initLibs, postconfigureLibs, appendLibsToEnv, createEnv,
          declareTarget, build, installNode, newLib, MSVSProject, targetEnv, applyArgs,
          addSourcesOf, precompiledHeaders, dependsOnInternalLibs, installLib,
          visualProjectOf, exposeLibrary, userAlias, ObjectLibrary, capitalize,
          convertSconsPathToStr, file_readline, keys_sort, iteritems
    end.

Section ErrorsProperties.
Context `{Collab}.

Lemma raisesOnly_mono (E E' : Exn → Prop) {A} (c : M A) :
  (∀ e, E e → E' e) → raisesOnly E c → raisesOnly E' c.
Proof. intros HE Hc st e st' Hrun. by eapply HE, Hc. Qed.

Local Ltac allowed :=
  idtac; first [ exact I | done | by left | by right
        | repeat first [apply list_elem_of_here | apply list_elem_of_further] ].

Lemma checkLibrary_raises fuel a : raisesOnly configurationError (checkLibrary fuel a).
Proof. raises ltac:(idtac; allowed). Qed.

Lemma appendLibsToEnv_raises fuel l libs_ name_ :
  raisesOnly configurationError (appendLibsToEnv fuel l libs_ name_).
Proof. raises ltac:(idtac; allowed). Qed.

Lemma createEnv_raises fuel libs_ name_ :
  raisesOnly configurationError (createEnv fuel libs_ name_).
Proof. raises ltac:(idtac; allowed). Qed.

(** X12: whatever the libraries answer, [checkLibrary], [appendLibsToEnv]
    and [createEnv] raise nothing but [KeyError] for one of seven
    construction variables, [TypeError], [AttributeError] for the method
    [extend] of the list of missing dependencies, or [RecursionError]: a
    library that fails raises nothing. *)
Theorem configuration_errors (fuel : nat) (l : loc) (libs_ : list addr)
    (name_ : string) (a : addr) (st : Project) (e : Exn) :
  (∃ st', checkLibrary fuel a st = (Raise e, st')) ∨
  (∃ st', appendLibsToEnv fuel l libs_ name_ st = (Raise e, st')) ∨
  (∃ st', createEnv fuel libs_ name_ st = (Raise e, st')) →
  configurationError e.
Proof.
  intros [[st' Hrun]|[[st' Hrun]|[st' Hrun]]].
  - by eapply checkLibrary_raises.
  - by eapply appendLibsToEnv_raises.
  - by eapply createEnv_raises.
Qed.

Lemma raisesOnly_bind_value (E : Exn → Prop) {A B} (c : M A) (k : A → M B)
    (φ : A → Prop) :
  (∀ st a st', c st = (Return a, st') → φ a) →
  raisesOnly E c → (∀ a, φ a → raisesOnly E (k a)) → raisesOnly E (bind c k).
Proof.
  intros Hφ Hc Hk st e st' Hrun.
  apply bind_run in Hrun as [(a & st1 & Hc1 & Hk1)|(e' & Hc1 & [= <-])].
  - eapply Hk; [by eapply Hφ|done].
  - by eapply Hc.
Qed.

Lemma scriptDependencies_raises args s :
  raisesOnly (scriptError args) (scriptDependencies args s).
Proof.
  intros st e st' Hrun. unfold scriptDependencies in Hrun.
  destruct (checkDependencies args) eqn:Hcheck; [|done].
  by injection Hrun as <- <-.
Qed.

(** With [procEnvFlags] a turn of [ScriptTests] ends on [iteritems]. *)
Lemma iteritems_raises (d : Flags) (st : Project) :
  iteritems d st = (Raise (AttributeError "iteritems"), st).
Proof. done. Qed.

Lemma scriptTest_raises fuel args l_target s ts allDst dst :
  raisesOnly (scriptError args) (scriptTest fuel args l_target s ts allDst dst).
Proof.
  unfold scriptTest. destruct (procEnvFlags args) as [|flag flags] eqn:Hflags.
  - raises ltac:(idtac; allowed).
  - apply raisesOnly_bind; [raises ltac:(idtac; allowed)|]. intros localEnv.
    apply raisesOnly_bind; [raises ltac:(idtac; allowed)|]. intros _.
    apply (raisesOnly_bind_value _ _ _ (λ _, False)); [| |done].
    + intros st built st' Hrun. unfold bind at 1 in Hrun.
      by rewrite iteritems_raises in Hrun.
    + intros st e st' Hrun. unfold bind at 1 in Hrun.
      rewrite iteritems_raises in Hrun. by injection Hrun as <- <-.
Qed.

Lemma ScriptTests_loop_raises fuel args l_target l_sources allDst dst :
  raisesOnly (scriptError args)
    (ScriptTests_loop fuel args l_target l_sources allDst dst).
Proof.
  revert allDst dst. induction l_sources as [|s rest IH]; intros allDst dst; simpl.
  - apply raisesOnly_ret.
  - apply raisesOnly_bind; [apply scriptDependencies_raises|]. intros [|ts]; [apply IH|].
    apply raisesOnly_bind; [apply scriptTest_raises|]. intros r. apply IH.
Qed.

(** X14: [ScriptTests] raises [RuntimeError] only when it has no script,
    [NameError] only for [file] and when it checks the dependencies of the
    scripts, the error of the unbound variable [dst] only when it is given
    no [procEnvFlags]; apart from that [KeyError] for one of seven
    construction variables, [AttributeError], [TypeError] or
    [RecursionError].  It never raises [ValueError], the error of a missing
    dependency, and never exits. *)
Theorem ScriptTests_errors (fuel : nat) (args : TargetArgs) (st st' : Project)
    (e : Exn) :
  ScriptTests fuel args st = (Raise e, st') → scriptError args e.
Proof.
  revert st e st'. change (raisesOnly (scriptError args) (ScriptTests fuel args)).
  unfold ScriptTests. destruct (scriptFiles args) as [|s rest] eqn:Hfiles.
  - by apply raisesOnly_raise.
  - rewrite <- Hfiles. apply ScriptTests_loop_raises.
Qed.

(** A turn of [ScriptTests] without [procEnvFlags] builds nothing. *)
Lemma scriptTest_builds_nothing fuel args l_target s ts allDst dst st r st' :
  procEnvFlags args = [] →
  scriptTest fuel args l_target s ts allDst dst st = (Return r, st') →
  r = (allDst, dst).
Proof.
  intros Hflags Hrun. unfold scriptTest in Hrun. rewrite Hflags in Hrun.
  apply bind_Return in Hrun as (localEnv & st1 & _ & Hrun).
  apply bind_Return in Hrun as ([] & st2 & _ & Hrun).
  apply bind_Return in Hrun as (built & st3 & [= <- <-] & Hrun).
  apply bind_Return in Hrun as ([] & st4 & _ & Hrun).
  apply bind_Return in Hrun as ([] & st5 & _ & Hrun).
  apply bind_Return in Hrun as (h & st6 & _ & Hrun).
  apply bind_Return in Hrun as ([] & st7 & _ & Hrun).
  by injection Hrun as <- <-.
Qed.

Lemma ScriptTests_loop_builds_nothing fuel args l_target l_sources allDst dst st r st' :
  procEnvFlags args = [] →
  ScriptTests_loop fuel args l_target l_sources allDst dst st = (Return r, st') →
  r = allDst.
Proof.
  intros Hflags. revert allDst dst st.
  induction l_sources as [|s rest IH]; intros allDst dst st Hrun; simpl in Hrun.
  - by injection Hrun as <- <-.
  - apply bind_Return in Hrun as (deps & st1 & _ & Hrun). destruct deps as [|ts].
    + by eapply IH.
    + apply bind_Return in Hrun as (r' & st2 & Htest & Hrun).
      apply scriptTest_builds_nothing in Htest as ->; [|done]. by eapply IH.
Qed.

Lemma bind_raises {A B} (c : M A) (k : A → M B) st :
  (∀ a st1, c st = (Return a, st1) → ∃ e st', k a st1 = (Raise e, st')) →
  ∃ e st', bind c k st = (Raise e, st').
Proof.
  intros Hk. unfold bind. destruct (c st) as [[a|e] st1] eqn:Hc; [by apply Hk|].
  by exists e, st1.
Qed.

(** A turn without [procEnvFlags], started before any test was built,
    ends on the unbound variable [dst] as soon as the test has
    dependencies or libraries. *)
Lemma scriptTest_unbound fuel args l_target s allDst st :
  procEnvFlags args = [] →
  nodeDependencies args ≠ [] ∨ libraries args ≠ [] →
  ∃ e st', scriptTest fuel args l_target s [] allDst None st = (Raise e, st').
Proof.
  intros Hflags Hdeps. unfold scriptTest. rewrite Hflags.
  apply bind_raises. intros localEnv st1 _.
  apply bind_raises. intros [] st2 _.
  apply bind_raises. intros built st3 [= <- <-].
  simpl. apply bind_raises. intros [] st4 _.
  destruct (decide (nodeDependencies args = [])) as [Hnone|Hsome].
  - destruct Hdeps as [?|Hlibs]; [done|].
    apply bind_raises. intros [] st5 _.
    apply bind_raises. intros h st6 _.
    rewrite bool_decide_eq_true_2 by done. simpl.
    unfold bind, raise. by eexists _, _.
  - rewrite bool_decide_eq_true_2 by done. simpl.
    unfold bind, raise. by eexists _, _.
Qed.

(** X15: without [procEnvFlags] no script test is built: the list that
    [ScriptTests] returns is empty; and when, moreover, the dependencies
    of the scripts are not checked and libraries or dependencies are given,
    [ScriptTests] does not return at all: it raises. *)
Theorem ScriptTests_without_procEnvFlags (fuel : nat) (args : TargetArgs)
    (st : Project) :
  procEnvFlags args = [] →
  (∀ r st', ScriptTests fuel args st = (Return r, st') → r = []) ∧
  (checkDependencies args = false →
   nodeDependencies args ≠ [] ∨ libraries args ≠ [] →
   ∃ e st', ScriptTests fuel args st = (Raise e, st')).
Proof.
  intros Hflags. split.
  - intros r st' Hrun. unfold ScriptTests in Hrun.
    destruct (scriptFiles args) as [|s rest]; [done|].
    by eapply ScriptTests_loop_builds_nothing.
  - intros Hcheck Hdeps. unfold ScriptTests.
    destruct (scriptFiles args) as [|s rest]; [by eexists _, _|].
    simpl. apply bind_raises. intros deps st1 Hdepsrun.
    unfold scriptDependencies in Hdepsrun. rewrite Hcheck in Hdepsrun.
    injection Hdepsrun as <- <-.
    apply bind_raises. intros r st2 Hrun.
    destruct (scriptTest_unbound fuel args (testTarget args) s [] st Hflags Hdeps)
      as (e & st' & Hraise).
    congruence.
Qed.

(** With [procEnvFlags] a turn of [ScriptTests] does not return. *)
Lemma scriptTest_flags_raise fuel args l_target s ts allDst dst st r st' :
  scriptTest fuel args l_target s ts allDst dst st = (Return r, st') →
  procEnvFlags args = [].
Proof.
  intros Hrun. unfold scriptTest in Hrun.
  destruct (procEnvFlags args) as [|flag flags]; [done|]. exfalso.
  apply bind_Return in Hrun as (localEnv & st1 & _ & Hrun).
  apply bind_Return in Hrun as ([] & st2 & _ & Hrun).
  apply bind_Return in Hrun as (built & st3 & Hbuilt & _).
  unfold bind at 1 in Hbuilt. by rewrite iteritems_raises in Hbuilt.
Qed.

(** X29: [ScriptTests] builds no script test at all: when it returns, its
    list is empty, and it returns only when the dependencies of the scripts
    are not checked and no [procEnvFlags], no dependencies and no libraries
    are given. *)
Theorem ScriptTests_returns_nothing (fuel : nat) (args : TargetArgs)
    (st st' : Project) (r : list Node) :
  ScriptTests fuel args st = (Return r, st') →
  r = [] ∧ checkDependencies args = false ∧ procEnvFlags args = [] ∧
  nodeDependencies args = [] ∧ libraries args = [].
Proof.
  intros Hrun. pose proof Hrun as Hwhole. unfold ScriptTests in Hrun.
  destruct (scriptFiles args) as [|s rest] eqn:Hfiles; [done|]. simpl in Hrun.
  apply bind_Return in Hrun as (deps & st1 & Hdeps & Hrun).
  unfold scriptDependencies in Hdeps.
  destruct (checkDependencies args) eqn:Hcheck; [done|].
  injection Hdeps as <- <-.
  apply bind_Return in Hrun as (turn & st2 & Hturn & _).
  pose proof (scriptTest_flags_raise _ _ _ _ _ _ _ _ _ _ Hturn) as Hflags.
  assert (Hnone : nodeDependencies args = [] ∧ libraries args = []).
  { destruct (decide (nodeDependencies args = [])) as [Hn|Hn];
      destruct (decide (libraries args = [])) as [Hl|Hl]; try done; exfalso.
    all: destruct (scriptTest_unbound fuel args (testTarget args) s [] st Hflags)
           as (e & st3 & Hraise); [by (left + right)|congruence]. }
  split; [|done].
  unfold ScriptTests in Hwhole. rewrite Hfiles in Hwhole.
  by eapply ScriptTests_loop_builds_nothing.
Qed.

End ErrorsProperties.

(** The steps of a computation, found along its definition; [known]
    settles the steps that change the state. *)
Ltac walk Hrefl Htrans known :=
  repeat match goal with
    | |- respects _ _ (ret _) _ => apply (respects_ret _ _ Hrefl); exact I
    | |- respects _ _ (raise _) _ => apply (respects_raise _ _ Hrefl)
    | |- respects _ _ (gets _) _ => apply (respects_gets _ _ Hrefl); intros; exact I
    | |- respects _ _ (liftRec _) _ =>
        apply (respects_liftRec _ _ Hrefl); intros; exact I
    | |- respects _ _ (bind _ _) _ =>
        apply (respects_bind (λ _, True) _ Htrans (λ _ _ _ _, I) _ _ (λ _, True));
          [|intros ? _]
    | |- respects _ _ (when _ _) _ => apply (respects_when _ _ Hrefl); intros _
    | |- respects _ _ (forM_ _ _) _ =>
        apply (respects_forM_ _ _ Hrefl Htrans (λ _ _ _ _, I)); intros ? _
    | |- respects _ _ (foldM _ _ _) _ =>
        apply (respects_foldM _ _ Hrefl Htrans (λ _ _ _ _, I) _ _ _ (λ _, True));
          [exact I|intros ? ? _ _]
    | |- respects _ _ (match ?x with _ => _ end) _ => destruct x
    | |- respects _ _ _ _ => known
    | |- respects _ _ _ _ =>
        progress unfold envGet, envItem, needConfigure,
          needCheck, applyOptionsOnEnv, writeColor, callInitOptions,
          callInitEnv, callConfigure, callCheck, callPostconfigure, probeLibrary,
          checkLibrary, checkOne, configureLibs,
          recordLibraries, initLibs, postconfigureLibs, appendLibsToEnv, createEnv,
          declareTarget, build, installNode, MSVSProject, targetEnv, applyArgs,
          addSourcesOf, precompiledHeaders, dependsOnInternalLibs, installLib,
          visualProjectOf, exposeLibrary, userAlias, ObjectLibrary,
          scriptDependencies, scriptTest, capitalize, convertSconsPathToStr,
          file_readline, keys_sort, iteritems
    end.

Section AccumulationProperties.
Context `{Collab}.

Lemma sameChecker_refl (x : LibObj) : sameChecker x x.
Proof. by repeat split. Qed.

Lemma sameChecker_trans (x y z : LibObj) :
  sameChecker x y → sameChecker y z → sameChecker x z.
Proof.
  intros (Hn & Hi & Hl & Hd & Hs) (Hn' & Hi' & Hl' & Hd' & Hs').
  repeat split; congruence.
Qed.

(** A state that has the checker objects of [st]. *)
Lemma sameCheckers_heap (st st' : Project) :
  heap st' = heap st →
  ∀ a, a < heap_next st → sameChecker (heap st a) (heap st' a).
Proof. intros -> a _. apply sameChecker_refl. Qed.

#[local] Hint Resolve sameChecker_refl : core.
#[local] Hint Extern 1 (∀ a, _ → sameChecker _ _) =>
  apply sameCheckers_heap; reflexivity : core.

Lemma grows_refl st : grows st st.
Proof. constructor; auto. Qed.

Lemma grows_trans st1 st2 st3 : grows st1 st2 → grows st2 st3 → grows st1 st3.
Proof.
  intros [n1 h1 c1 e1 l1 ln1 a1 r1 t1 p1 al1 v1 tr1 ev1 cl1 w1 oc1 oh1]
         [n2 h2 c2 e2 l2 ln2 a2 r2 t2 p2 al2 v2 tr2 ev2 cl2 w2 oc2 oh2].
  constructor; try (etrans; eassumption); try congruence; try lia.
  - intros a Ha. eapply sameChecker_trans; [by apply h1|]. apply h2. lia.
  - auto.
  - intros k. etrans; [apply al1|apply al2].
Qed.

Local Abbreviation accumulates := (respects (λ _, True) grows).

Lemma accumulates_modify (f : Project → Project) :
  (∀ st, grows st (f st)) → accumulates (modify f) (λ _, True).
Proof. intros Hf. apply respects_modify. intros st _. apply Hf. Qed.

Lemma log_grows ev : accumulates (log ev) (λ _, True).
Proof. apply accumulates_modify. intros st. constructor; try done. by apply prefix_app_r. Qed.

Lemma envUpdate_grows l f : accumulates (envUpdate l f) (λ _, True).
Proof.
  apply accumulates_modify. intros st. constructor; try done. simpl.
  by rewrite length_alter.
Qed.

Lemma Clone_grows l : accumulates (Clone l) (λ _, True).
Proof.
  unfold Clone, envGet.
  walk grows_refl grows_trans ltac:(idtac; apply log_grows).
  apply accumulates_modify. intros st. constructor; try done. simpl.
  rewrite length_app. lia.
Qed.

Lemma Alias_grows name_ targets : accumulates (Alias name_ targets) (λ _, True).
Proof.
  apply accumulates_modify. intros st. constructor; try done. simpl. intros k.
  destruct (decide (k = name_)) as [->|Hne].
  - rewrite lookup_insert_eq. simpl. by apply prefix_app_r.
  - by rewrite lookup_insert_ne.
Qed.

Lemma recordError_grows a : accumulates (recordError a) (λ _, True).
Proof.
  apply accumulates_modify. intros st. constructor; try done; simpl.
  - case_decide; [done|]. by apply prefix_app_r.
  - intros Hnd. case_decide as Hin; [done|]. apply NoDup_app. split; [done|].
    split; [|apply NoDup_singleton]. intros x Hx ->%list_elem_of_singleton. done.
Qed.

Lemma setCheckDone_grows a : accumulates (setCheckDone a) (λ _, True).
Proof.
  apply accumulates_modify. intros st. constructor; try done. simpl. set_solver.
Qed.

Lemma appendChecked_grows n : accumulates (appendChecked n) (λ _, True).
Proof.
  apply accumulates_modify. intros st. constructor; try done. simpl.
  by apply prefix_app_r.
Qed.

Lemma newLib_grows lib : accumulates (newLib lib) (λ _, True).
Proof.
  intros st o st' _ Hrun. split; [|done].
  unfold newLib, bind, gets, modify, ret in Hrun. injection Hrun as <- <-.
  constructor; try done; simpl; [lia|]. intros a Ha.
  by rewrite (proj2 (Nat.eqb_neq a (heap_next st))) by lia.
Qed.

Lemma set_opts_grows o : accumulates (modify (set_opts o)) (λ _, True).
Proof. apply accumulates_modify. intros st. by constructor. Qed.

Lemma set_removed_grows k v :
  accumulates (modify (set_removedFromDefaultTargets (<[k := v]>))) (λ _, True).
Proof.
  apply accumulates_modify. intros st. constructor; try done. simpl. set_solver.
Qed.

Lemma set_allTargets_grows k v :
  accumulates (modify (set_allTargets (<[k := v]>))) (λ _, True).
Proof.
  apply accumulates_modify. intros st. constructor; try done. simpl. set_solver.
Qed.

Lemma set_publicLibs_grows k v :
  accumulates (modify (set_publicLibs (<[k := v]>))) (λ _, True).
Proof.
  apply accumulates_modify. intros st. constructor; try done. simpl. set_solver.
Qed.

Lemma set_allVisualProjects_grows p :
  accumulates (modify (set_allVisualProjects (λ ps, ps ++ [p]))) (λ _, True).
Proof.
  apply accumulates_modify. intros st. constructor; try done. simpl.
  by apply prefix_app_r.
Qed.

End AccumulationProperties.

Ltac grows_known :=
  match goal with
  | |- respects _ _ (log _) _ => apply log_grows
  | |- respects _ _ (envUpdate _ _) _ => apply envUpdate_grows
  | |- respects _ _ (Clone _) _ => apply Clone_grows
  | |- respects _ _ (Alias _ _) _ => apply Alias_grows
  | |- respects _ _ (recordError _) _ => apply recordError_grows
  | |- respects _ _ (setCheckDone _) _ => apply setCheckDone_grows
  | |- respects _ _ (appendChecked _) _ => apply appendChecked_grows
  | |- respects _ _ (newLib _) _ => apply newLib_grows
  | |- respects _ _ (modify (set_opts _)) _ => apply set_opts_grows
  | |- respects _ _ (modify (set_removedFromDefaultTargets _)) _ =>
      apply set_removed_grows
  | |- respects _ _ (modify (set_allTargets _)) _ => apply set_allTargets_grows
  | |- respects _ _ (modify (set_publicLibs _)) _ => apply set_publicLibs_grows
  | |- respects _ _ (modify (set_allVisualProjects _)) _ =>
      apply set_allVisualProjects_grows
  end.

Ltac accumulate := walk (@grows_refl _) (@grows_trans _) ltac:(idtac; grows_known).

Section AccumulationTheorems.
Context `{Collab}.

Local Abbreviation accumulates := (respects (λ _, True) grows).

Lemma respects_final (R : Project → Project → Prop) {A} (c : M A) (φ : A → Prop) st :
  respects (λ _, True) R c φ → R st (c st).2.
Proof. intros Hc. by apply (Hc st (c st).1 (c st).2 I), surjective_pairing. Qed.

Lemma ScriptTests_loop_grows fuel args l_target l_sources allDst dst :
  accumulates (ScriptTests_loop fuel args l_target l_sources allDst dst) (λ _, True).
Proof.
  revert allDst dst. induction l_sources as [|s rest IH]; intros allDst dst; simpl.
  - accumulate.
  - apply (respects_bind (λ _, True) _ grows_trans (λ _ _ _ _, I) _ _ (λ _, True));
      [accumulate|].
    intros [|ts] _; [apply IH|].
    apply (respects_bind (λ _, True) _ grows_trans (λ _ _ _ _, I) _ _ (λ _, True));
      [accumulate|].
    intros r _. apply IH.
Qed.

(** X16: whatever a method of the project does and however it ends, what
    the project holds is only added to: the checker objects keep their
    name, id, link libraries, dependencies and node, no environment,
    registered target, alias, library in error or name of the memo of
    [checkLibrary] is taken away, the list of libraries in error stays free
    of duplicates, and the settings of the run stay. *)
Theorem project_accumulates (fuel : nat) (args : TargetArgs) (libs_ : list addr)
    (name_ : string) (l : loc) (a : addr) (targetName : option string)
    (st st' : Project) :
  st' ∈ [ (checkLibrary fuel a st).2; (appendLibsToEnv fuel l libs_ name_ st).2;
          (createEnv fuel libs_ name_ st).2;
          (declareTarget l name_ targetName st).2;
          (ObjectLibrary fuel args st).2; (StaticLibrary fuel args st).2;
          (SharedLibrary fuel args st).2; (Program fuel args st).2;
          (UnitTest fuel args st).2; (ScriptTests fuel args st).2; (end_ st).2 ] →
  grows st st'.
Proof.
  rewrite !elem_of_cons, elem_of_nil.
  intros [->|[->|[->|[->|[->|[->|[->|[->|[->|[->|[->|[]]]]]]]]]]]];
    apply (respects_final grows _ (λ _, True)).
  - accumulate.
  - accumulate.
  - accumulate.
  - accumulate.
  - accumulate.
  - unfold StaticLibrary. accumulate.
  - unfold SharedLibrary. accumulate.
  - unfold Program. accumulate.
  - unfold UnitTest. accumulate.
  - unfold ScriptTests. destruct (scriptFiles args) as [|s rest] eqn:Hfiles;
      [accumulate|]. rewrite <- Hfiles. apply ScriptTests_loop_grows.
  - unfold end_. accumulate.
Qed.

(** ** What the tests do not declare *)

Lemma declaresNothing_refl st : declaresNothing st st.
Proof. done. Qed.

Lemma declaresNothing_trans st1 st2 st3 :
  declaresNothing st1 st2 → declaresNothing st2 st3 → declaresNothing st1 st3.
Proof. unfold declaresNothing. intros (?&?&?&?&?) (?&?&?&?&?). repeat split; congruence. Qed.

Local Ltac declares_known :=
  match goal with
  | |- respects _ _ (log _) _ => apply respects_modify; by intros
  | |- respects _ _ (envUpdate _ _) _ => apply respects_modify; by intros
  | |- respects _ _ (recordError _) _ => apply respects_modify; by intros
  | |- respects _ _ (setCheckDone _) _ => apply respects_modify; by intros
  | |- respects _ _ (appendChecked _) _ => apply respects_modify; by intros
  | |- respects _ _ (modify (set_opts _)) _ => apply respects_modify; by intros
  | |- respects _ _ (modify (set_envs _)) _ => apply respects_modify; by intros
  | |- respects _ _ (Clone _) _ => unfold Clone
  end.

Local Ltac declares := walk declaresNothing_refl declaresNothing_trans ltac:(idtac; declares_known).

Lemma ScriptTests_loop_declares fuel args l_target l_sources allDst dst :
  respects (λ _, True) declaresNothing
    (ScriptTests_loop fuel args l_target l_sources allDst dst) (λ _, True).
Proof.
  revert allDst dst. induction l_sources as [|s rest IH]; intros allDst dst; simpl.
  - declares.
  - apply (respects_bind (λ _, True) _ declaresNothing_trans (λ _ _ _ _, I) _ _
             (λ _, True)); [declares|].
    intros [|ts] _; [apply IH|].
    apply (respects_bind (λ _, True) _ declaresNothing_trans (λ _ _ _ _, I) _ _
             (λ _, True)); [declares|].
    intros r _. apply IH.
Qed.

Lemma createEnv_declares fuel libs_ name_ :
  respects (λ _, True) declaresNothing (createEnv fuel libs_ name_) (λ _, True).
Proof. declares. Qed.


End AccumulationTheorems.

Section EndProperties.
Context `{Collab}.

Lemma sameErrors_refl st : sameErrors st st.
Proof. done. Qed.

Lemma sameErrors_trans st1 st2 st3 :
  sameErrors st1 st2 → sameErrors st2 st3 → sameErrors st1 st3.
Proof. unfold sameErrors. intros (?&?&?&?&?) (?&?&?&?&?). repeat split; congruence. Qed.

Local Ltac errors_known :=
  match goal with
  | |- respects _ _ (log _) _ => apply respects_modify; by intros
  | |- respects _ _ (Alias _ _) _ => apply respects_modify; by intros
  end.

Local Ltac same_errors :=
  walk sameErrors_refl sameErrors_trans ltac:(idtac; errors_known).

Local Ltac no_exit := raises ltac:(idtac; reflexivity).

(** A step of [end] that does not exit. *)
Lemma bind_exit {A B} (c : M A) (k : A → M B) st code st' :
  respects (λ _, True) sameErrors c (λ _, True) →
  raisesOnly (λ e, isExit e = false) c →
  bind c k st = (Raise (SystemExit code), st') →
  ∃ a st1, sameErrors st st1 ∧ k a st1 = (Raise (SystemExit code), st').
Proof.
  intros Hsame Hraise Hrun.
  apply bind_run in Hrun as [(a & st1 & Hc & Hk)|(e & Hc & [= <-])].
  - exists a, st1. split; [|done]. by apply (Hsame _ _ _ I Hc).
  - by apply Hraise in Hc.
Qed.

(** A run, from its outcome. *)
Lemma run_pair {A} (c : M A) (st : Project) (o : Outcome A) :
  (c st).1 = o → c st = (o, (c st).2).
Proof. intros <-. apply surjective_pairing. Qed.

Lemma bind_gets {A B} (f : Project → A) (k : A → M B) st :
  bind (gets f) k st = k (f st) st.
Proof. done. Qed.

Lemma bind_ret {A B} (a : A) (k : A → M B) st : bind (ret a) k st = k a st.
Proof. done. Qed.

Lemma bind_assoc {A B C} (c : M A) (k : A → M B) (k' : B → M C) st :
  bind (bind c k) k' st = bind c (λ a, bind (k a) k') st.
Proof. unfold bind. by destruct (c st) as [[a|e] st1]. Qed.

Lemma env_at_same st st' l : envs st' = envs st → env_at st' l = env_at st l.
Proof. unfold env_at. by intros ->. Qed.

(** [end] neither alters the environments nor the libraries in error, nor
    the targets removed from the default ones. *)
Lemma end_sameErrors : respects (λ _, True) sameErrors end_ (λ _, True).
Proof. unfold end_. same_errors. Qed.

(** What an exit of [end] tells. *)
Lemma end_exit_inv (st st' : Project) (code : nat) :
  end_ st = (Raise (SystemExit code), st') →
  code = 1 ∧ libs_error st ≠ [] ∧
  env_at st (env st) !! "ignore_configure_errors" ≠ None ∧
  truthy (default VNone (env_at st (env st) !! "ignore_configure_errors")) = false.
Proof.
  intros Hrun. unfold end_ in Hrun. rewrite !bind_gets in Hrun.
  apply bind_exit in Hrun as ([] & st1 & H1 & Hrun); [|same_errors|no_exit].
  apply bind_exit in Hrun as (cmd & st2 & H2 & Hrun); [|same_errors|no_exit].
  apply bind_exit in Hrun as ([] & st3 & H3 & Hrun); [|same_errors|no_exit].
  rewrite bind_gets in Hrun.
  assert (Hsame : sameErrors st st3).
  { eauto using sameErrors_trans. }
  destruct Hsame as (Herrors & Henvs & Henv & _). rewrite Herrors in Hrun.
  clear H1 H2 H3 st1 st2.
  apply bind_run in Hrun as [([] & st4 & Hblock & Hrest)|(e & Hblock & [= <-])].
  { exfalso. revert Hrest. generalize (env st). intros self_env Hrest.
    match type of Hrest with
    | ?c st4 = _ => assert (Hno : raisesOnly (λ e, isExit e = false) c) by no_exit
    end.
    by apply Hno in Hrest. }
  destruct (decide (libs_error st = [])) as [Hnone|Hsome].
  { rewrite Hnone in Hblock. done. }
  rewrite bool_decide_eq_true_2 in Hblock by done. simpl in Hblock.
  apply bind_exit in Hblock as ([] & st5 & H5 & Hblock); [|same_errors|no_exit].
  rewrite bind_gets in Hblock.
  apply bind_exit in Hblock as ([] & st6 & H6 & Hblock); [|same_errors|no_exit].
  apply bind_exit in Hblock as ([] & st7 & H7 & Hblock); [|same_errors|no_exit].
  assert (Hsame : envs st7 = envs st).
  { destruct H5 as (_ & E5 & _), H6 as (_ & E6 & _), H7 as (_ & E7 & _).
    congruence. }
  unfold envItem at 1, envGet in Hblock. rewrite bind_assoc, bind_gets in Hblock.
  rewrite (env_at_same st st7) in Hblock by done.
  destruct (env_at st (env st) !! "ignore_configure_errors") as [ignore|] eqn:Hignore;
    [|done].
  rewrite bind_ret in Hblock.
  destruct (truthy ignore) eqn:Htruthy.
  { exfalso. simpl in Hblock. unfold bind at 1 in Hblock. simpl in Hblock.
    assert (Hno : raisesOnly (λ e, isExit e = false) (writeColor "color_clear"))
      by no_exit.
    by apply Hno in Hblock. }
  split; [|done].
  simpl in Hblock.
  apply bind_run in Hblock as [([] & st8 & Hlines & Hclear)|(e & Hlines & [= <-])].
  { exfalso.
    assert (Hno : raisesOnly (λ e, isExit e = false) (writeColor "color_clear"))
      by no_exit.
    by apply Hno in Hclear. }
  apply bind_run in Hlines as [([] & st8 & Hlines & [= <- _])|(e & Hlines & [= <-])];
    [done|].
  exfalso.
  assert (Hno : raisesOnly (λ e, isExit e = false)
            (forM_ configureErrorsMessage (λ line, log (EvWrite line)))) by no_exit.
  by apply Hno in Hlines.
Qed.

(** X18: [end] exits only when libraries are in error and
    [ignore_configure_errors] is not set, and then with status 1. *)
Theorem end_exits_only_on_errors (st st' : Project) (code : nat) :
  end_ st = (Raise (SystemExit code), st') →
  code = 1 ∧ libs_error st ≠ [] ∧
  ∃ ignore, env_at st (env st) !! "ignore_configure_errors" = Some ignore ∧
            truthy ignore = false.
Proof.
  intros Hrun. destruct (end_exit_inv st st' code Hrun) as (Hcode & Herrors & Hkey & Hfalse).
  split; [done|]. split; [done|].
  destruct (env_at st (env st) !! "ignore_configure_errors") as [ignore|]; [|done].
  by exists ignore.
Qed.

Lemma bind_returns {A B} (c : M A) (k : A → M B) st a st1 :
  c st = (Return a, st1) → bind c k st = k a st1.
Proof. unfold bind. by intros ->. Qed.

Lemma set_trace_app tr1 tr2 st :
  set_trace (λ t, t ++ tr2) (set_trace (λ t, t ++ tr1) st) =
  set_trace (λ t, t ++ tr1 ++ tr2) st.
Proof. unfold set_trace. simpl. by rewrite app_assoc. Qed.

Lemma set_trace_nil st : set_trace (λ t, t ++ []) st = st.
Proof. destruct st. unfold set_trace. simpl. by rewrite app_nil_r. Qed.

(** A loop that only writes. *)
Lemma forM_writes {A} (xs : list A) (body : A → M unit) (P : Event → Prop) st :
  (∀ x s, ∃ tr, body x s = (Return tt, set_trace (λ t, t ++ tr) s) ∧ Forall P tr) →
  ∃ tr, forM_ xs body st = (Return tt, set_trace (λ t, t ++ tr) st) ∧ Forall P tr.
Proof.
  intros Hbody. revert st. induction xs as [|x xs IH]; intros st; simpl.
  - exists []. by rewrite set_trace_nil.
  - destruct (Hbody x st) as (tr1 & Hx & Htr1).
    destruct (IH (set_trace (λ t, t ++ tr1) st)) as (tr2 & Hxs & Htr2).
    exists (tr1 ++ tr2). rewrite (bind_returns _ _ _ _ _ Hx), Hxs, set_trace_app.
    split; [done|]. by apply Forall_app.
Qed.

Lemma writeColor_writes key c st :
  env_at st (env st) !! key = Some (VStr c) →
  writeColor key st = (Return tt, set_trace (λ t, t ++ [EvWrite c]) st).
Proof.
  intros Hkey. unfold writeColor, envItem, envGet. rewrite !bind_gets, bind_assoc.
  rewrite bind_gets, Hkey. done.
Qed.

Lemma build_returns kind l target_ sources_ st :
  build kind l target_ sources_ st =
  (Return (scons_build kind (env_at st l) target_ sources_),
   set_trace (λ t, t ++ [EvBuilder kind l target_ sources_]) st).
Proof. done. Qed.

Lemma Alias_returns name_ targets st :
  Alias name_ targets st =
  (Return tt,
   set_aliases (λ al, <[name_ := default [] (al !! name_) ++ targets]> al) st).
Proof. done. Qed.

Lemma envItem_returns l key v st :
  env_at st l !! key = Some v → envItem l key st = (Return v, st).
Proof. intros Hkey. unfold envItem, envGet. by rewrite bind_gets, Hkey. Qed.

(** The run of [end] that exits. *)
Lemma end_exit_run (st : Project) (color_error color_clear : string)
    (ignore : Value) :
  windows st = false → libs_error st ≠ [] →
  env_at st (env st) !! "color_error" = Some (VStr color_error) →
  env_at st (env st) !! "color_clear" = Some (VStr color_clear) →
  env_at st (env st) !! "ignore_configure_errors" = Some ignore →
  truthy ignore = false →
  ∃ st' tr, end_ st = (Raise (SystemExit 1), st') ∧
    trace st' = trace st ++ tr ∧ Forall (λ ev, completes ev = false) tr ∧
    ∀ k, k ≠ "targets" → aliases st' !! k = aliases st !! k.
Proof.
  intros Hwindows Herrors Hcolor Hclear Hignore Hfalse.
  unfold end_. rewrite bind_gets, bind_gets, Hwindows.
  rewrite (bind_returns (when false _) _ st tt st eq_refl).
  rewrite (bind_returns _ _ _ _ _ (build_returns "Command" (env st) "always" [""] st)).
  rewrite (bind_returns _ _ _ _ _ (Alias_returns "targets" _ _)).
  set (st1 := set_aliases _ (set_trace _ st)).
  rewrite bind_gets. change (libs_error st1) with (libs_error st).
  rewrite bool_decide_eq_true_2 by done.
  change (when true ?c) with c. rewrite !bind_assoc.
  rewrite (bind_returns _ _ _ _ _ (writeColor_writes "color_error" color_error st1 Hcolor)).
  rewrite ?bind_assoc, bind_gets.
  set (st2 := set_trace _ st1).
  destruct (forM_writes (libs_error st)
              (λ a, bind (log (EvWrite ("Error in '" +:+ name (heap st2 a) +:+ "' library :")))
                      (λ _, when (negb (String.eqb (error (heap st2 a)) ""))
                              (log (EvWrite (error (heap st2 a))))))
              (λ ev, completes ev = false) st2) as (tr & Hloop & Htr).
  { intros a s. destruct (String.eqb (error (heap st2 a)) ""); simpl.
    - exists [EvWrite ("Error in '" +:+ name (heap st2 a) +:+ "' library :")].
      split; [reflexivity|]. by constructor.
    - exists [EvWrite ("Error in '" +:+ name (heap st2 a) +:+ "' library :");
              EvWrite (error (heap st2 a))].
      split; [|by repeat constructor].
      unfold bind, log, modify. by rewrite set_trace_app. }
  rewrite ?bind_assoc, (bind_returns _ _ _ _ _ Hloop). clear Hloop.
  set (st3 := set_trace _ st2).
  rewrite ?bind_assoc.
  rewrite (bind_returns _ _ _ _ _ (writeColor_writes "color_clear" color_clear st3 Hclear)).
  set (st4 := set_trace _ st3).
  rewrite ?bind_assoc.
  rewrite (bind_returns _ _ _ _ _ (envItem_returns (env st) _ ignore st4 Hignore)).
  rewrite Hfalse. change (when (negb false) ?c) with c. rewrite !bind_assoc.
  destruct (forM_writes configureErrorsMessage (λ line, log (EvWrite line))
              (λ ev, completes ev = false) st4) as (tr' & Hlines & Htr').
  { intros line s. exists [EvWrite line]. split; [reflexivity|]. by constructor. }
  rewrite ?bind_assoc, (bind_returns _ _ _ _ _ Hlines). clear Hlines.
  eexists _, _. split; [reflexivity|]. simpl. split; [|split].
  - rewrite <- !app_assoc. reflexivity.
  - rewrite !Forall_app. repeat split; try done; by repeat constructor.
  - intros k Hk. by rewrite lookup_insert_ne.
Qed.

(** X19: when libraries are in error and [ignore_configure_errors] is not
    set, [end] exits with status 1 (the colors being there to write the
    errors): the default targets are not set, the display of the status is
    not registered, and [targets] is the one alias that was defined. *)
Theorem end_exits_on_errors (st : Project) (color_error color_clear : string)
    (ignore : Value) :
  windows st = false → libs_error st ≠ [] →
  env_at st (env st) !! "color_error" = Some (VStr color_error) →
  env_at st (env st) !! "color_clear" = Some (VStr color_clear) →
  env_at st (env st) !! "ignore_configure_errors" = Some ignore →
  truthy ignore = false →
  ∃ st' tr, end_ st = (Raise (SystemExit 1), st') ∧
    trace st' = trace st ++ tr ∧ Forall (λ ev, completes ev = false) tr ∧
    ∀ k, k ≠ "targets" → aliases st' !! k = aliases st !! k.
Proof.
  intros Hwindows Herrors Hcolor Hclear Hignore Hfalse.
  destruct (end_exit_run st color_error color_clear ignore)
    as (st' & tr & Hrun & Htrace & Htr & Haliases); try done.
  by exists st', tr.
Qed.

(** C4, as the code has it: a target that [declareTarget] declares with an
    environment that carries missing dependencies is recorded in
    [removedFromDefaultTargets] and is not added to the alias [all],
    whatever [ignore_configure_errors] is: [declareTarget] does not read
    it.  The option acts in [end], which leaves
    [removedFromDefaultTargets] as it is: [end] exits only when libraries
    are in error and the option is false, with status 1; and in that case
    it does exit (off Windows, the colors it writes being strings). *)
Theorem declareTarget_degraded (l : loc) (target_ : string)
    (targetName : option string) (missingDeps : Value) (st : Project) :
  env_at st l !! missingKey = Some missingDeps →
  truthy missingDeps = true →
  (∃ st', declareTarget l target_ targetName st = (Return tt, st') ∧
     removedFromDefaultTargets st' !! default target_ (nonEmpty targetName)
       = Some missingDeps ∧
     aliases st' = aliases st ∧ envs st' = envs st) ∧
  ∀ s : Project,
    removedFromDefaultTargets (end_ s).2 = removedFromDefaultTargets s ∧
    (∀ code s', end_ s = (Raise (SystemExit code), s') →
       code = 1 ∧ libs_error s ≠ [] ∧
       ∃ ignore, env_at s (env s) !! "ignore_configure_errors" = Some ignore ∧
                 truthy ignore = false) ∧
    (∀ color_error color_clear ignore,
       windows s = false → libs_error s ≠ [] →
       env_at s (env s) !! "color_error" = Some (VStr color_error) →
       env_at s (env s) !! "color_clear" = Some (VStr color_clear) →
       env_at s (env s) !! "ignore_configure_errors" = Some ignore →
       truthy ignore = false →
       ∃ s', end_ s = (Raise (SystemExit 1), s')).
Proof.
  intros Hmissing Htrue. split; [by apply declareTarget_removed|].
  intros s. split; [|split].
  - destruct (respects_final sameErrors end_ (λ _, True) s end_sameErrors)
      as (_ & _ & _ & _ & Hremoved). exact Hremoved.
  - intros code s' Hrun.
    destruct (end_exit_inv s s' code Hrun) as (Hcode & Herrors & Hkey & Hfalse).
    split; [done|]. split; [done|].
    destruct (env_at s (env s) !! "ignore_configure_errors") as [ignore|]; [|done].
    by exists ignore.
  - intros color_error color_clear ignore Hwindows Herrors Hcolor Hclear Hignore Hfalse.
    destruct (end_exit_run s color_error color_clear ignore)
      as (s' & tr & Hrun & _); try done.
    by exists s'.
Qed.

End EndProperties.

Section MemoProperties.
Context `{Collab}.

Lemma run_grows {A} (c : M A) st o st' :
  c st = (o, st') → respects (λ _, True) grows c (λ _, True) → grows st st'.
Proof. intros Hrun Hc. by apply (Hc st o st' I Hrun). Qed.

(** After [checkLibrary] returned, the library is marked as checked, or it
    is trusted and the state is the one of the call. *)
Lemma checkLibrary_done fuel a st b st' :
  checkLibrary fuel a st = (Return b, st') →
  a ∈ checkDone st' ∨ ∃ node, sconsNode (heap st' a) = Some node.
Proof.
  intros Hrun. unfold checkLibrary in Hrun. rewrite !bind_gets in Hrun.
  destruct (bool_decide (a ∈ checkDone st)) eqn:Hdone.
  { injection Hrun as <- <-. left. by apply bool_decide_eq_true in Hdone. }
  destruct (sconsNode (heap st a)) as [node|] eqn:Hnode.
  { injection Hrun as <- <-. right. by exists node. }
  rewrite bind_gets in Hrun. left.
  destruct (bool_decide (name (heap st a) ∈ allLibsChecked st)).
  { injection Hrun as <- <-. simpl. set_solver. }
  apply bind_Return in Hrun as (nc & st1 & _ & Hrun). destruct nc; simpl in Hrun.
  - apply bind_Return in Hrun as (ok & st2 & _ & Hrun).
    injection Hrun as <- <-. simpl. set_solver.
  - injection Hrun as <- <-. simpl. set_solver.
Qed.

(** X20: [checkLibrary] tells the failure of a library once: whatever a
    call answered, every later call for the same checker answers [True]
    and does nothing. *)
Theorem checkLibrary_answers_once (fuel fuel' : nat) (a : addr) (b : bool)
    (st st' : Project) :
  checkLibrary fuel a st = (Return b, st') →
  checkLibrary fuel' a st' = (Return true, st').
Proof.
  intros Hrun. apply checkLibrary_done in Hrun as [Hdone|[node Hnode]];
    unfold checkLibrary; rewrite !bind_gets.
  - by rewrite bool_decide_eq_true_2.
  - destruct (bool_decide (a ∈ checkDone st')); [done|]. by rewrite Hnode.
Qed.

Lemma grows_trace_app st st' :
  grows st st' → ∃ tr, trace st' = trace st ++ tr.
Proof. intros Hg. destruct (grows_trace _ _ Hg) as [tr Htr]. by exists tr. Qed.

(** A probe tells what the library itself answered: its [configure] and
    its [check] on the scratch environment, which is new. *)
Lemma probeLibrary_answer fuel a st ok st' :
  probeLibrary fuel a st = (Return ok, st') →
  ∃ tr ok1 ok2, trace st' = trace st ++ tr ∧ ok = ok1 && ok2 ∧
    EvConfigure a (length (envs st)) ok1 ∈ tr ∧
    EvCheck a (length (envs st)) ok2 ∈ tr.
Proof.
  intros Hrun. unfold probeLibrary in Hrun. rewrite bind_gets in Hrun.
  apply bind_Return in Hrun as (deps & s & Hdeps & Hrun).
  assert (s = st) as ->.
  { destruct (findLibsDependencies fuel (heap st) (OneLib a)); [|done].
    by injection Hdeps as _ <-. }
  rewrite bind_gets in Hrun.
  apply bind_Return in Hrun as (check_env & s1 & Hclone & Hrun).
  assert (check_env = length (envs st)) as ->.
  { unfold Clone, envGet in Hclone. rewrite !bind_gets in Hclone.
    by injection Hclone as <- _. }
  apply run_grows in Hclone as Hg; [|accumulate].
  repeat match type of Hrun with
  | bind (callConfigure a _) _ _ = _ => fail 1
  | bind (gets _) _ _ = _ => rewrite bind_gets in Hrun
  | bind _ _ _ = _ =>
      let Hc := fresh "Hc" in
      let s' := fresh "s" in
      apply bind_Return in Hrun as (? & s' & Hc & Hrun);
      apply run_grows in Hc; [|accumulate];
      pose proof (grows_trans _ _ _ Hg Hc) as Hg'; clear Hg Hc; rename Hg' into Hg
  end.
  apply bind_Return in Hrun as (ok1 & s14 & Hconfigure & Hrun).
  apply callConfigure_trace in Hconfigure as Htrace1.
  apply run_grows in Hconfigure as Hg1; [|accumulate].
  apply bind_Return in Hrun as ([] & s15 & Hc15 & Hrun).
  apply run_grows in Hc15; [|accumulate].
  apply bind_Return in Hrun as ([] & s16 & Hc16 & Hrun).
  apply run_grows in Hc16; [|accumulate].
  apply bind_Return in Hrun as (ok2 & s17 & Hcheck & Hrun).
  apply callCheck_trace in Hcheck as Htrace2.
  apply bind_Return in Hrun as ([] & s18 & Hc18 & Hrun).
  apply run_grows in Hc18; [|accumulate].
  injection Hrun as <- <-.
  apply grows_trace_app in Hg as [t0 Ht0].
  apply grows_trace_app in Hc15 as [t15 Ht15].
  apply grows_trace_app in Hc16 as [t16 Ht16].
  apply grows_trace_app in Hc18 as [t18 Ht18].
  exists (t0 ++ [EvConfigure a (length (envs st)) ok1] ++ t15 ++ t16 ++
          [EvCheck a (length (envs st)) ok2] ++ t18), ok1, ok2.
  split; [|split; [done|split]].
  - rewrite Ht18, Htrace2, Ht16, Ht15, Htrace1, Ht0. by rewrite <- !app_assoc.
  - rewrite !elem_of_app, !list_elem_of_singleton. tauto.
  - rewrite !elem_of_app, !list_elem_of_singleton. tauto.
Qed.

(** X21: [checkLibrary] answers [False] only for a library that it probes,
    and only because the [configure] or the [check] of that library
    failed on the scratch environment of the probe: the library was not
    marked, had no [sconsNode] and a name not yet checked, checking was
    enabled; what its dependencies answered does not count. *)
Theorem checkLibrary_fails_on_its_own (fuel : nat) (a : addr) (st st' : Project) :
  checkLibrary fuel a st = (Return false, st') →
  (a ∉ checkDone st) ∧ sconsNode (heap st a) = None ∧
  (name (heap st a) ∉ allLibsChecked st) ∧ checkEnabled st ∧
  ∃ tr, trace st' = trace st ++ tr ∧
    (EvConfigure a (length (envs st)) false ∈ tr ∨
     EvCheck a (length (envs st)) false ∈ tr).
Proof.
  intros Hrun. unfold checkLibrary in Hrun. rewrite !bind_gets in Hrun.
  destruct (bool_decide (a ∈ checkDone st)) eqn:Hdone; [done|].
  apply bool_decide_eq_false in Hdone.
  destruct (sconsNode (heap st a)) as [node|] eqn:Hnode; [done|].
  rewrite bind_gets in Hrun.
  destruct (bool_decide (name (heap st a) ∈ allLibsChecked st)) eqn:Hchecked; [done|].
  apply bool_decide_eq_false in Hchecked.
  apply bind_Return in Hrun as (nc & st1 & Hnc & Hrun).
  unfold needCheck in Hnc. rewrite bind_gets in Hnc.
  apply bind_Return in Hnc as (v & s & Hv & [= <- <-]).
  unfold envItem, envGet in Hv. rewrite bind_gets in Hv.
  destruct (env_at st (env st) !! "check_libs") as [v'|] eqn:Hkey; [|done].
  injection Hv as -> <-.
  destruct (truthy v) eqn:Htruthy; simpl in Hrun; [|done].
  apply bind_Return in Hrun as (ok & st2 & Hprobe & Hrun).
  injection Hrun as -> <-.
  apply probeLibrary_answer in Hprobe as (tr & ok1 & ok2 & Htr & Hok & H1 & H2).
  split; [done|]. split; [done|]. split; [done|]. split; [by exists v|].
  exists tr. split; [done|].
  destruct ok1; [|by left]. destruct ok2; [done|by right].
Qed.

End MemoProperties.

(** The steps of a run that returned, up to the definition of the alias of
    the target. *)
Ltac to_alias Hrun :=
  repeat match type of Hrun with
    | bind (Alias _ _) _ _ = _ => fail 1
    | bind _ _ _ = _ => apply bind_Return in Hrun as (? & ? & _ & Hrun)
    | _ => progress cbv zeta in Hrun
    end.

Section TargetProperties.
Context `{Collab}.

(** A target that is declared joins the alias [all] or the targets removed
    from the default ones. *)
Lemma declareTarget_either l target_ st o st' :
  declareTarget l target_ None st = (o, st') →
  target_ ∈ default [] (aliases st' !! "all") ∨
  target_ ∈ dom (removedFromDefaultTargets st').
Proof.
  unfold declareTarget, envGet. rewrite bind_gets.
  destruct (truthy _); intros [= <- <-]; simpl.
  - right. set_solver.
  - left. rewrite lookup_insert_eq. simpl. set_solver.
Qed.

Lemma grows_alias st st' k x :
  grows st st' → x ∈ default [] (aliases st !! k) → x ∈ default [] (aliases st' !! k).
Proof.
  intros Hg Hx. destruct (grows_aliases _ _ Hg k) as [more ->].
  apply elem_of_app. by left.
Qed.

Lemma grows_either st st' target_ :
  grows st st' →
  target_ ∈ default [] (aliases st !! "all") ∨
    target_ ∈ dom (removedFromDefaultTargets st) →
  target_ ∈ default [] (aliases st' !! "all") ∨
    target_ ∈ dom (removedFromDefaultTargets st').
Proof.
  intros Hg [Hall|Hremoved]; [left; by eapply grows_alias|right].
  by apply (grows_removed _ _ Hg).
Qed.

(** The checker that exposes a library target. *)
Lemma exposeLibrary_run args libs_ node st a st' :
  exposeLibrary args libs_ node st = (Return a, st') →
  grows st st' ∧
  sconsNode (heap st' a) = Some node ∧ name (heap st' a) = target args ∧
  libs (heap st' a) = [target args] ∧
  dependencies (heap st' a) = Some <$> (libs_ ++ libDependencies args) ∧
  (public args = true →
   publicLibs st' !! publicOr (publicName args) (target args) = Some a).
Proof.
  intros Hrun. split; [eapply run_grows; [done|accumulate]|].
  unfold exposeLibrary, newLib, bind, gets, modify, ret, when in Hrun.
  destruct (public args); injection Hrun as <- <-; simpl;
    rewrite Nat.eqb_refl; simpl; repeat split; try done.
  intros _. apply lookup_insert_eq.
Qed.

Lemma trusted fuel a node st :
  sconsNode (heap st a) = Some node → checkLibrary fuel a st = (Return true, st).
Proof.
  intros Hnode. unfold checkLibrary. rewrite !bind_gets.
  destruct (bool_decide (a ∈ checkDone st)); [done|]. by rewrite Hnode.
Qed.

Lemma StaticLibrary_registered fuel args st node st' :
  StaticLibrary fuel args st = (Return node, st') → registered fuel args node st'.
Proof.
  intros Hrun. unfold StaticLibrary in Hrun.
  destruct (sourcesFiles args) as [|f files]; [done|].
  to_alias Hrun.
  apply bind_Return in Hrun as ([] & s1 & Halias & Hrun).
  apply bind_Return in Hrun as ([] & s2 & Hdeclare & Hrun).
  apply bind_Return in Hrun as ([] & s3 & Hvisual & Hrun).
  apply bind_Return in Hrun as (a & s4 & Hexpose & Hrun).
  apply bind_Return in Hrun as ([] & s5 & Hregister & Hrun).
  injection Hrun as -> <-. injection Hregister as <-.
  apply exposeLibrary_run in Hexpose as (Hg4 & Hnode & Hname & _ & _ & Hpublic).
  apply declareTarget_either in Hdeclare as Heither.
  apply run_grows in Hdeclare as Hg2; [|accumulate].
  apply run_grows in Hvisual as Hg3; [|unfold visualProjectOf; accumulate].
  injection Halias as <-.
  exists a. simpl. split; [apply lookup_insert_eq|]. split; [done|]. split; [done|].
  split; [done|]. split; [|split].
  - eapply grows_alias; [exact Hg4|]. eapply grows_alias; [exact Hg3|].
    eapply grows_alias; [exact Hg2|]. simpl. rewrite lookup_insert_eq. simpl.
    set_solver.
  - eapply (grows_either s3); [exact Hg4|]. by eapply (grows_either s2).
  - by apply (trusted fuel a node).
Qed.

Lemma SharedLibrary_registered fuel args st node st' :
  SharedLibrary fuel args st = (Return node, st') → registered fuel args node st'.
Proof.
  intros Hrun. unfold SharedLibrary in Hrun.
  destruct (sourcesFiles args) as [|f files]; [done|].
  apply bind_Return in Hrun as ([localEnv localLibraries] & s0 & _ & Hrun).
  to_alias Hrun.
  apply bind_Return in Hrun as ([] & s1 & Halias & Hrun).
  apply bind_Return in Hrun as ([] & s2 & Hdeclare & Hrun).
  apply bind_Return in Hrun as ([] & s3 & Hvisual & Hrun).
  apply bind_Return in Hrun as (a & s4 & Hexpose & Hrun).
  apply bind_Return in Hrun as ([] & s5 & Hpublic & Hrun).
  apply bind_Return in Hrun as ([] & s6 & Hregister & Hrun).
  injection Hrun as -> <-. injection Hregister as <-.
  apply exposeLibrary_run in Hexpose as (Hg4 & Hnode & Hname & _ & _ & Hlibs).
  apply declareTarget_either in Hdeclare as Heither.
  apply run_grows in Hdeclare as Hg2; [|accumulate].
  apply run_grows in Hvisual as Hg3; [|unfold visualProjectOf; accumulate].
  apply run_grows in Hpublic as Hg5; [|accumulate].
  assert (Hsame : heap s5 = heap s4 ∧ publicLibs s5 = publicLibs s4 ∧
                  checkDone s5 = checkDone s4).
  { destruct (nonEmpty (publicName args)); by injection Hpublic as <-. }
  destruct Hsame as (Hheap & Hpub & Hdone).
  injection Halias as <-.
  exists a. simpl. split; [apply lookup_insert_eq|]. rewrite Hheap, Hpub.
  split; [done|]. split; [done|]. split; [done|]. split; [|split].
  - eapply grows_alias; [exact Hg5|]. eapply grows_alias; [exact Hg4|].
    eapply grows_alias; [exact Hg3|]. eapply grows_alias; [exact Hg2|]. simpl.
    rewrite lookup_insert_eq. simpl. set_solver.
  - eapply (grows_either s4); [exact Hg5|]. eapply (grows_either s3); [exact Hg4|].
    by eapply (grows_either s2).
  - apply (trusted fuel a node). simpl. by rewrite Hheap.
Qed.

(** X22: a static or shared library that is declared is registered in
    [allTargets] with the node it returns and a checker that carries this
    node and the name of the target; the alias of the target holds the
    node; the target is in the alias [all] or among the targets removed from
    the default ones; and [checkLibrary] trusts the checker. *)
Theorem library_target_registered (fuel : nat) (args : TargetArgs) (node : Node)
    (st st' : Project) :
  StaticLibrary fuel args st = (Return node, st') ∨
  SharedLibrary fuel args st = (Return node, st') →
  registered fuel args node st'.
Proof.
  intros [Hrun|Hrun];
    [by eapply StaticLibrary_registered|by eapply SharedLibrary_registered].
Qed.

(** X23: a program that is declared is registered in [allTargets] with
    the node it returns and no checker; the alias of the target holds the
    node, and the target is in the alias [all] or among the targets removed
    from the default ones. *)
Theorem Program_registered (fuel : nat) (args : TargetArgs) (node : Node)
    (st st' : Project) :
  Program fuel args st = (Return node, st') →
  allTargets st' !! target args = Some (Some node, None) ∧
  node ∈ default [] (aliases st' !! target args) ∧
  (target args ∈ default [] (aliases st' !! "all") ∨
   target args ∈ dom (removedFromDefaultTargets st')).
Proof.
  intros Hrun. unfold Program in Hrun.
  destruct (sourcesFiles args) as [|f files]; [done|].
  to_alias Hrun.
  apply bind_Return in Hrun as ([] & s1 & Halias & Hrun).
  apply bind_Return in Hrun as ([] & s2 & Hdeclare & Hrun).
  apply bind_Return in Hrun as ([] & s3 & Hvisual & Hrun).
  apply bind_Return in Hrun as ([] & s4 & Hregister & Hrun).
  injection Hrun as -> <-. injection Hregister as <-.
  apply declareTarget_either in Hdeclare as Heither.
  apply run_grows in Hdeclare as Hg2; [|accumulate].
  apply run_grows in Hvisual as Hg3; [|unfold visualProjectOf; accumulate].
  injection Halias as <-.
  simpl. split; [apply lookup_insert_eq|]. split.
  - eapply grows_alias; [exact Hg3|]. eapply grows_alias; [exact Hg2|]. simpl.
    rewrite lookup_insert_eq. simpl. set_solver.
  - by eapply (grows_either s2).
Qed.

(** X24: an object library is registered in [allTargets] without a node,
    with a checker that has no [sconsNode], the name of the target and the
    given libraries as dependencies: [checkLibrary] does not trust it as it
    trusts a library that is built.  No alias is defined and nothing joins
    the alias [all]. *)
Theorem ObjectLibrary_registered (fuel : nat) (args : TargetArgs) (a : addr)
    (st st' : Project) :
  ObjectLibrary fuel args st = (Return a, st') →
  allTargets st' !! publicOr (publicName args) (target args) = Some (None, Some a) ∧
  sconsNode (heap st' a) = None ∧ name (heap st' a) = target args ∧
  dependencies (heap st' a) = Some <$> libraries args ∧
  (public args = true →
   publicLibs st' !! publicOr (publicName args) (target args) = Some a) ∧
  aliases st' = aliases st ∧
  removedFromDefaultTargets st' = removedFromDefaultTargets st.
Proof.
  intros Hrun. unfold ObjectLibrary in Hrun.
  apply bind_Return in Hrun as (l & s1 & Henv & Hrun).
  apply (createEnv_declares fuel (libraries args) (target args) _ _ _ I) in Henv
    as [(_ & Haliases & Hremoved & _) _].
  unfold newLib, bind, gets, modify, ret, when in Hrun.
  assert (Hname : ∀ t, (if String.eqb t "" then "" else t) = t).
  { intros t. by destruct (String.eqb_spec t "") as [->|]. }
  destruct (public args); injection Hrun as <- <-; simpl;
    rewrite Nat.eqb_refl; simpl; rewrite Hname; repeat split; try done;
    try apply lookup_insert_eq.
  intros _. apply lookup_insert_eq.
Qed.

(** The Visual Studio project of a target ends on the attribute that the
    project does not have. *)
Lemma MSVSProject_offWindows targetName node files l :
  offWindows (MSVSProject targetName node files l).
Proof.
  intros st [] st' Hrun. unfold MSVSProject in Hrun. rewrite bind_gets in Hrun.
  destruct (windows st); [exfalso|done]. simpl in Hrun.
  apply bind_Return in Hrun as (l_env & s1 & _ & Hrun).
  apply bind_Return in Hrun as (mode & s2 & _ & Hrun).
  apply bind_Return in Hrun as ([] & s3 & _ & Hrun).
  apply bind_Return in Hrun as (suffix & s4 & _ & Hrun).
  apply bind_Return in Hrun as (visualProjectFile & s5 & _ & Hrun).
  apply bind_Return in Hrun as (ext & s6 & _ & Hrun).
  apply bind_Return in Hrun as ([] & s7 & _ & Hrun).
  by apply bind_Return in Hrun as (cpppath & s8 & Hconvert & _).
Qed.

Lemma visualProjectOf_offWindows args l node files :
  offWindows (visualProjectOf args l node files).
Proof.
  intros st [] st' Hrun. unfold visualProjectOf in Hrun. rewrite bind_gets in Hrun.
  destruct (windows st) eqn:Hwindows; [|done]. simpl in Hrun.
  apply MSVSProject_offWindows in Hrun. congruence.
Qed.

(** A computation returns off Windows when its first step does, or when
    what follows a first step that keeps the settings does. *)
Lemma offWindows_now {A B} (c : M A) (k : A → M B) : offWindows c → offWindows (bind c k).
Proof.
  intros Hc st b st' Hrun. apply bind_Return in Hrun as (a & st1 & Hrun & _).
  by eapply Hc.
Qed.

Lemma offWindows_later {A B} (c : M A) (k : A → M B) :
  respects (λ _, True) grows c (λ _, True) → (∀ a, offWindows (k a)) →
  offWindows (bind c k).
Proof.
  intros Hc Hk st b st' Hrun. apply bind_Return in Hrun as (a & st1 & Hrun & Hrest).
  apply Hk in Hrest. apply (run_grows _ _ _ _ Hrun) in Hc.
  by rewrite <- (grows_windows _ _ Hc).
Qed.

Local Ltac off_windows :=
  repeat match goal with
    | |- offWindows (bind (visualProjectOf _ _ _ _) _) =>
        apply offWindows_now, visualProjectOf_offWindows
    | |- offWindows (bind _ _) => apply offWindows_later; [accumulate|intros ?]
    | |- offWindows (let '(_, _) := ?x in _) => destruct x
    | |- offWindows _ => progress cbv zeta
    end.

(** X13: a library or a program that is declared has a source file and is
    not declared on Windows: there the Visual Studio project of the target
    ends on the attribute [convertSconsPathToStr], which the project does
    not have, so that [StaticLibrary], [SharedLibrary] and [Program] never
    return. *)
Theorem targets_return_off_windows (fuel : nat) (args : TargetArgs) (node : Node)
    (st st' : Project) :
  StaticLibrary fuel args st = (Return node, st') ∨
  SharedLibrary fuel args st = (Return node, st') ∨
  Program fuel args st = (Return node, st') →
  sourcesFiles args ≠ [] ∧ windows st = false.
Proof.
  assert (Hstatic : sourcesFiles args ≠ [] → offWindows (StaticLibrary fuel args)).
  { unfold StaticLibrary. destruct (sourcesFiles args) as [|f files]; [done|].
    intros _. off_windows. }
  assert (Hshared : sourcesFiles args ≠ [] → offWindows (SharedLibrary fuel args)).
  { unfold SharedLibrary. destruct (sourcesFiles args) as [|f files]; [done|].
    intros _. off_windows. }
  assert (Hprogram : sourcesFiles args ≠ [] → offWindows (Program fuel args)).
  { unfold Program. destruct (sourcesFiles args) as [|f files]; [done|].
    intros _. off_windows. }
  intros Hrun.
  assert (Hsources : sourcesFiles args ≠ []).
  { intros Hnone. unfold StaticLibrary, SharedLibrary, Program in Hrun.
    rewrite Hnone in Hrun. by destruct Hrun as [|[|]]. }
  split; [done|]. destruct Hrun as [Hrun|[Hrun|Hrun]].
  - by eapply Hstatic.
  - by eapply Hshared.
  - by eapply Hprogram.
Qed.

End TargetProperties.

Section QuietProperties.
Context `{Collab}.

Lemma unconfigured_refl st : unconfigured st st.
Proof. constructor; try done. exists []. by rewrite app_nil_r. Qed.

Lemma unconfigured_trans st1 st2 st3 :
  unconfigured st1 st2 → unconfigured st2 st3 → unconfigured st1 st3.
Proof.
  intros [(tr1 & Ht1 & Hp1) ? ? ? ? ?] [(tr2 & Ht2 & Hp2) ? ? ? ? ?].
  constructor; try congruence.
  exists (tr1 ++ tr2). rewrite Ht2, Ht1, app_assoc. split; [done|].
  by apply Forall_app.
Qed.

Lemma log_unconfigured ev :
  configures ev = false → respects (λ _, True) unconfigured (log ev) (λ _, True).
Proof.
  intros Hev. apply respects_modify. intros st _. constructor; try done.
  exists [ev]. split; [done|]. by constructor.
Qed.

Lemma envUpdate_unconfigured l f :
  respects (λ _, True) unconfigured (envUpdate l f) (λ _, True).
Proof.
  apply respects_modify. intros st _. constructor; try done.
  - exists []. simpl. by rewrite app_nil_r.
  - simpl. by rewrite length_alter.
Qed.

Lemma modify_unconfigured (f : Project → Project) :
  (∀ st, trace (f st) = trace st ∧ envs (f st) = envs st ∧
         checkDone (f st) = checkDone st ∧ allLibsChecked (f st) = allLibsChecked st ∧
         opt_clean (f st) = opt_clean st ∧ opt_help (f st) = opt_help st) →
  respects (λ _, True) unconfigured (modify f) (λ _, True).
Proof.
  intros Hf. apply respects_modify. intros st _.
  destruct (Hf st) as (Ht & He & Hc & Ha & Hcl & Hh). constructor; try done.
  - exists []. by rewrite app_nil_r.
  - by rewrite He.
Qed.

Local Ltac unconfigured_known :=
  match goal with
  | |- respects _ _ (log _) _ => apply log_unconfigured; reflexivity
  | |- respects _ _ (envUpdate _ _) _ => apply envUpdate_unconfigured
  | |- respects _ _ (recordError _) _ => apply modify_unconfigured; by intros
  | |- respects _ _ (modify (set_opts _)) _ => apply modify_unconfigured; by intros
  end.

Local Ltac quiet :=
  walk unconfigured_refl unconfigured_trans ltac:(idtac; unconfigured_known).

Lemma run_respects (R : Project → Project → Prop) {A} (c : M A) st o st' :
  c st = (o, st') → respects (λ _, True) R c (λ _, True) → R st st'.
Proof. intros Hrun Hc. by apply (Hc st o st' I Hrun). Qed.

(** X25: when the build is cleaned or its help is asked, [appendLibsToEnv]
    configures and checks no library: the events it adds are those of the
    options, of [initEnv] and of [postconfigure], no environment is
    created for a probe, and the memo of [checkLibrary] is left as it
    was. *)
Theorem appendLibsToEnv_without_configure (fuel : nat) (l : loc) (libs_ : list addr)
    (name_ : string) (st st' : Project) (o : Outcome loc) :
  opt_clean st = true ∨ opt_help st = true →
  appendLibsToEnv fuel l libs_ name_ st = (o, st') →
  unconfigured st st'.
Proof.
  intros Hoff Hrun. unfold appendLibsToEnv in Hrun.
  destruct libs_ as [|lib libs_]; [injection Hrun as <- <-; apply unconfigured_refl|].
  apply bind_run in Hrun as [(allLibs & s1 & Hinit & Hrun)|(e & Hinit & _)];
    apply run_respects with (R := unconfigured) in Hinit; try done; try quiet.
  unfold needConfigure in Hrun. rewrite bind_gets in Hrun.
  assert (Hnc : negb (opt_clean s1) && negb (opt_help s1) = false).
  { rewrite (unconfigured_clean _ _ Hinit), (unconfigured_help _ _ Hinit).
    destruct Hoff as [-> | ->]; [done|apply andb_false_r]. }
  rewrite Hnc in Hrun. simpl in Hrun. rewrite bind_ret in Hrun.
  apply run_respects with (R := unconfigured) in Hrun; [|quiet].
  by eapply unconfigured_trans.
Qed.

End QuietProperties.

Section OptionsProperties.
Context `{Collab}.

(** A loop that sets keys of an environment to one value. *)
Lemma forM_set_keys (ks : list string) (v : Value) (l : loc) st st' :
  forM_ ks (λ c, envUpdate l (<[c := v]>)) st = (Return tt, st') →
  l < length (envs st) →
  (∀ c, c ∈ ks → env_at st' l !! c = Some v) ∧
  (∀ c, c ∉ ks → env_at st' l !! c = env_at st l !! c).
Proof.
  revert st. induction ks as [|k ks IH]; intros st Hrun Hl; simpl in Hrun.
  - injection Hrun as <-. split; [|done]. intros c Hc. by apply elem_of_nil in Hc.
  - apply bind_Return in Hrun as ([] & s1 & Hk & Hrun). injection Hk as <-.
    destruct (IH _ Hrun) as [Hin Hout].
    { simpl. by rewrite length_alter. }
    assert (Hat : env_at (set_envs (alter <[k:=v]> l) st) l = <[k:=v]> (env_at st l)).
    { rewrite env_at_alter. by rewrite decide_True. }
    split.
    + intros c [->|Hc]%elem_of_cons; [|by apply Hin].
      destruct (decide (k ∈ ks)) as [Hk|Hk]; [by apply Hin|].
      rewrite (Hout k Hk), Hat. apply lookup_insert_eq.
    + intros c Hc. apply not_elem_of_cons in Hc as [Hne Hc].
      rewrite (Hout c Hc), Hat. by apply lookup_insert_ne.
Qed.

(** X26: when [applyOptionsOnEnv] leaves an environment in which [colors]
    is off, the twenty color variables of this environment are empty
    strings. *)
Theorem applyOptionsOnEnv_without_colors (l : loc) (st st' : Project)
    (colors : Value) :
  applyOptionsOnEnv l st = (Return tt, st') →
  env_at st' l !! "colors" = Some colors → truthy colors = false →
  ∀ c, c ∈ color_keys → env_at st' l !! c = Some (VStr "").
Proof.
  intros Hrun Hcolors Hoff. unfold applyOptionsOnEnv in Hrun.
  rewrite bind_gets in Hrun.
  apply bind_Return in Hrun as (inc & s1 & _ & Hrun).
  apply bind_Return in Hrun as ([] & s2 & _ & Hrun).
  apply bind_Return in Hrun as (path & s3 & _ & Hrun).
  apply bind_Return in Hrun as ([] & s4 & _ & Hrun).
  apply bind_Return in Hrun as (libpath & s5 & _ & Hrun).
  apply bind_Return in Hrun as ([] & s6 & _ & Hrun).
  apply bind_Return in Hrun as (read & s7 & Hread & Hrun).
  unfold envItem, envGet, bind, gets in Hread.
  destruct (env_at s6 l !! "colors") as [v|] eqn:Hkey; [|done].
  injection Hread as -> <-.
  unfold when in Hrun. destruct (truthy read) eqn:Htruthy; cbn [negb] in Hrun.
  { injection Hrun as <-. congruence. }
  assert (Hl : l < length (envs s6)).
  { unfold env_at in Hkey. destruct (envs s6 !! l) as [e|] eqn:He; [|done].
    by apply lookup_lt_Some in He. }
  destruct (forM_set_keys _ _ _ _ _ Hrun Hl) as [Hin _]. exact Hin.
Qed.

End OptionsProperties.

(** ** [appendDict] *)

Section AppendDictProperties.
Context `{Collab}.

Lemma appendDict_foldl dst src : appendDict dst src = foldl appendItem dst src.
Proof. done. Qed.

Lemma keys_functional (d : Flags) k a b :
  NoDup d.*1 → (k, a) ∈ d → (k, b) ∈ d → a = b.
Proof.
  intros Hnd [i Hi]%list_elem_of_lookup [j Hj]%list_elem_of_lookup.
  assert (i = j) as ->; [|congruence].
  eapply NoDup_lookup; [exact Hnd| |]; rewrite list_lookup_fmap.
  - by rewrite Hi.
  - by rewrite Hj.
Qed.

Lemma key_elem (d : Flags) k : k ∈ d.*1 ↔ ∃ v, (k, v) ∈ d.
Proof.
  rewrite list_elem_of_fmap. split.
  - intros ([k' v] & -> & Hin). by exists v.
  - intros [v Hin]. by exists (k, v).
Qed.

Lemma appendItem_present dst k v old :
  NoDup dst.*1 → (k, old) ∈ dst →
  (appendItem dst (k, v)).*1 = dst.*1 ∧
  (k, mergedValue old v) ∈ appendItem dst (k, v) ∧
  ∀ k' v', k' ≠ k → (k', v') ∈ appendItem dst (k, v) ↔ (k', v') ∈ dst.
Proof.
  intros Hnd Hin. unfold appendItem.
  destruct (list_find (λ e, e.1 = k) dst) as [[i [k' old']]|] eqn:Hfind.
  - apply list_find_Some in Hfind as (Hi & Hk & _). simpl in Hk. subst k'.
    assert (old' = old) as ->.
    { eapply keys_functional; [exact Hnd| |exact Hin]. by eapply list_elem_of_lookup_2. }
    split; [|split].
    + rewrite list_fmap_insert. simpl. apply list_insert_id.
      by rewrite list_lookup_fmap, Hi.
    + apply list_elem_of_lookup. exists i. apply list_lookup_insert_eq.
      by apply lookup_lt_Some in Hi.
    + intros k' v' Hne. rewrite !list_elem_of_lookup. split.
      * intros [j Hj]. destruct (decide (j = i)) as [->|Hji].
        -- rewrite list_lookup_insert_eq in Hj by (by apply lookup_lt_Some in Hi).
           congruence.
        -- rewrite list_lookup_insert_ne in Hj by done. by exists j.
      * intros [j Hj]. exists j. destruct (decide (j = i)) as [->|Hji]; [congruence|].
        by rewrite list_lookup_insert_ne.
  - exfalso. apply list_find_None in Hfind.
    rewrite Forall_forall in Hfind. by apply (Hfind _ Hin).
Qed.

Lemma appendItem_absent dst k v :
  k ∉ dst.*1 → appendItem dst (k, v) = dst ++ [(k, v)].
Proof.
  intros Hk. unfold appendItem.
  destruct (list_find (λ e, e.1 = k) dst) as [[i [k' old']]|] eqn:Hfind; [|done].
  apply list_find_Some in Hfind as (Hi & Hk' & _). simpl in Hk'. subst k'.
  exfalso. apply Hk. apply key_elem. exists old'. by eapply list_elem_of_lookup_2.
Qed.

Lemma keys_snoc (dst : Flags) k v :
  NoDup dst.*1 → k ∉ dst.*1 → NoDup (dst ++ [(k, v)]).*1.
Proof.
  intros Hnd Hk. rewrite fmap_app. apply NoDup_app. split; [done|].
  split; [|apply NoDup_singleton]. by intros x Hx ->%list_elem_of_singleton.
Qed.

Lemma filter_absent_snoc (d ks : list string) k :
  k ∉ ks → filter (λ x, x ∉ d ++ [k]) ks = filter (λ x, x ∉ d) ks.
Proof.
  induction ks as [|x ks IH]; intros Hk; [done|].
  apply not_elem_of_cons in Hk as [Hne Hk]. rewrite !filter_cons, IH by done.
  destruct (decide (x ∉ d)) as [Hx|Hx].
  - rewrite decide_True; [done|]. rewrite elem_of_app, list_elem_of_singleton.
    intros [?|?]; [done|congruence].
  - rewrite decide_False; [done|]. intros Hn. apply Hx. intros Hd. apply Hn.
    apply elem_of_app. by left.
Qed.

(** X27: [appendDict] keeps the keys of [dst], in their order, and adds
    after them the keys of [src] that [dst] lacks, in the order of
    [src]. *)
Theorem appendDict_keys (dst src : Flags) :
  NoDup dst.*1 → NoDup src.*1 →
  (appendDict dst src).*1 = dst.*1 ++ filter (λ k, k ∉ dst.*1) src.*1 ∧
  NoDup (appendDict dst src).*1.
Proof.
  rewrite appendDict_foldl. revert dst.
  induction src as [|[k v] src IH]; intros dst Hdst Hsrc; cbn [foldl].
  - simpl. by rewrite app_nil_r.
  - rewrite fmap_cons in Hsrc |- *. cbn [fst] in Hsrc |- *.
    apply NoDup_cons in Hsrc as [Hk Hsrc].
    rewrite filter_cons. destruct (decide (k ∈ dst.*1)) as [Hin|Hout].
    + pose proof Hin as Hin'. apply key_elem in Hin' as [old Hold].
      destruct (appendItem_present dst k v old Hdst Hold) as (Hkeys & _ & _).
      rewrite decide_False by (by intros Hn).
      destruct (IH (appendItem dst (k, v))) as [Heq Hnd]; [by rewrite Hkeys|done|].
      split; [|done]. by rewrite Heq, Hkeys.
    + rewrite decide_True by done. rewrite (appendItem_absent dst k v Hout).
      destruct (IH (dst ++ [(k, v)])) as [Heq Hnd]; [by apply keys_snoc|done|].
      split; [|done]. rewrite Heq, fmap_app. simpl. rewrite <- app_assoc. simpl.
      by rewrite filter_absent_snoc.
Qed.

(** X28: after [appendDict], a key of both dicts holds the merge of its two
    values, a key of [dst] alone keeps its value, and a key of [src] alone
    gets the value of [src]; the result has no other items. *)
Theorem appendDict_items (dst src : Flags) (k : string) (x : Value) :
  NoDup dst.*1 → NoDup src.*1 →
  (k, x) ∈ appendDict dst src ↔
    (∃ old v, (k, old) ∈ dst ∧ (k, v) ∈ src ∧ x = mergedValue old v) ∨
    ((k, x) ∈ dst ∧ k ∉ src.*1) ∨
    ((k, x) ∈ src ∧ k ∉ dst.*1).
Proof.
  rewrite appendDict_foldl. revert dst.
  induction src as [|[k0 v0] src IH]; intros dst Hdst Hsrc; cbn [foldl].
  - split.
    + intros Hin. right. left. split; [done|]. apply not_elem_of_nil.
    + intros [(old & v & _ & Hv & _)|[[Hin _]|[Hin _]]]; try done.
      * by apply elem_of_nil in Hv.
      * by apply elem_of_nil in Hin.
  - rewrite fmap_cons in Hsrc |- *. cbn [fst] in Hsrc |- *.
    apply NoDup_cons in Hsrc as [Hk0 Hsrc].
    assert (Hsrc0 : ∀ v, (k0, v) ∉ src).
    { intros v Hv. apply Hk0. apply key_elem. by exists v. }
    destruct (decide (k0 ∈ dst.*1)) as [Hin|Hout].
    + apply key_elem in Hin as [old0 Hold0].
      destruct (appendItem_present dst k0 v0 old0 Hdst Hold0) as (Hkeys & Hmerged & Hother).
      rewrite IH; [|by rewrite Hkeys|done]. rewrite Hkeys.
      destruct (decide (k = k0)) as [->|Hne].
      * split.
        -- intros [(old & v & _ & Hv & _)|[[Hx _]|[Hx _]]].
           ++ by apply Hsrc0 in Hv.
           ++ left. exists old0, v0. split; [done|]. split; [apply list_elem_of_here|].
              eapply keys_functional; [|exact Hx|exact Hmerged]. by rewrite Hkeys.
           ++ by apply Hsrc0 in Hx.
        -- intros [(old & v & Ho & Hv & ->)|[[Hx Hn]|[Hx Hn]]].
           ++ right. left. split; [|done].
              apply elem_of_cons in Hv as [[= ->]|Hv]; [|by apply Hsrc0 in Hv].
              by rewrite (keys_functional _ _ _ _ Hdst Ho Hold0).
           ++ exfalso. apply Hn. apply list_elem_of_here.
           ++ exfalso. apply Hn. apply key_elem. by exists old0.
      * rewrite !Hother by done. rewrite !not_elem_of_cons.
        split.
        -- intros [(old & v & Ho & Hv & ->)|[[Hx Hn]|[Hx Hn]]].
           ++ left. exists old, v. rewrite Hother in Ho by done.
              split; [done|]. split; [by apply list_elem_of_further|done].
           ++ right. left. done.
           ++ right. right. split; [by apply list_elem_of_further|done].
        -- intros [(old & v & Ho & Hv & ->)|[[Hx [_ Hn]]|[Hx Hn]]].
           ++ left. exists old, v. rewrite Hother by done.
              apply elem_of_cons in Hv as [[= ? ?]|Hv]; [done|]. done.
           ++ right. left. done.
           ++ right. right. apply elem_of_cons in Hx as [[= ? ?]|Hx]; done.
    + rewrite (appendItem_absent dst k0 v0 Hout).
      rewrite IH; [|by apply keys_snoc|done].
      assert (Hdst0 : ∀ v, (k0, v) ∉ dst).
      { intros v Hv. apply Hout. apply key_elem. by exists v. }
      rewrite fmap_app. simpl.
      destruct (decide (k = k0)) as [->|Hne].
      * split.
        -- intros [(old & v & _ & Hv & _)|[[Hx _]|[Hx _]]].
           ++ by apply Hsrc0 in Hv.
           ++ right. right. split; [|done].
              apply elem_of_app in Hx as [Hx|Hx]; [by apply Hdst0 in Hx|].
              apply list_elem_of_singleton in Hx as [= ->]. apply list_elem_of_here.
           ++ by apply Hsrc0 in Hx.
        -- intros [(old & v & Ho & _)|[[Hx _]|[Hx _]]].
           ++ by apply Hdst0 in Ho.
           ++ by apply Hdst0 in Hx.
           ++ right. left. split; [|done].
              apply elem_of_cons in Hx as [[= ->]|Hx]; [|by apply Hsrc0 in Hx].
              apply elem_of_app. right. apply list_elem_of_here.
      * assert (Hd : ∀ y, (k, y) ∈ dst ++ [(k0, v0)] ↔ (k, y) ∈ dst).
        { intros y. rewrite elem_of_app, list_elem_of_singleton. split.
          - intros [?|[= ? ?]]; done.
          - by left. }
        assert (Hs : ∀ y, (k, y) ∈ (k0, v0) :: src ↔ (k, y) ∈ src).
        { intros y. rewrite elem_of_cons. split.
          - intros [[= ? ?]|?]; done.
          - by right. }
        assert (Hdk : k ∈ dst.*1 ++ [k0] ↔ k ∈ dst.*1).
        { rewrite elem_of_app, list_elem_of_singleton. split.
          - intros [?|?]; done.
          - by left. }
        assert (Hsk : k ∈ k0 :: src.*1 ↔ k ∈ src.*1).
        { rewrite elem_of_cons. split.
          - intros [?|?]; done.
          - by right. }
        rewrite Hdk, Hsk. setoid_rewrite Hd. setoid_rewrite Hs. done.
Qed.

End AppendDictProperties.

(** * The properties on the small project *)

#[local] Existing Instance Fixture.collab.

(** The scenario of the specification: [D] requested directly and through
    [E]; here [A] is reached twice and kept once, at its first place. *)
Example uniqLibs_scenario :
  uniqLibs Fixture.heap0
    [(Fixture.libA, 0); (Fixture.libA, 1); (Fixture.libB, 0); (Fixture.libA, 0)]
  = [(Fixture.libA, 0); (Fixture.libB, 0)].
Proof. vm_compute. reflexivity. Qed.

(** [Closure([C])] is [A], [B], [C]. *)
Example resolvedLibs_scenario :
  resolvedLibs 10 Fixture.heap0 [Fixture.libC]
  = Some [(Fixture.libA, 1); (Fixture.libB, 0); (Fixture.libC, 0)].
Proof. vm_compute. reflexivity. Qed.

(** A cycle exhausts the stack. *)
Example resolvedLibs_cycle :
  resolvedLibs 10 (λ _, Fixture.extLib "loop" 0 [Some 0] true true) [0] = None.
Proof. vm_compute. reflexivity. Qed.

(** C1, as stated, fails: three distinct [(name, id)] pairs are requested,
    one probe is made: the internal library is trusted and the second
    [boost] is taken for the first. *)
Lemma checkLibraries_probe_count_counterexample :
  let run := checkLibraries 10 Fixture.variantRequests Fixture.project0 in
  run.1 = Return [true; true; true] ∧
  probeCount (trace run.2) = 1 ∧
  length (remove_dups (libKey Fixture.heap0 <$> Fixture.variantRequests)) = 3.
Proof. vm_compute. done. Qed.

Lemma checkLibraries_probe_count_witness :
  let run := checkLibraries 10 Fixture.sharedRequests Fixture.project0 in
  probeCount (trace run.2) =
    probeCount (trace Fixture.project0) +
    length (remove_dups (libKey Fixture.heap0 <$>
              filter (λ a, external Fixture.heap0 a = true) Fixture.sharedRequests)).
Proof.
  apply (checkLibraries_probe_count 10 Fixture.sharedRequests Fixture.project0 _
           [false; true; true; true]).
  - reflexivity.
  - reflexivity.
  - simpl. lia.
  - exists (VBool true). split; reflexivity.
  - intros a b Ha Hb _ _ _. unfold Fixture.sharedRequests in Ha, Hb.
    rewrite !elem_of_cons, elem_of_nil in Ha, Hb.
    destruct Ha as [->|[->|[->|[->|[]]]]]; destruct Hb as [->|[->|[->|[->|[]]]]];
      reflexivity.
  - vm_compute. reflexivity.
Defined.

(** C2, as stated, fails: two checkers [M] share a [(name, id)] pair; the
    one that [L] depends on is not in the resolved list. *)
Lemma resolvedLibs_leaf_first_counterexample :
  let h := Sample.heapTwins in
  let rank := λ a : addr, if Nat.eqb a 3 then 1 else 0 in
  (∀ a d, Some d ∈ dependencies (h a) → rank d < rank a) ∧
  resolvedLibs 10 h [1; 3] = Some [(1, 0); (3, 0)] ∧
  Some 2 ∈ dependencies (h 3) ∧
  ∀ level, (2, level) ∉ [(1, 0); (3, 0)].
Proof.
  split; [|split; [|split]].
  - intros a d. do 4 (destruct a as [|a]; [simpl; rewrite ?elem_of_cons, ?elem_of_nil;
      intros Hin; decompose [or] Hin; simplify_eq; simpl; try lia|]).
    simpl. rewrite elem_of_nil. done.
  - vm_compute. reflexivity.
  - apply list_elem_of_here.
  - intros level. rewrite !elem_of_cons, elem_of_nil. intros [[=]|[[=]|[]]].
Qed.

(** The dependencies of the small project are [A] and [B]. *)
Lemma heap0_dependencies (a d : addr) :
  Some d ∈ dependencies (Fixture.heap0 a) → d = Fixture.libA ∨ d = Fixture.libB.
Proof.
  do 8 (destruct a as [|a]; [simpl; rewrite ?elem_of_cons, ?elem_of_nil;
    intros Hin; decompose [or] Hin; simplify_eq; try done; auto|]).
  simpl. rewrite elem_of_nil. done.
Qed.

Lemma heap0_reaches (k : nat) (a d : addr) :
  reaches Fixture.heap0 k a d → d = Fixture.libA ∨ d = Fixture.libB.
Proof.
  revert a. induction k as [|k IH]; intros a; simpl.
  - apply heap0_dependencies.
  - intros (m & _ & Hr). by eapply IH.
Qed.

Lemma resolvedLibs_leaf_first_witness :
  let h := Fixture.heap0 in
  let libs_ := [Fixture.libC; Fixture.libInternal] in
  ∃ res, resolvedLibs 10 h libs_ = Some res ∧
    (∀ a, needed h libs_ a → ∃ level, (a, level) ∈ res) ∧
    ∀ i a level d, res !! i = Some (a, level) → Some d ∈ dependencies (h a) →
      ∃ j level', j < i ∧ res !! j = Some (d, level').
Proof.
  destruct (resolvedLibs_leaf_first Fixture.heap0 Fixture.rank0 10
              [Fixture.libC; Fixture.libInternal])
    as (res & Hres & _ & _ & _ & Hobjects).
  - intros a d. do 8 (destruct a as [|a]; [simpl; rewrite ?elem_of_cons, ?elem_of_nil;
      intros Hin; decompose [or] Hin; simplify_eq; simpl; try lia|]).
    simpl. rewrite elem_of_nil. done.
  - intros a Ha. rewrite !elem_of_cons, elem_of_nil in Ha.
    destruct Ha as [->|[->|[]]]; simpl; lia.
  - exists res. split; [exact Hres|]. apply Hobjects.
    assert (Hneeded : ∀ a, needed Fixture.heap0 [Fixture.libC; Fixture.libInternal] a →
              a = Fixture.libA ∨ a = Fixture.libB ∨ a = Fixture.libC ∨
              a = Fixture.libInternal).
    { intros a [Ha|(lib & k & _ & Hr)].
      - rewrite !elem_of_cons, elem_of_nil in Ha. tauto.
      - apply heap0_reaches in Hr. tauto. }
    intros a b Ha Hb Hkey. apply Hneeded in Ha, Hb.
    destruct Ha as [-> | [-> | [-> | ->]]]; destruct Hb as [-> | [-> | [-> | ->]]];
      first [reflexivity|discriminate Hkey].
Defined.



(** C4, as stated, fails: with [ignore_configure_errors] set, the target
    whose environment misses [A] is still kept out of the alias [all]. *)
Lemma declareTarget_degraded_counterexample :
  let st := Fixture.projectIgnore in
  let run := declareTarget 1 "prog" None st in
  env_at st (env st) !! "ignore_configure_errors" = Some (VBool true) ∧
  env_at st 1 !! missingKey = Some (VStrs ["A"]) ∧
  run.1 = Return tt ∧
  aliases run.2 !! "all" = None ∧
  removedFromDefaultTargets run.2 !! "prog" = Some (VStrs ["A"]).
Proof. vm_compute. done. Qed.

(** What [ignore_configure_errors] decides: whether [end] exits when
    libraries failed. *)
Example end_exits_on_configure_errors :
  (end_ Fixture.projectFailed).1 = Raise (SystemExit 1).
Proof. vm_compute. reflexivity. Qed.

Example end_goes_on_when_errors_ignored :
  (end_ Fixture.projectFailedIgnored).1 = Return tt.
Proof. vm_compute. reflexivity. Qed.

Lemma declareTarget_degraded_witness :
  (∃ st', declareTarget 1 "prog" None Fixture.projectIgnore = (Return tt, st') ∧
     removedFromDefaultTargets st' !! default "prog" (nonEmpty None)
       = Some (VStrs ["A"]) ∧
     aliases st' = aliases Fixture.projectIgnore ∧
     envs st' = envs Fixture.projectIgnore) ∧
  ∀ s : Project,
    removedFromDefaultTargets (end_ s).2 = removedFromDefaultTargets s ∧
    (∀ code s', end_ s = (Raise (SystemExit code), s') →
       code = 1 ∧ libs_error s ≠ [] ∧
       ∃ ignore, env_at s (env s) !! "ignore_configure_errors" = Some ignore ∧
                 truthy ignore = false) ∧
    (∀ color_error color_clear ignore,
       windows s = false → libs_error s ≠ [] →
       env_at s (env s) !! "color_error" = Some (VStr color_error) →
       env_at s (env s) !! "color_clear" = Some (VStr color_clear) →
       env_at s (env s) !! "ignore_configure_errors" = Some ignore →
       truthy ignore = false →
       ∃ s', end_ s = (Raise (SystemExit 1), s')).
Proof.
  apply (declareTarget_degraded 1 "prog" None (VStrs ["A"]) Fixture.projectIgnore).
  - reflexivity.
  - reflexivity.
Defined.

Lemma checkLibrary_internal_trusted_witness :
  checkLibrary 10 Fixture.libInternal Fixture.project0 = (Return true, Fixture.project0).
Proof.
  apply (checkLibrary_internal_trusted 10 Fixture.libInternal "lib/libmylib.a").
  reflexivity.
Defined.



Lemma no_sources_raises_witness :
  let args := defaultArgs "foo" in
  let st := Fixture.project0 in
  StaticLibrary 10 args st = (Raise (noSources "foo"), st) ∧
  ScriptTests 10 args st = (Raise (noSources (py_str_list ["tests"])), st).
Proof.
  destruct (no_sources_raises 10 (defaultArgs "foo") Fixture.project0) as [Hlib Htest].
  split.
  - apply Hlib. reflexivity.
  - apply Htest. reflexivity.
Defined.


(** * The further properties on the small project and its source tree *)

#[local] Existing Instance Sample.layout.

Lemma inBuildDir_round_trip_witness :
  ∃ b, inBuildDir [PathStr (dir +:+ "/" +:+ "libs/core/src/a.cpp")] = Some (PathStr b) ∧
       getRealAbsoluteCwd (PathStr b) = PathStr (dir +:+ "/" +:+ "libs/core/src/a.cpp") ∧
       inBuildDir [PathStr b] = Some (PathStr b).
Proof.
  apply (inBuildDir_round_trip "libs/core/src/a.cpp").
  - discriminate.
  - reflexivity.
  - reflexivity.
  - reflexivity.
  - reflexivity.
Defined.

Lemma getAllAbsoluteCwd_two_trees_witness :
  let s := dir +:+ "/" +:+ "libs/core" in
  let b := dir_output_build +:+ "/" +:+ "libs/core" in
  getAllAbsoluteCwd (PathStr s) = Some [s; inBuildDir_str s] ∧
  getAllAbsoluteCwd (PathStr b) = Some [b; realAbsoluteCwd b].
Proof.
  apply (getAllAbsoluteCwd_two_trees "libs/core"); reflexivity.
Defined.

Lemma scanFilesInDir_flat_misses_witness :
  scanFilesInDir "" ["*.cpp"] ["_ui"] true false = ["a.cpp"] ∧
  scanFilesInDir "" ["*.cpp"] ["_ui"] false false = [].
Proof.
  split; [reflexivity|].
  apply (scanFilesInDir_flat_misses "" ["*.cpp"] ["_ui"] false).
  intros c pattern Hin. apply list_elem_of_singleton in Hin as ->.
  destruct c as [[] [] [] [] [] [] [] []]; reflexivity.
Defined.

Lemma getDirs_parents_witness :
  ∃ r, getDirs (Parents 2) = Some r ∧
       r `suffix_of` alldirs ∧
       length r = Nat.min (Z.to_nat 2) (length alldirs) ∧
       getName 2 = py_join "_" r.
Proof. apply (getDirs_parents 2). lia. Defined.

Lemma findLibsDependencies_reachable_witness :
  (Fixture.libA, 1) ∈ [(Fixture.libA, 1); (Fixture.libB, 0); (Fixture.libA, 0)] ↔
  ∃ lib, lib ∈ [Fixture.libC; Fixture.libInternal] ∧
         reaches Fixture.heap0 1 lib Fixture.libA.
Proof.
  apply (findLibsDependencies_reachable Fixture.heap0 10
           (LibList [Fixture.libC; Fixture.libInternal])).
  reflexivity.
Defined.

Lemma resolvedLibs_cycle_overflows_witness :
  reaches Sample.heapCycle 1 1 1 ∧
  ∀ fuel, resolvedLibs fuel Sample.heapCycle [3; 1] = None.
Proof.
  assert (Hcycle : reaches Sample.heapCycle 1 1 1).
  { exists 2. split; apply list_elem_of_here. }
  split; [exact Hcycle|].
  apply (resolvedLibs_cycle_overflows Sample.heapCycle [3; 1] 3 1 1).
  - apply list_elem_of_here.
  - right. exists 0. apply list_elem_of_here.
  - exact Hcycle.
Defined.

Lemma resolvedLibs_complete_witness :
  let res := [(Fixture.libA, 1); (Fixture.libB, 0); (Fixture.libC, 0);
              (Fixture.libInternal, 0)] in
  let libs_ := [Fixture.libC; Fixture.libInternal] in
  (∀ a level, (a, level) ∈ res → needed Fixture.heap0 libs_ a) ∧
  (∀ a, needed Fixture.heap0 libs_ a →
     ∃ b level, (b, level) ∈ res ∧ libKey Fixture.heap0 b = libKey Fixture.heap0 a).
Proof.
  apply (resolvedLibs_complete Fixture.heap0 10 [Fixture.libC; Fixture.libInternal]).
  reflexivity.
Defined.

Lemma configuration_errors_witness :
  configurationError (KeyError "check_libs").
Proof.
  apply (configuration_errors 10 0 [] "t" Fixture.libA Sample.projectNoCheckLibs).
  left. exists Sample.projectNoCheckLibs. reflexivity.
Defined.

(** On Windows a library ends on the attribute that the project lacks. *)
Example StaticLibrary_on_windows :
  (StaticLibrary 10 Sample.libArgs Sample.projectWindows).1 =
    Raise (AttributeError "convertSconsPathToStr").
Proof. vm_compute. reflexivity. Qed.

Lemma targets_return_off_windows_witness :
  sourcesFiles Sample.libArgs ≠ [] ∧ windows Fixture.project0 = false.
Proof.
  apply (targets_return_off_windows 10 Sample.libArgs "lib/core" Fixture.project0
           (StaticLibrary 10 Sample.libArgs Fixture.project0).2).
  left. apply run_pair. vm_compute. reflexivity.
Defined.

Lemma ScriptTests_errors_witness :
  scriptError (Fixture.scriptArgs true) (NameError "file").
Proof.
  apply (ScriptTests_errors 10 (Fixture.scriptArgs true) Fixture.projectDebug
           Fixture.projectDebug).
  reflexivity.
Defined.

Lemma ScriptTests_returns_nothing_witness :
  let args := Fixture.scriptArgs false in
  ([] : list Node) = [] ∧ checkDependencies args = false ∧ procEnvFlags args = [] ∧
  nodeDependencies args = [] ∧ libraries args = [].
Proof.
  apply (ScriptTests_returns_nothing 10 (Fixture.scriptArgs false) Fixture.projectDebug
           (ScriptTests 10 (Fixture.scriptArgs false) Fixture.projectDebug).2).
  apply run_pair. vm_compute. reflexivity.
Defined.

Lemma ScriptTests_without_procEnvFlags_witness :
  let args := Fixture.scriptArgs false in
  let st := Fixture.projectDebug in
  (∀ r st', ScriptTests 10 args st = (Return r, st') → r = []) ∧
  (checkDependencies args = false →
   nodeDependencies args ≠ [] ∨ libraries args ≠ [] →
   ∃ e st', ScriptTests 10 args st = (Raise e, st')).
Proof.
  apply (ScriptTests_without_procEnvFlags 10 (Fixture.scriptArgs false)
           Fixture.projectDebug).
  reflexivity.
Defined.

Lemma project_accumulates_witness :
  grows Fixture.project0 (StaticLibrary 10 Sample.libArgs Fixture.project0).2.
Proof.
  apply (project_accumulates 10 Sample.libArgs [] "t" 0 Fixture.libA None).
  do 5 apply list_elem_of_further. apply list_elem_of_here.
Defined.


Lemma end_exits_only_on_errors_witness :
  1 = 1 ∧ libs_error Fixture.projectFailed ≠ [] ∧
  ∃ ignore,
    env_at Fixture.projectFailed (env Fixture.projectFailed)
      !! "ignore_configure_errors" = Some ignore ∧
    truthy ignore = false.
Proof.
  apply (end_exits_only_on_errors Fixture.projectFailed
           (end_ Fixture.projectFailed).2 1).
  apply run_pair. vm_compute. reflexivity.
Defined.

Lemma end_exits_on_errors_witness :
  let st := Fixture.projectFailed in
  ∃ st' tr, end_ st = (Raise (SystemExit 1), st') ∧
    trace st' = trace st ++ tr ∧ Forall (λ ev, completes ev = false) tr ∧
    ∀ k, k ≠ "targets" → aliases st' !! k = aliases st !! k.
Proof.
  apply (end_exits_on_errors Fixture.projectFailed "" "" (VBool false)).
  - reflexivity.
  - discriminate.
  - reflexivity.
  - reflexivity.
  - reflexivity.
  - reflexivity.
Defined.

Lemma checkLibrary_answers_once_witness :
  let st' := (checkLibrary 10 Fixture.libA Fixture.project0).2 in
  checkLibrary 3 Fixture.libA st' = (Return true, st').
Proof.
  apply (checkLibrary_answers_once 10 3 Fixture.libA false Fixture.project0).
  apply run_pair. vm_compute. reflexivity.
Defined.

Lemma checkLibrary_fails_on_its_own_witness :
  let st := Fixture.project0 in
  let st' := (checkLibrary 10 Fixture.libA st).2 in
  (Fixture.libA ∉ checkDone st) ∧ sconsNode (heap st Fixture.libA) = None ∧
  (name (heap st Fixture.libA) ∉ allLibsChecked st) ∧ checkEnabled st ∧
  ∃ tr, trace st' = trace st ++ tr ∧
    (EvConfigure Fixture.libA (length (envs st)) false ∈ tr ∨
     EvCheck Fixture.libA (length (envs st)) false ∈ tr).
Proof.
  apply (checkLibrary_fails_on_its_own 10 Fixture.libA Fixture.project0).
  apply run_pair. vm_compute. reflexivity.
Defined.

Lemma library_target_registered_witness :
  registered 10 Sample.libArgs "lib/core"
    (StaticLibrary 10 Sample.libArgs Fixture.project0).2.
Proof.
  apply (library_target_registered 10 Sample.libArgs "lib/core" Fixture.project0).
  left. apply run_pair. vm_compute. reflexivity.
Defined.

Lemma Program_registered_witness :
  let st' := (Program 10 Sample.libArgs Fixture.project0).2 in
  allTargets st' !! "core" = Some (Some "bin/core", None) ∧
  "bin/core" ∈ default [] (aliases st' !! "core") ∧
  ("core" ∈ default [] (aliases st' !! "all") ∨
   "core" ∈ dom (removedFromDefaultTargets st')).
Proof.
  apply (Program_registered 10 Sample.libArgs "bin/core" Fixture.project0).
  apply run_pair. vm_compute. reflexivity.
Defined.

Lemma ObjectLibrary_registered_witness :
  let st := Fixture.project0 in
  let st' := (ObjectLibrary 10 Sample.libArgs st).2 in
  allTargets st' !! "core" = Some (None, Some 8) ∧
  sconsNode (heap st' 8) = None ∧ name (heap st' 8) = "core" ∧
  dependencies (heap st' 8) = [Some Fixture.libB] ∧
  (true = true → publicLibs st' !! "core" = Some 8) ∧
  aliases st' = aliases st ∧
  removedFromDefaultTargets st' = removedFromDefaultTargets st.
Proof.
  apply (ObjectLibrary_registered 10 Sample.libArgs 8 Fixture.project0).
  apply run_pair. vm_compute. reflexivity.
Defined.

Lemma appendLibsToEnv_without_configure_witness :
  unconfigured Sample.projectClean
    (appendLibsToEnv 10 0 [Fixture.libA] "t" Sample.projectClean).2.
Proof.
  apply (appendLibsToEnv_without_configure 10 0 [Fixture.libA] "t"
           Sample.projectClean _ (Return 0)).
  - left. reflexivity.
  - apply run_pair. vm_compute. reflexivity.
Defined.

Lemma applyOptionsOnEnv_without_colors_witness :
  (applyOptionsOnEnv 0 Sample.projectNoColors).1 = Return tt ∧
  ∀ c, c ∈ color_keys →
    env_at (applyOptionsOnEnv 0 Sample.projectNoColors).2 0 !! c = Some (VStr "").
Proof.
  split; [vm_compute; reflexivity|].
  apply (applyOptionsOnEnv_without_colors 0 Sample.projectNoColors _ (VBool false)).
  - apply run_pair. vm_compute. reflexivity.
  - vm_compute. reflexivity.
  - reflexivity.
Defined.

Lemma appendDict_keys_witness :
  let dst := [("CPPPATH", VStrs ["include"]); ("LIBS", VStr "m")] in
  let src := [("LIBS", VStrs ["z"]); ("CCFLAGS", VStr "-O2")] in
  (appendDict dst src).*1 = dst.*1 ++ filter (λ k, k ∉ dst.*1) src.*1 ∧
  NoDup (appendDict dst src).*1.
Proof.
  apply (appendDict_keys [("CPPPATH", VStrs ["include"]); ("LIBS", VStr "m")]
           [("LIBS", VStrs ["z"]); ("CCFLAGS", VStr "-O2")]).
  - apply (bool_decide_unpack _). vm_compute. reflexivity.
  - apply (bool_decide_unpack _). vm_compute. reflexivity.
Defined.

Lemma appendDict_items_witness :
  let dst := [("CPPPATH", VStrs ["include"]); ("LIBS", VStr "m")] in
  let src := [("LIBS", VStrs ["z"]); ("CCFLAGS", VStr "-O2")] in
  ("LIBS", VList [VStr "m"; VStr "z"]) ∈ appendDict dst src ↔
    (∃ old v, ("LIBS", old) ∈ dst ∧ ("LIBS", v) ∈ src ∧
              VList [VStr "m"; VStr "z"] = mergedValue old v) ∨
    (("LIBS", VList [VStr "m"; VStr "z"]) ∈ dst ∧ "LIBS" ∉ src.*1) ∨
    (("LIBS", VList [VStr "m"; VStr "z"]) ∈ src ∧ "LIBS" ∉ dst.*1).
Proof.
  apply (appendDict_items [("CPPPATH", VStrs ["include"]); ("LIBS", VStr "m")]
           [("LIBS", VStrs ["z"]); ("CCFLAGS", VStr "-O2")]).
  - apply (bool_decide_unpack _). vm_compute. reflexivity.
  - apply (bool_decide_unpack _). vm_compute. reflexivity.
Defined.

